(** * go-astits: PSI section engine, descriptor loop and demuxer data path

    A shallow embedding of [data_psi.go], [descriptor.go] and [demuxer.go]
    of the MPEG-2 transport stream library, and the properties of its
    specification that concern them.

    Conventions of the embedding.
    - A Go [byte] of a buffer is a [Byte.byte]; [u8] reads it as a number
      and [mk8] is the conversion [uint8(x)] (reduction modulo 256).
    - Go's [int] (64 bits here) is [Z]: every [int] of this code is an
      offset into, or a length of, a buffer held in memory, far from the
      range where it would wrap.  The narrower unsigned types wrap where the
      code can make them wrap, and the wrap is written out ([wrap8],
      [wrap16], [wrap32]).
    - A Go function [f(...) (T, error)] is a function into [Res T]: [Ok v]
      for [(v, nil)], [Err e] for a non-nil error, [Abn x] when the call
      does not return to its caller at all (a run-time panic, or a loop
      that never ends).
    - A function that reads through a [*astikit.BytesIterator] is a
      [Parser]; one that writes into a [[]byte] is a [Writer]. *)

From Stdlib Require Import ZArith List Lia Bool String.
From Stdlib.Strings Require Import Byte.
From stdpp Require Import base gmap list strings.
Import ListNotations.
Local Open Scope Z_scope.

(* ================================================================= *)
(** ** Machine integers and bytes *)

Definition u8 (b : byte) : Z := Z.of_N (Byte.to_N b).

Definition mk8 (z : Z) : byte :=
  match Byte.of_N (Z.to_N (z mod 256)) with
  | Some b => b
  | None => x00
  end.

Definition wrap8 (z : Z) : Z := z mod 2 ^ 8.
Definition wrap16 (z : Z) : Z := z mod 2 ^ 16.
Definition wrap32 (z : Z) : Z := z mod 2 ^ 32.

(** [len(s)] of a slice, as an [int]. *)
Definition len {A : Type} (l : list A) : Z := Z.of_nat (length l).

(** A byte literal list, for the concrete inputs below. *)
Definition bytes (l : list Z) : list byte := map mk8 l.

(** [b&m > 0] on a byte. *)
Definition bitSet (b : byte) (m : Z) : bool := 0 <? Z.land (u8 b) m.

(** [uint16(bs[0])<<8 | uint16(bs[1])] and its 32-bit counterpart, on the
    leading bytes of a slice that holds at least that many. *)
Definition be16 (b0 b1 : byte) : Z := Z.lor (Z.shiftl (u8 b0) 8) (u8 b1).
Definition be32 (b0 b1 b2 b3 : byte) : Z :=
  Z.lor (Z.lor (Z.lor (Z.shiftl (u8 b0) 24) (Z.shiftl (u8 b1) 16))
               (Z.shiftl (u8 b2) 8)) (u8 b3).

(* ================================================================= *)
(** ** Errors and results *)

Inductive error : Type :=
| ErrNoMorePackets
| ErrPacketMustStartWithASyncByte
| ErrNoRoomInBuffer
| ErrSlice (length offset : Z)
    (* astikit: slice length is %d, offset %d is invalid *)
| ErrCRC32 (table computed : Z)
    (* astits: Table CRC32 %x != computed CRC32 %x *)
| ErrNew (msg : string)
    (* errors.New(msg) *)
| ErrWrap (msg : string) (e : error).
    (* fmt.Errorf(msg + ": %w", e) *)

Inductive abnormal : Type :=
| Panics      (* a run-time panic: index or slice bound out of range, nil dereference *)
| Diverges.   (* a loop that never ends *)

Inductive Res (A : Type) : Type :=
| Ok (a : A)
| Err (e : error)
| Abn (x : abnormal).
Arguments Ok {A} a.
Arguments Err {A} e.
Arguments Abn {A} x.

(** [err = fmt.Errorf(msg + ": %w", err); return] around a call. *)
Definition wrapErr {A : Type} (msg : string) (r : Res A) : Res A :=
  match r with
  | Err e => Err (ErrWrap msg e)
  | _ => r
  end.

Definition isOk {A : Type} (r : Res A) : bool :=
  match r with Ok _ => true | _ => false end.

(* ================================================================= *)
(** ** astikit.BytesIterator

    The iterator of the external library go-astikit, which the parsers
    of this repository read their input through: a slice, which no method
    of the iterator changes, and an offset into it.  [NextByte] and
    [NextBytes] return an error when the slice is too short for the read
    and leave the offset alone then; [Seek] and [Skip] move the offset
    without any check.

    A function of the repository that works on a [*astikit.BytesIterator]
    is a [Parser]: given the slice and the offset before the call, the
    result and the offset after it. *)

Definition Parser (A : Type) : Type := list byte -> Z -> Res (A * Z).

Definition ret {A : Type} (a : A) : Parser A := fun _ o => Ok (a, o).

Definition bind {A B : Type} (m : Parser A) (k : A -> Parser B) : Parser B :=
  fun buf o =>
    match m buf o with
    | Ok (a, o') => k a buf o'
    | Err e => Err e
    | Abn x => Abn x
    end.

Definition wrapping {A : Type} (msg : string) (m : Parser A) : Parser A :=
  fun buf o => wrapErr msg (m buf o).

(** A panic in the middle of a function. *)
Definition panic {A : Type} : Parser A := fun _ _ => Abn Panics.

Notation "'let*' x := m 'in' k" := (bind m (fun x => k))
  (at level 10, x name, m at level 100, k at level 200).
Notation "'let*' ' pat := m 'in' k" := (bind m (fun x => match x with pat => k end))
  (at level 10, pat pattern, m at level 100, k at level 200).

Definition Offset : Parser Z := fun _ o => Ok (o, o).
Definition Len : Parser Z := fun buf o => Ok (len buf, o).
Definition HasBytesLeft : Parser bool := fun buf o => Ok (o <? len buf, o).
Definition Seek (n : Z) : Parser unit := fun _ _ => Ok (tt, n).
Definition Skip (n : Z) : Parser unit := fun _ o => Ok (tt, o + n).

Definition NextByte : Parser byte := fun buf o =>
  if len buf <? o + 1 then Err (ErrSlice (len buf) o)
  else if o <? 0 then Abn Panics
  else match buf !! Z.to_nat o with
       | Some b => Ok (b, o + 1)
       | None => Abn Panics
       end.

(** [make([]byte, n)] panics on a negative [n], and so does the slice
    expression on a negative offset. *)
Definition NextBytes (n : Z) : Parser (list byte) := fun buf o =>
  if len buf <? o + n then Err (ErrSlice (len buf) (o + n))
  else if (n <? 0) || (o <? 0) then Abn Panics
  else Ok (take (Z.to_nat n) (drop (Z.to_nat o) buf), o + n).

(** The two reads with the wrapping every call site of the repository
    gives them. *)
Definition nextByte : Parser byte :=
  wrapping "astits: fetching next byte failed" NextByte.
Definition nextBytes (n : Z) : Parser (list byte) :=
  wrapping "astits: fetching next bytes failed" (NextBytes n).

(** [bs[k]] of a slice a read has just returned: the zero byte stands for
    an index the slice does not have, which no call site reaches. *)
Definition at8 (l : list byte) (k : nat) : byte := nth k l x00.

(* ================================================================= *)
(** ** CRC32 ([data_psi.go]) *)

(** One turn of the inner loop of [computeCRC32], on the register [o] and
    the byte [b] being shifted out. *)
Definition crc32Step (o b : Z) : Z * Z :=
  (if negb (eqb (0x80000000 <=? o) (0x80 <=? b))
   then Z.lxor (wrap32 (Z.shiftl o 1)) 0x04C11DB7
   else wrap32 (Z.shiftl o 1),
   wrap8 (Z.shiftl b 1)).

Fixpoint crc32Bits (n : nat) (o b : Z) : Z :=
  match n with
  | O => o
  | S n' => let '(o', b') := crc32Step o b in crc32Bits n' o' b'
  end.

Definition computeCRC32 (data : list byte) : Res Z :=
  Ok (fold_left (fun o b => crc32Bits 8 o (u8 b)) data 0xffffffff).

(** The reference the specification names: the MPEG-2 CRC32 as a 32-bit
    shift register fed the message bit by bit, most significant bit of
    each byte first.  The bit leaving the register is compared with the
    message bit; the register moves one place to the left, and the
    generator polynomial is added when the two bits differ.  The register
    starts at all ones; nothing is reflected and nothing is added at the
    end. *)
Definition crcPolynomial : Z := 0x04C11DB7.
Definition crcInit : Z := 0xFFFFFFFF.

Definition msbFirst (b : byte) : list bool :=
  map (fun j => Z.testbit (u8 b) (7 - Z.of_nat j)) (seq 0 8).

Definition crcShift (r : Z) (m : bool) : Z :=
  let r' := Z.land (2 * r) (Z.ones 32) in
  if xorb (Z.testbit r 31) m then Z.lxor r' crcPolynomial else r'.

Definition crc32_mpeg2 (msg : list byte) : Z :=
  fold_left crcShift (flat_map msbFirst msg) crcInit.

(* ================================================================= *)
(** ** PSI table types ([data_psi.go]) *)

Definition PSITableTypeBAT : string := "BAT".
Definition PSITableTypeDIT : string := "DIT".
Definition PSITableTypeEIT : string := "EIT".
Definition PSITableTypeNIT : string := "NIT".
Definition PSITableTypeNull : string := "Null".
Definition PSITableTypePAT : string := "PAT".
Definition PSITableTypePMT : string := "PMT".
Definition PSITableTypeRST : string := "RST".
Definition PSITableTypeSDT : string := "SDT".
Definition PSITableTypeSIT : string := "SIT".
Definition PSITableTypeST : string := "ST".
Definition PSITableTypeTDT : string := "TDT".
Definition PSITableTypeTOT : string := "TOT".
Definition PSITableTypeUnknown : string := "Unknown".

(** The [switch] of [psiTableType]: the first case that holds decides. *)
Definition psiTableType (tableID : Z) : string :=
  if tableID =? 0x4a then PSITableTypeBAT
  else if (0x4e <=? tableID) && (tableID <=? 0x6f) then PSITableTypeEIT
  else if tableID =? 0x7e then PSITableTypeDIT
  else if (tableID =? 0x40) || (tableID =? 0x41) then PSITableTypeNIT
  else if tableID =? 0xff then PSITableTypeNull
  else if tableID =? 0 then PSITableTypePAT
  else if tableID =? 2 then PSITableTypePMT
  else if tableID =? 0x71 then PSITableTypeRST
  else if (tableID =? 0x42) || (tableID =? 0x46) then PSITableTypeSDT
  else if tableID =? 0x7f then PSITableTypeSIT
  else if tableID =? 0x72 then PSITableTypeST
  else if tableID =? 0x70 then PSITableTypeTDT
  else if tableID =? 0x73 then PSITableTypeTOT
  else PSITableTypeUnknown.

Definition shouldStopPSIParsing (tableType : string) : bool :=
  String.eqb tableType PSITableTypeNull || String.eqb tableType PSITableTypeUnknown.

Definition hasCRC32 (tableType : string) : bool :=
  String.eqb tableType PSITableTypePAT ||
  String.eqb tableType PSITableTypePMT ||
  String.eqb tableType PSITableTypeEIT ||
  String.eqb tableType PSITableTypeNIT ||
  String.eqb tableType PSITableTypeTOT ||
  String.eqb tableType PSITableTypeSDT.

Definition hasPSISyntaxHeader (tableType : string) : bool :=
  String.eqb tableType PSITableTypeEIT ||
  String.eqb tableType PSITableTypeNIT ||
  String.eqb tableType PSITableTypePAT ||
  String.eqb tableType PSITableTypePMT ||
  String.eqb tableType PSITableTypeSDT.

(** The normative table of the specification, row by row: a range of
    table identifiers and the type it stands for. *)
Definition tableIDRows : list (Z * Z * string) :=
  [ (0x00, 0x00, "PAT"); (0x02, 0x02, "PMT"); (0x40, 0x41, "NIT");
    (0x42, 0x42, "SDT"); (0x46, 0x46, "SDT"); (0x4A, 0x4A, "BAT");
    (0x4E, 0x6F, "EIT"); (0x70, 0x70, "TDT"); (0x71, 0x71, "RST");
    (0x72, 0x72, "ST"); (0x73, 0x73, "TOT"); (0x7E, 0x7E, "DIT");
    (0x7F, 0x7F, "SIT"); (0xFF, 0xFF, "Null") ]%string.

(** The types of all the rows a table identifier falls in. *)
Definition inRow (tableID : Z) (r : Z * Z * string) : bool :=
  (fst (fst r) <=? tableID) && (tableID <=? snd (fst r)).

Definition rowsOf (tableID : Z) : list string :=
  map snd (List.filter (inRow tableID) tableIDRows).

(* ================================================================= *)
(** ** Loops over the iterator

    [for i.Offset() < offsetEnd { body }], with the loop's variables as the
    state [S] the body transforms.  The recursion is on a bound that
    [forOffsetBelow] sets to the distance still to go: a body that moves
    the offset forward each turn ends the loop before the bound is used up
    (lemma [loopUntil_fuel] below), and a body that leaves the iterator where
    it is, while the offset is below [offsetEnd], is a loop that never ends
    in Go and [Abn Diverges] here. *)

Fixpoint loopUntil {S : Type} (fuel : nat) (offsetEnd : Z)
    (body : S -> Parser S) (s : S) (buf : list byte) (o : Z) : Res (S * Z) :=
  if o <? offsetEnd then
    match fuel with
    | O => Abn Diverges
    | Datatypes.S fuel' =>
        match body s buf o with
        | Ok (s', o') => loopUntil fuel' offsetEnd body s' buf o'
        | Err e => Err e
        | Abn x => Abn x
        end
    end
  else Ok (s, o).

Definition forOffsetBelow {S : Type} (offsetEnd : Z) (body : S -> Parser S) (s : S)
  : Parser S :=
  fun buf o => loopUntil (Z.to_nat (offsetEnd - o)) offsetEnd body s buf o.

(** [for ... { x, err := item(i); ...; l = append(l, x) }]. *)
Definition appending {A : Type} (item : Parser A) : list A -> Parser (list A) :=
  fun acc => let* x := item in ret (acc ++ [x]).

(** [if i.Offset() < offsetEnd { v, err = i.NextBytes(offsetEnd - i.Offset()) }]. *)
Definition restUntil (offsetEnd : Z) : Parser (list byte) :=
  let* o := Offset in
  if o <? offsetEnd then nextBytes (offsetEnd - o) else ret [].

(** [if cond { b, err = i.NextByte(); field = uint8(b) }]: the field keeps
    its zero value otherwise. *)
Definition byteWhen (cond : bool) : Parser Z :=
  if cond then (let* b := nextByte in ret (u8 b)) else ret 0.

(* ================================================================= *)
(** ** DVB times *)

(** A binary-coded decimal byte. *)
Definition bcd (b : byte) : Z := Z.shiftr (u8 b) 4 * 10 + Z.land (u8 b) 0xf.

Record DVBTime : Type := mkDVBTime {
  MJD : Z; Hour : Z; Minute : Z; Second : Z
}.

(** Modelled from the spec: [parseDVBTime] of dvb.go, which is not among
    the sources.  "DVB date-time is 5 bytes: 16-bit MJD + 3 BCD bytes (HH,
    MM, SS)."  The date is kept as the modified Julian day it is sent as. *)
Definition parseDVBTime : Parser DVBTime :=
  let* bs := nextBytes 5 in
  ret (mkDVBTime (be16 (at8 bs 0) (at8 bs 1))
                 (bcd (at8 bs 2)) (bcd (at8 bs 3)) (bcd (at8 bs 4))).

(** Modelled from the spec: [parseDVBDurationMinutes] of dvb.go, which is
    not among the sources.  "Duration minutes is 2 BCD bytes": hours and
    minutes; the duration is given in minutes. *)
Definition parseDVBDurationMinutes : Parser Z :=
  let* bs := nextBytes 2 in
  ret (bcd (at8 bs 0) * 60 + bcd (at8 bs 1)).

(* ================================================================= *)
(** ** Descriptors ([descriptor.go]) *)

Definition DescriptorTagAC3 : Z := 0x6a.
Definition DescriptorTagAVCVideo : Z := 0x28.
Definition DescriptorTagComponent : Z := 0x50.
Definition DescriptorTagContent : Z := 0x54.
Definition DescriptorTagDataStreamAlignment : Z := 0x6.
Definition DescriptorTagEnhancedAC3 : Z := 0x7a.
Definition DescriptorTagExtendedEvent : Z := 0x4e.
Definition DescriptorTagExtension : Z := 0x7f.
Definition DescriptorTagISO639LanguageAndAudioType : Z := 0xa.
Definition DescriptorTagLocalTimeOffset : Z := 0x58.
Definition DescriptorTagMaximumBitrate : Z := 0xe.
Definition DescriptorTagNetworkName : Z := 0x40.
Definition DescriptorTagParentalRating : Z := 0x55.
Definition DescriptorTagPrivateDataIndicator : Z := 0xf.
Definition DescriptorTagPrivateDataSpecifier : Z := 0x5f.
Definition DescriptorTagRegistration : Z := 0x5.
Definition DescriptorTagService : Z := 0x48.
Definition DescriptorTagShortEvent : Z := 0x4d.
Definition DescriptorTagStreamIdentifier : Z := 0x52.
Definition DescriptorTagSubtitling : Z := 0x59.
Definition DescriptorTagTeletext : Z := 0x56.
Definition DescriptorTagVBIData : Z := 0x45.
Definition DescriptorTagVBITeletext : Z := 0x46.

Definition DescriptorTagExtensionSupplementaryAudio : Z := 0x6.

Definition VBIDataServiceIDClosedCaptioning : Z := 0x6.
Definition VBIDataServiceIDEBUTeletext : Z := 0x1.
Definition VBIDataServiceIDInvertedTeletext : Z := 0x2.
Definition VBIDataServiceIDMonochrome442Samples : Z := 0x7.
Definition VBIDataServiceIDVPS : Z := 0x4.
Definition VBIDataServiceIDWSS : Z := 0x5.

Record DescriptorAC3 : Type := mkDescriptorAC3 {
  AC3_AdditionalInfo : list byte;
  AC3_ASVC : Z;
  AC3_BSID : Z;
  AC3_ComponentType : Z;
  AC3_HasASVC : bool;
  AC3_HasBSID : bool;
  AC3_HasComponentType : bool;
  AC3_HasMainID : bool;
  AC3_MainID : Z
}.

Definition newDescriptorAC3 (offsetEnd : Z) : Parser DescriptorAC3 :=
  let* b := nextByte in
  let hasASVC := bitSet b 0x10 in
  let hasBSID := bitSet b 0x40 in
  let hasComponentType := bitSet b 0x80 in
  let hasMainID := bitSet b 0x20 in
  let* componentType := byteWhen hasComponentType in
  let* bsid := byteWhen hasBSID in
  let* mainID := byteWhen hasMainID in
  let* asvc := byteWhen hasASVC in
  let* info := restUntil offsetEnd in
  ret {| AC3_AdditionalInfo := info; AC3_ASVC := asvc; AC3_BSID := bsid;
         AC3_ComponentType := componentType; AC3_HasASVC := hasASVC;
         AC3_HasBSID := hasBSID; AC3_HasComponentType := hasComponentType;
         AC3_HasMainID := hasMainID; AC3_MainID := mainID |}.

Record DescriptorAVCVideo : Type := mkDescriptorAVCVideo {
  AVC24HourPictureFlag : bool;
  AVCStillPresent : bool;
  CompatibleFlags : Z;
  ConstraintSet0Flag : bool;
  ConstraintSet1Flag : bool;
  ConstraintSet2Flag : bool;
  LevelIDC : Z;
  ProfileIDC : Z
}.

Definition newDescriptorAVCVideo : Parser DescriptorAVCVideo :=
  let* b0 := nextByte in
  let* b1 := nextByte in
  let* b2 := nextByte in
  let* b3 := nextByte in
  ret {| AVC24HourPictureFlag := bitSet b3 0x40;
         AVCStillPresent := bitSet b3 0x80;
         CompatibleFlags := Z.land (u8 b1) 0x1f;
         ConstraintSet0Flag := bitSet b1 0x80;
         ConstraintSet1Flag := bitSet b1 0x40;
         ConstraintSet2Flag := bitSet b1 0x20;
         LevelIDC := u8 b2;
         ProfileIDC := u8 b0 |}.

Record DescriptorComponent : Type := mkDescriptorComponent {
  Component_ComponentTag : Z;
  Component_ComponentType : Z;
  Component_ISO639LanguageCode : list byte;
  Component_StreamContent : Z;
  Component_StreamContentExt : Z;
  Component_Text : list byte
}.

Definition newDescriptorComponent (offsetEnd : Z) : Parser DescriptorComponent :=
  let* b0 := nextByte in
  let* b1 := nextByte in
  let* b2 := nextByte in
  let* code := nextBytes 3 in
  let* text := restUntil offsetEnd in
  ret {| Component_ComponentTag := u8 b2;
         Component_ComponentType := u8 b1;
         Component_ISO639LanguageCode := code;
         Component_StreamContent := Z.land (u8 b0) 0xf;
         Component_StreamContentExt := Z.shiftr (u8 b0) 4;
         Component_Text := text |}.

Record DescriptorContentItem : Type := mkDescriptorContentItem {
  ContentNibbleLevel1 : Z;
  ContentNibbleLevel2 : Z;
  UserByte : Z
}.

Record DescriptorContent : Type := mkDescriptorContent {
  Content_Items : list DescriptorContentItem
}.

Definition newDescriptorContentItem : Parser DescriptorContentItem :=
  let* bs := nextBytes 2 in
  ret {| ContentNibbleLevel1 := Z.shiftr (u8 (at8 bs 0)) 4;
         ContentNibbleLevel2 := Z.land (u8 (at8 bs 0)) 0xf;
         UserByte := u8 (at8 bs 1) |}.

Definition newDescriptorContent (offsetEnd : Z) : Parser DescriptorContent :=
  let* items := forOffsetBelow offsetEnd (appending newDescriptorContentItem) [] in
  ret {| Content_Items := items |}.

Record DescriptorDataStreamAlignment : Type := mkDescriptorDataStreamAlignment {
  DataStreamAlignment_Type : Z
}.

Definition newDescriptorDataStreamAlignment : Parser DescriptorDataStreamAlignment :=
  let* b := nextByte in
  ret {| DataStreamAlignment_Type := u8 b |}.

Record DescriptorEnhancedAC3 : Type := mkDescriptorEnhancedAC3 {
  EAC3_AdditionalInfo : list byte;
  EAC3_ASVC : Z;
  EAC3_BSID : Z;
  EAC3_ComponentType : Z;
  EAC3_HasASVC : bool;
  EAC3_HasBSID : bool;
  EAC3_HasComponentType : bool;
  EAC3_HasMainID : bool;
  EAC3_HasSubStream1 : bool;
  EAC3_HasSubStream2 : bool;
  EAC3_HasSubStream3 : bool;
  EAC3_MainID : Z;
  EAC3_MixInfoExists : bool;
  EAC3_SubStream1 : Z;
  EAC3_SubStream2 : Z;
  EAC3_SubStream3 : Z
}.

Definition newDescriptorEnhancedAC3 (offsetEnd : Z) : Parser DescriptorEnhancedAC3 :=
  let* b := nextByte in
  let hasASVC := bitSet b 0x10 in
  let hasBSID := bitSet b 0x40 in
  let hasComponentType := bitSet b 0x80 in
  let hasMainID := bitSet b 0x20 in
  let hasSubStream1 := bitSet b 0x4 in
  let hasSubStream2 := bitSet b 0x2 in
  let hasSubStream3 := bitSet b 0x1 in
  let mixInfoExists := bitSet b 0x8 in
  let* componentType := byteWhen hasComponentType in
  let* bsid := byteWhen hasBSID in
  let* mainID := byteWhen hasMainID in
  let* asvc := byteWhen hasASVC in
  let* subStream1 := byteWhen hasSubStream1 in
  let* subStream2 := byteWhen hasSubStream2 in
  let* subStream3 := byteWhen hasSubStream3 in
  let* info := restUntil offsetEnd in
  ret {| EAC3_AdditionalInfo := info; EAC3_ASVC := asvc; EAC3_BSID := bsid;
         EAC3_ComponentType := componentType; EAC3_HasASVC := hasASVC;
         EAC3_HasBSID := hasBSID; EAC3_HasComponentType := hasComponentType;
         EAC3_HasMainID := hasMainID; EAC3_HasSubStream1 := hasSubStream1;
         EAC3_HasSubStream2 := hasSubStream2; EAC3_HasSubStream3 := hasSubStream3;
         EAC3_MainID := mainID; EAC3_MixInfoExists := mixInfoExists;
         EAC3_SubStream1 := subStream1; EAC3_SubStream2 := subStream2;
         EAC3_SubStream3 := subStream3 |}.

Record DescriptorExtendedEventItem : Type := mkDescriptorExtendedEventItem {
  ExtendedEventItem_Content : list byte;
  ExtendedEventItem_Description : list byte
}.

Record DescriptorExtendedEvent : Type := mkDescriptorExtendedEvent {
  ExtendedEvent_ISO639LanguageCode : list byte;
  ExtendedEvent_Items : list DescriptorExtendedEventItem;
  ExtendedEvent_LastDescriptorNumber : Z;
  ExtendedEvent_Number : Z;
  ExtendedEvent_Text : list byte
}.

Definition newDescriptorExtendedEventItem : Parser DescriptorExtendedEventItem :=
  let* b := nextByte in
  let descriptionLength := u8 b in
  let* description := nextBytes descriptionLength in
  let* b := nextByte in
  let contentLength := u8 b in
  let* content := nextBytes contentLength in
  ret {| ExtendedEventItem_Content := content;
         ExtendedEventItem_Description := description |}.

Definition newDescriptorExtendedEvent : Parser DescriptorExtendedEvent :=
  let* b := nextByte in
  let number := Z.shiftr (u8 b) 4 in
  let lastDescriptorNumber := Z.land (u8 b) 0xf in
  let* code := nextBytes 3 in
  let* b := nextByte in
  let itemsLength := u8 b in
  let* o := Offset in
  let offsetEnd := o + itemsLength in
  let* items := forOffsetBelow offsetEnd
                  (appending (wrapping "astits: creating extended event item failed"
                                newDescriptorExtendedEventItem)) [] in
  let* b := nextByte in
  let textLength := u8 b in
  let* text := nextBytes textLength in
  ret {| ExtendedEvent_ISO639LanguageCode := code;
         ExtendedEvent_Items := items;
         ExtendedEvent_LastDescriptorNumber := lastDescriptorNumber;
         ExtendedEvent_Number := number;
         ExtendedEvent_Text := text |}.

Record DescriptorExtensionSupplementaryAudio : Type := mkDescriptorExtensionSupplementaryAudio {
  EditorialClassification : Z;
  HasLanguageCode : bool;
  LanguageCode : list byte;
  MixType : bool;
  PrivateData : list byte
}.

Definition newDescriptorExtensionSupplementaryAudio (offsetEnd : Z)
  : Parser DescriptorExtensionSupplementaryAudio :=
  let* b := nextByte in
  let hasLanguageCode := bitSet b 0x1 in
  let* code := (if hasLanguageCode then nextBytes 3 else ret []) in
  let* private := restUntil offsetEnd in
  ret {| EditorialClassification := Z.land (Z.shiftr (u8 b) 2) 0x1f;
         HasLanguageCode := hasLanguageCode;
         LanguageCode := code;
         MixType := bitSet b 0x80;
         PrivateData := private |}.

Record DescriptorExtension : Type := mkDescriptorExtension {
  Extension_SupplementaryAudio : option DescriptorExtensionSupplementaryAudio;
  Extension_Tag : Z;
  Extension_Unknown : option (list byte)
}.

Definition newDescriptorExtension (offsetEnd : Z) : Parser DescriptorExtension :=
  let* b := nextByte in
  let tag := u8 b in
  if tag =? DescriptorTagExtensionSupplementaryAudio then
    let* audio := wrapping "astits: parsing extension supplementary audio descriptor failed"
                    (newDescriptorExtensionSupplementaryAudio offsetEnd) in
    ret {| Extension_SupplementaryAudio := Some audio; Extension_Tag := tag;
           Extension_Unknown := None |}
  else
    let* o := Offset in
    let* unknown := nextBytes (offsetEnd - o) in
    ret {| Extension_SupplementaryAudio := None; Extension_Tag := tag;
           Extension_Unknown := Some unknown |}.

Record DescriptorISO639LanguageAndAudioType : Type := mkDescriptorISO639LanguageAndAudioType {
  ISO639_Language : list byte;
  ISO639_Type : Z
}.

(** [bs[0 : len(bs)-1]] and [bs[len(bs)-1]] panic on an empty slice. *)
Definition newDescriptorISO639LanguageAndAudioType (offsetEnd : Z)
  : Parser DescriptorISO639LanguageAndAudioType :=
  let* o := Offset in
  let* bs := nextBytes (offsetEnd - o) in
  match bs with
  | [] => panic
  | _ => ret {| ISO639_Language := take (length bs - 1) bs;
                ISO639_Type := u8 (at8 bs (length bs - 1)) |}
  end.

Record DescriptorLocalTimeOffsetItem : Type := mkDescriptorLocalTimeOffsetItem {
  LocalTimeOffset_CountryCode : list byte;
  LocalTimeOffset_CountryRegionID : Z;
  LocalTimeOffset_LocalTimeOffset : Z;
  LocalTimeOffset_LocalTimeOffsetPolarity : bool;
  LocalTimeOffset_NextTimeOffset : Z;
  LocalTimeOffset_TimeOfChange : DVBTime
}.

Record DescriptorLocalTimeOffset : Type := mkDescriptorLocalTimeOffset {
  LocalTimeOffset_Items : list DescriptorLocalTimeOffsetItem
}.

Definition newDescriptorLocalTimeOffsetItem : Parser DescriptorLocalTimeOffsetItem :=
  let* code := nextBytes 3 in
  let* b := nextByte in
  let* localOffset := wrapping "astits: parsing DVB durationminutes failed"
                        parseDVBDurationMinutes in
  let* change := wrapping "astits: parsing DVB time failed" parseDVBTime in
  let* nextOffset := wrapping "astits: parsing DVB duration minutes failed"
                       parseDVBDurationMinutes in
  ret {| LocalTimeOffset_CountryCode := code;
         LocalTimeOffset_CountryRegionID := Z.shiftr (u8 b) 2;
         LocalTimeOffset_LocalTimeOffset := localOffset;
         LocalTimeOffset_LocalTimeOffsetPolarity := bitSet b 0x1;
         LocalTimeOffset_NextTimeOffset := nextOffset;
         LocalTimeOffset_TimeOfChange := change |}.

Definition newDescriptorLocalTimeOffset (offsetEnd : Z) : Parser DescriptorLocalTimeOffset :=
  let* items := forOffsetBelow offsetEnd (appending newDescriptorLocalTimeOffsetItem) [] in
  ret {| LocalTimeOffset_Items := items |}.

Record DescriptorMaximumBitrate : Type := mkDescriptorMaximumBitrate {
  Bitrate : Z
}.

Definition newDescriptorMaximumBitrate : Parser DescriptorMaximumBitrate :=
  let* bs := nextBytes 3 in
  ret {| Bitrate :=
           wrap32 (Z.lor (Z.lor (Z.shiftl (Z.land (u8 (at8 bs 0)) 0x3f) 16)
                                (Z.shiftl (u8 (at8 bs 1)) 8))
                         (u8 (at8 bs 2)) * 50) |}.

Record DescriptorNetworkName : Type := mkDescriptorNetworkName {
  NetworkName_Name : list byte
}.

Definition newDescriptorNetworkName (offsetEnd : Z) : Parser DescriptorNetworkName :=
  let* o := Offset in
  let* name := nextBytes (offsetEnd - o) in
  ret {| NetworkName_Name := name |}.

Record DescriptorParentalRatingItem : Type := mkDescriptorParentalRatingItem {
  ParentalRating_CountryCode : list byte;
  ParentalRating_Rating : Z
}.

Record DescriptorParentalRating : Type := mkDescriptorParentalRating {
  ParentalRating_Items : list DescriptorParentalRatingItem
}.

Definition MinimumAge (d : DescriptorParentalRatingItem) : Z :=
  if (ParentalRating_Rating d =? 0) || (0x10 <? ParentalRating_Rating d) then 0
  else ParentalRating_Rating d + 3.

Definition newDescriptorParentalRatingItem : Parser DescriptorParentalRatingItem :=
  let* bs := nextBytes 4 in
  ret {| ParentalRating_CountryCode := take 3 bs;
         ParentalRating_Rating := u8 (at8 bs 3) |}.

Definition newDescriptorParentalRating (offsetEnd : Z) : Parser DescriptorParentalRating :=
  let* items := forOffsetBelow offsetEnd (appending newDescriptorParentalRatingItem) [] in
  ret {| ParentalRating_Items := items |}.

Record DescriptorPrivateDataIndicator : Type := mkDescriptorPrivateDataIndicator {
  Indicator : Z
}.

Definition newDescriptorPrivateDataIndicator : Parser DescriptorPrivateDataIndicator :=
  let* bs := nextBytes 4 in
  ret {| Indicator := be32 (at8 bs 0) (at8 bs 1) (at8 bs 2) (at8 bs 3) |}.

Record DescriptorPrivateDataSpecifier : Type := mkDescriptorPrivateDataSpecifier {
  Specifier : Z
}.

Definition newDescriptorPrivateDataSpecifier : Parser DescriptorPrivateDataSpecifier :=
  let* bs := nextBytes 4 in
  ret {| Specifier := be32 (at8 bs 0) (at8 bs 1) (at8 bs 2) (at8 bs 3) |}.

Record DescriptorRegistration : Type := mkDescriptorRegistration {
  AdditionalIdentificationInfo : list byte;
  FormatIdentifier : Z
}.

Definition newDescriptorRegistration (offsetEnd : Z) : Parser DescriptorRegistration :=
  let* bs := nextBytes 4 in
  let* info := restUntil offsetEnd in
  ret {| AdditionalIdentificationInfo := info;
         FormatIdentifier := be32 (at8 bs 0) (at8 bs 1) (at8 bs 2) (at8 bs 3) |}.

Record DescriptorService : Type := mkDescriptorService {
  Service_Name : list byte;
  Service_Provider : list byte;
  Service_Type : Z
}.

Definition newDescriptorService : Parser DescriptorService :=
  let* b := nextByte in
  let type := u8 b in
  let* b := nextByte in
  let providerLength := u8 b in
  let* provider := nextBytes providerLength in
  let* b := nextByte in
  let nameLength := u8 b in
  let* name := nextBytes nameLength in
  ret {| Service_Name := name; Service_Provider := provider; Service_Type := type |}.

Record DescriptorShortEvent : Type := mkDescriptorShortEvent {
  ShortEvent_EventName : list byte;
  ShortEvent_Language : list byte;
  ShortEvent_Text : list byte
}.

Definition newDescriptorShortEvent : Parser DescriptorShortEvent :=
  let* language := nextBytes 3 in
  let* b := nextByte in
  let eventLength := u8 b in
  let* name := nextBytes eventLength in
  let* b := nextByte in
  let textLength := u8 b in
  let* text := nextBytes textLength in
  ret {| ShortEvent_EventName := name; ShortEvent_Language := language;
         ShortEvent_Text := text |}.

Record DescriptorStreamIdentifier : Type := mkDescriptorStreamIdentifier {
  StreamIdentifier_ComponentTag : Z
}.

Definition newDescriptorStreamIdentifier : Parser DescriptorStreamIdentifier :=
  let* b := nextByte in
  ret {| StreamIdentifier_ComponentTag := u8 b |}.

Record DescriptorSubtitlingItem : Type := mkDescriptorSubtitlingItem {
  AncillaryPageID : Z;
  CompositionPageID : Z;
  Subtitling_Language : list byte;
  Subtitling_Type : Z
}.

Record DescriptorSubtitling : Type := mkDescriptorSubtitling {
  Subtitling_Items : list DescriptorSubtitlingItem
}.

Definition newDescriptorSubtitlingItem : Parser DescriptorSubtitlingItem :=
  let* language := nextBytes 3 in
  let* b := nextByte in
  let* composition := nextBytes 2 in
  let* ancillary := nextBytes 2 in
  ret {| AncillaryPageID := be16 (at8 ancillary 0) (at8 ancillary 1);
         CompositionPageID := be16 (at8 composition 0) (at8 composition 1);
         Subtitling_Language := language;
         Subtitling_Type := u8 b |}.

Definition newDescriptorSubtitling (offsetEnd : Z) : Parser DescriptorSubtitling :=
  let* items := forOffsetBelow offsetEnd (appending newDescriptorSubtitlingItem) [] in
  ret {| Subtitling_Items := items |}.

Record DescriptorTeletextItem : Type := mkDescriptorTeletextItem {
  Teletext_Language : list byte;
  Teletext_Magazine : Z;
  Teletext_Page : Z;
  Teletext_Type : Z
}.

Record DescriptorTeletext : Type := mkDescriptorTeletext {
  Teletext_Items : list DescriptorTeletextItem
}.

Definition newDescriptorTeletextItem : Parser DescriptorTeletextItem :=
  let* language := nextBytes 3 in
  let* b := nextByte in
  let* p := nextByte in
  ret {| Teletext_Language := language;
         Teletext_Magazine := Z.land (u8 b) 0x7;
         Teletext_Page := wrap8 (wrap8 (Z.shiftr (u8 p) 4 * 10) + Z.land (u8 p) 0xf);
         Teletext_Type := Z.shiftr (u8 b) 3 |}.

Definition newDescriptorTeletext (offsetEnd : Z) : Parser DescriptorTeletext :=
  let* items := forOffsetBelow offsetEnd (appending newDescriptorTeletextItem) [] in
  ret {| Teletext_Items := items |}.

Record DescriptorUnknown : Type := mkDescriptorUnknown {
  Unknown_Content : list byte;
  Unknown_Tag : byte
}.

Definition newDescriptorUnknown (tag length : byte) : Parser DescriptorUnknown :=
  let* content := nextBytes (u8 length) in
  ret {| Unknown_Content := content; Unknown_Tag := tag |}.

Record DescriptorVBIDataDescriptor : Type := mkDescriptorVBIDataDescriptor {
  FieldParity : bool;
  LineOffset : Z
}.

Record DescriptorVBIDataService : Type := mkDescriptorVBIDataService {
  DataServiceID : Z;
  VBIDataService_Descriptors : list DescriptorVBIDataDescriptor
}.

Record DescriptorVBIData : Type := mkDescriptorVBIData {
  VBIData_Services : list DescriptorVBIDataService
}.

Definition vbiKnownService (id : Z) : bool :=
  (id =? VBIDataServiceIDClosedCaptioning) ||
  (id =? VBIDataServiceIDEBUTeletext) ||
  (id =? VBIDataServiceIDInvertedTeletext) ||
  (id =? VBIDataServiceIDMonochrome442Samples) ||
  (id =? VBIDataServiceIDVPS) ||
  (id =? VBIDataServiceIDWSS).

(** The inner loop reads a byte per turn for the six services it knows;
    for any other service its body is empty, and the loop spins for ever
    once entered. *)
Definition newDescriptorVBIDataService : Parser DescriptorVBIDataService :=
  let* b := nextByte in
  let id := u8 b in
  let* b := nextByte in
  let dataServiceDescriptorLength := u8 b in
  let* o := Offset in
  let offsetDataEnd := o + dataServiceDescriptorLength in
  let* descriptors :=
    forOffsetBelow offsetDataEnd
      (fun acc =>
         if vbiKnownService id then
           let* b := nextByte in
           ret (acc ++ [ {| FieldParity := bitSet b 0x20;
                            LineOffset := Z.land (u8 b) 0x1f |} ])
         else ret acc) [] in
  ret {| DataServiceID := id; VBIDataService_Descriptors := descriptors |}.

Definition newDescriptorVBIData (offsetEnd : Z) : Parser DescriptorVBIData :=
  let* services := forOffsetBelow offsetEnd (appending newDescriptorVBIDataService) [] in
  ret {| VBIData_Services := services |}.

(** The decoded content of a descriptor.  The Go struct [Descriptor] has
    one pointer field per kind of descriptor, all nil but the one
    [parseDescriptors] fills in for the tag: here, the constructor. *)
Inductive DescriptorContentOf : Type :=
| AC3 (d : DescriptorAC3)
| AVCVideo (d : DescriptorAVCVideo)
| Component (d : DescriptorComponent)
| Content (d : DescriptorContent)
| DataStreamAlignment (d : DescriptorDataStreamAlignment)
| EnhancedAC3 (d : DescriptorEnhancedAC3)
| ExtendedEvent (d : DescriptorExtendedEvent)
| Extension (d : DescriptorExtension)
| ISO639LanguageAndAudioType (d : DescriptorISO639LanguageAndAudioType)
| LocalTimeOffset (d : DescriptorLocalTimeOffset)
| MaximumBitrate (d : DescriptorMaximumBitrate)
| NetworkName (d : DescriptorNetworkName)
| ParentalRating (d : DescriptorParentalRating)
| PrivateDataIndicator (d : DescriptorPrivateDataIndicator)
| PrivateDataSpecifier (d : DescriptorPrivateDataSpecifier)
| Registration (d : DescriptorRegistration)
| Service (d : DescriptorService)
| ShortEvent (d : DescriptorShortEvent)
| StreamIdentifier (d : DescriptorStreamIdentifier)
| Subtitling (d : DescriptorSubtitling)
| Teletext (d : DescriptorTeletext)
| Unknown (d : DescriptorUnknown)
| UserDefined (content : list byte)
| VBIData (d : DescriptorVBIData)
| VBITeletext (d : DescriptorTeletext).

Record Descriptor : Type := mkDescriptor {
  Decoded : option DescriptorContentOf;
  Length : byte;
  Tag : byte;
  originalBytes : list byte   (* internal: used when serialising again *)
}.

(** Running a decoder and its error message. *)
Definition decoding {A : Type} (msg : string) (kind : A -> DescriptorContentOf)
    (m : Parser A) : Parser DescriptorContentOf :=
  let* d := wrapping msg m in ret (kind d).

(** The [switch d.Tag] of [parseDescriptors], and the user defined range
    before it; [offsetDescriptorEnd] is what the decoders that take an end
    offset are given. *)
Definition parseDescriptorContent (tag length : byte) (offsetDescriptorEnd : Z)
  : Parser DescriptorContentOf :=
  let t := u8 tag in
  if (0x80 <=? t) && (t <=? 0xfe) then
    let* content := nextBytes (u8 length) in ret (UserDefined content)
  else if t =? DescriptorTagAC3 then
    decoding "astits: parsing AC3 descriptor failed" AC3
             (newDescriptorAC3 offsetDescriptorEnd)
  else if t =? DescriptorTagAVCVideo then
    decoding "astits: parsing AVC Video descriptor failed" AVCVideo
             newDescriptorAVCVideo
  else if t =? DescriptorTagComponent then
    decoding "astits: parsing Component descriptor failed" Component
             (newDescriptorComponent offsetDescriptorEnd)
  else if t =? DescriptorTagContent then
    decoding "astits: parsing Content descriptor failed" Content
             (newDescriptorContent offsetDescriptorEnd)
  else if t =? DescriptorTagDataStreamAlignment then
    decoding "astits: parsing Data Stream Alignment descriptor failed" DataStreamAlignment
             newDescriptorDataStreamAlignment
  else if t =? DescriptorTagEnhancedAC3 then
    decoding "astits: parsing Enhanced AC3 descriptor failed" EnhancedAC3
             (newDescriptorEnhancedAC3 offsetDescriptorEnd)
  else if t =? DescriptorTagExtendedEvent then
    decoding "astits: parsing Extended event descriptor failed" ExtendedEvent
             newDescriptorExtendedEvent
  else if t =? DescriptorTagExtension then
    decoding "astits: parsing Extension descriptor failed" Extension
             (newDescriptorExtension offsetDescriptorEnd)
  else if t =? DescriptorTagISO639LanguageAndAudioType then
    decoding "astits: parsing ISO639 Language and Audio Type descriptor failed"
             ISO639LanguageAndAudioType
             (newDescriptorISO639LanguageAndAudioType offsetDescriptorEnd)
  else if t =? DescriptorTagLocalTimeOffset then
    decoding "astits: parsing Local Time Offset descriptor failed" LocalTimeOffset
             (newDescriptorLocalTimeOffset offsetDescriptorEnd)
  else if t =? DescriptorTagMaximumBitrate then
    decoding "astits: parsing Maximum Bitrate descriptor failed" MaximumBitrate
             newDescriptorMaximumBitrate
  else if t =? DescriptorTagNetworkName then
    decoding "astits: parsing Network Name descriptor failed" NetworkName
             (newDescriptorNetworkName offsetDescriptorEnd)
  else if t =? DescriptorTagParentalRating then
    decoding "astits: parsing Parental Rating descriptor failed" ParentalRating
             (newDescriptorParentalRating offsetDescriptorEnd)
  else if t =? DescriptorTagPrivateDataIndicator then
    decoding "astits: parsing Private Data Indicator descriptor failed" PrivateDataIndicator
             newDescriptorPrivateDataIndicator
  else if t =? DescriptorTagPrivateDataSpecifier then
    decoding "astits: parsing Private Data Specifier descriptor failed" PrivateDataSpecifier
             newDescriptorPrivateDataSpecifier
  else if t =? DescriptorTagRegistration then
    decoding "astits: parsing Registration descriptor failed" Registration
             (newDescriptorRegistration offsetDescriptorEnd)
  else if t =? DescriptorTagService then
    decoding "astits: parsing Service descriptor failed" Service
             newDescriptorService
  else if t =? DescriptorTagShortEvent then
    decoding "astits: parsing Short Event descriptor failed" ShortEvent
             newDescriptorShortEvent
  else if t =? DescriptorTagStreamIdentifier then
    decoding "astits: parsing Stream Identifier descriptor failed" StreamIdentifier
             newDescriptorStreamIdentifier
  else if t =? DescriptorTagSubtitling then
    decoding "astits: parsing Subtitling descriptor failed" Subtitling
             (newDescriptorSubtitling offsetDescriptorEnd)
  else if t =? DescriptorTagTeletext then
    decoding "astits: parsing Teletext descriptor failed" Teletext
             (newDescriptorTeletext offsetDescriptorEnd)
  else if t =? DescriptorTagVBIData then
    decoding "astits: parsing VBI Date descriptor failed" VBIData
             (newDescriptorVBIData offsetDescriptorEnd)
  else if t =? DescriptorTagVBITeletext then
    decoding "astits: parsing VBI Teletext descriptor failed" VBITeletext
             (newDescriptorTeletext offsetDescriptorEnd)
  else
    decoding "astits: parsing unknown descriptor failed" Unknown
             (newDescriptorUnknown tag length).

(** One turn of the loop of [parseDescriptors]: the descriptor at the
    cursor. *)
Definition parseDescriptor : Parser Descriptor :=
  let* bs := nextBytes 2 in
  let length := at8 bs 1 in
  let tag := at8 bs 0 in
  if 0 <? u8 length then
    let* o := Offset in
    let offsetDescriptorEnd := o + u8 length in
    let origOffset := o in
    let* origBytes := wrapping "astits: fetching original bytes failed"
                        (NextBytes (u8 length)) in
    let* _ := Seek origOffset in
    let* content := parseDescriptorContent tag length offsetDescriptorEnd in
    let* _ := Seek offsetDescriptorEnd in
    ret {| Decoded := Some content; Length := length; Tag := tag;
           originalBytes := origBytes |}
  else
    ret {| Decoded := None; Length := length; Tag := tag; originalBytes := [] |}.

(** The 12-bit length a descriptor loop starts with. *)
Definition loopLength (bs : list byte) : Z :=
  Z.lor (Z.shiftl (Z.land (u8 (at8 bs 0)) 0xf) 8) (u8 (at8 bs 1)).

Definition parseDescriptors : Parser (list Descriptor) :=
  let* bs := nextBytes 2 in
  let length := loopLength bs in
  if 0 <? length then
    let* o := Offset in
    let offsetEnd := o + length in
    forOffsetBelow offsetEnd (appending parseDescriptor) []
  else ret [].

(** [copy(dst, src)]: the leading bytes of [dst] become those of [src], as
    many as both have; the slice keeps its length. *)
Definition copy (dst src : list byte) : list byte :=
  take (length dst) src ++ drop (length src) dst.

(** A method that writes into a slice returns its result and the slice
    after the call. *)
Definition Writer (A : Type) : Type := list byte -> Res A * list byte.

Definition Descriptor_Serialise (d : Descriptor) : Writer Z := fun b =>
  if (len b <? 3) || (len b <? u8 (Length d) + 2) then (Err ErrNoRoomInBuffer, b)
  else
    let b := <[0%nat := Tag d]> b in
    let b := <[1%nat := Length d]> b in
    let b := take 2 b ++ copy (drop 2 b) (originalBytes d) in
    (Ok (wrap8 (u8 (Length d) + 2)), b).

(** The bytes the descriptors of a loop take up as the specification counts
    them: two for tag and length, and the length. *)
Definition descriptorsSpan (ds : list Descriptor) : Z :=
  fold_right (fun d n => 2 + u8 (Length d) + n) 0 ds.

(* ================================================================= *)
(** ** PSI data ([data_psi.go]) *)

(** [PATData] and [PATProgram], as [demuxer.go] and the tests use them. *)
Record PATProgram : Type := mkPATProgram {
  ProgramMapID : Z;     (* the PID of the program's PMT, or of the NIT *)
  ProgramNumber : Z
}.

Record PATData : Type := mkPATData {
  Programs : list PATProgram;
  TransportStreamID : Z
}.

(** The parsers and serialisers of the single tables, [data_eit.go],
    [data_nit.go], [data_pat.go], [data_pmt.go], [data_sdt.go] and
    [data_tot.go], are not among the sources: the section engine is
    embedded over any such family, with the arguments its call sites pass
    (the end offset of the table's data, the table identifier extension). *)
Class TableCodec : Type := {
  EITData : Type;
  NITData : Type;
  PMTData : Type;
  SDTData : Type;
  TOTData : Type;
  parseEITSection : Z -> Z -> Parser EITData;
  parseNITSection : Z -> Parser NITData;
  parsePATSection : Z -> Z -> Parser PATData;
  parsePMTSection : Z -> Z -> Parser PMTData;
  parseSDTSection : Z -> Z -> Parser SDTData;
  parseTOTSection : Parser TOTData;
  PATData_Serialise : PATData -> list byte -> Res Z * list byte;
  PMTData_Serialise : PMTData -> list byte -> Res Z * list byte
}.

Record PSISectionHeader : Type := mkPSISectionHeader {
  PrivateBit : bool;
  SectionLength : Z;
  SectionSyntaxIndicator : bool;
  TableID : Z;
  TableType : string
}.

Record PSISectionSyntaxHeader : Type := mkPSISectionSyntaxHeader {
  CurrentNextIndicator : bool;
  LastSectionNumber : Z;
  SectionNumber : Z;
  TableIDExtension : Z;
  VersionNumber : Z
}.

Section PSI.
Context {codec : TableCodec}.

Record PSISectionSyntaxData : Type := mkPSISectionSyntaxData {
  EIT : option EITData;
  NIT : option NITData;
  PAT : option PATData;
  PMT : option PMTData;
  SDT : option SDTData;
  TOT : option TOTData
}.

Record PSISectionSyntax : Type := mkPSISectionSyntax {
  SyntaxData : option PSISectionSyntaxData;      (* the field [Data] *)
  SyntaxHeader : option PSISectionSyntaxHeader   (* the field [Header] *)
}.

Record PSISection : Type := mkPSISection {
  CRC32 : Z;
  Header : option PSISectionHeader;
  Syntax : option PSISectionSyntax
}.

Record PSIData : Type := mkPSIData {
  PointerField : Z;
  Sections : list PSISection
}.

(** A value of the result type inside a parser. *)
Definition lift {A : Type} (r : Res A) : Parser A := fun _ o =>
  match r with
  | Ok a => Ok (a, o)
  | Err e => Err e
  | Abn x => Abn x
  end.

Definition failWith {A : Type} (e : error) : Parser A := fun _ _ => Err e.

(** The header and the four offsets [parsePSISectionHeader] returns:
    [offsetStart], [offsetSectionsStart], [offsetSectionsEnd], [offsetEnd].
    When the table type stops the parsing nothing beyond the table
    identifier is read, and the offsets other than the first keep their
    zero value. *)
Definition parsePSISectionHeader : Parser (PSISectionHeader * Z * Z * Z * Z) :=
  let* offsetStart := Offset in
  let* b := nextByte in
  let tableID := u8 b in
  let tableType := psiTableType tableID in
  if shouldStopPSIParsing tableType then
    ret ({| PrivateBit := false; SectionLength := 0; SectionSyntaxIndicator := false;
            TableID := tableID; TableType := tableType |},
         offsetStart, 0, 0, 0)
  else
    let* bs := nextBytes 2 in
    let sectionLength := Z.lor (Z.shiftl (Z.land (u8 (at8 bs 0)) 0xf) 8) (u8 (at8 bs 1)) in
    let* offsetSectionsStart := Offset in
    let offsetEnd := offsetSectionsStart + sectionLength in
    let offsetSectionsEnd := if hasCRC32 tableType then offsetEnd - 4 else offsetEnd in
    ret ({| PrivateBit := bitSet (at8 bs 0) 0x40;
            SectionLength := sectionLength;
            SectionSyntaxIndicator := bitSet (at8 bs 0) 0x80;
            TableID := tableID; TableType := tableType |},
         offsetStart, offsetSectionsStart, offsetSectionsEnd, offsetEnd).

Definition parsePSISectionSyntaxHeader : Parser PSISectionSyntaxHeader :=
  let* bs := nextBytes 2 in
  let* b := nextByte in
  let* number := nextByte in
  let* last := nextByte in
  ret {| CurrentNextIndicator := bitSet b 0x1;
         LastSectionNumber := u8 last;
         SectionNumber := u8 number;
         TableIDExtension := be16 (at8 bs 0) (at8 bs 1);
         VersionNumber := Z.shiftr (Z.land (u8 b) 0x3f) 1 |}.

Definition noSyntaxData : PSISectionSyntaxData :=
  {| EIT := None; NIT := None; PAT := None; PMT := None; SDT := None; TOT := None |}.

(** [sh.TableIDExtension], where [sh] may be nil. *)
Definition tableIDExtensionOf (sh : option PSISectionSyntaxHeader) : Parser Z :=
  match sh with
  | Some h => ret (TableIDExtension h)
  | None => panic
  end.

(** The [switch h.TableType] of [parsePSISectionSyntaxData]; the tables
    the code leaves as TODO, and every other table type, give the empty
    record. *)
Definition parsePSISectionSyntaxData (h : PSISectionHeader)
    (sh : option PSISectionSyntaxHeader) (offsetSectionsEnd : Z)
  : Parser PSISectionSyntaxData :=
  let t := TableType h in
  if String.eqb t PSITableTypeEIT then
    let* ext := tableIDExtensionOf sh in
    let* d := wrapping "astits: parsing EIT section failed"
                (parseEITSection offsetSectionsEnd ext) in
    ret {| EIT := Some d; NIT := None; PAT := None; PMT := None; SDT := None; TOT := None |}
  else if String.eqb t PSITableTypeNIT then
    let* ext := tableIDExtensionOf sh in
    let* d := wrapping "astits: parsing NIT section failed" (parseNITSection ext) in
    ret {| EIT := None; NIT := Some d; PAT := None; PMT := None; SDT := None; TOT := None |}
  else if String.eqb t PSITableTypePAT then
    let* ext := tableIDExtensionOf sh in
    let* d := wrapping "astits: parsing PAT section failed"
                (parsePATSection offsetSectionsEnd ext) in
    ret {| EIT := None; NIT := None; PAT := Some d; PMT := None; SDT := None; TOT := None |}
  else if String.eqb t PSITableTypePMT then
    let* ext := tableIDExtensionOf sh in
    let* d := wrapping "astits: parsing PMT section failed"
                (parsePMTSection offsetSectionsEnd ext) in
    ret {| EIT := None; NIT := None; PAT := None; PMT := Some d; SDT := None; TOT := None |}
  else if String.eqb t PSITableTypeSDT then
    let* ext := tableIDExtensionOf sh in
    let* d := wrapping "astits: parsing PMT section failed"
                (parseSDTSection offsetSectionsEnd ext) in
    ret {| EIT := None; NIT := None; PAT := None; PMT := None; SDT := Some d; TOT := None |}
  else if String.eqb t PSITableTypeTOT then
    let* d := wrapping "astits: parsing TOT section failed" parseTOTSection in
    ret {| EIT := None; NIT := None; PAT := None; PMT := None; SDT := None; TOT := Some d |}
  else ret noSyntaxData.

Definition parsePSISectionSyntax (h : PSISectionHeader) (offsetSectionsEnd : Z)
  : Parser PSISectionSyntax :=
  let* sh := (if hasPSISyntaxHeader (TableType h) then
                let* x := wrapping "astits: parsing PSI section syntax header failed"
                            parsePSISectionSyntaxHeader in
                ret (Some x)
              else ret None) in
  let* d := wrapping "astits: parsing PSI section syntax data failed"
              (parsePSISectionSyntaxData h sh offsetSectionsEnd) in
  ret {| SyntaxData := Some d; SyntaxHeader := sh |}.

Definition parseCRC32 : Parser Z :=
  let* bs := nextBytes 4 in
  ret (be32 (at8 bs 0) (at8 bs 1) (at8 bs 2) (at8 bs 3)).

(** The CRC32 of [parsePSISection]: the stored value is read at
    [offsetSectionsEnd], the computed one is taken over the bytes from
    [offsetStart] up to there. *)
Definition checkCRC32 (offsetStart offsetSectionsEnd : Z) : Parser Z :=
  let* _ := Seek offsetSectionsEnd in
  let* stored := wrapping "astits: parsing CRC32 failed" parseCRC32 in
  let* _ := Seek offsetStart in
  let* crc32Data := nextBytes (offsetSectionsEnd - offsetStart) in
  let* crc32 := wrapping "astits: computing CRC32 failed" (lift (computeCRC32 crc32Data)) in
  if negb (crc32 =? stored) then failWith (ErrCRC32 stored crc32)
  else ret stored.

(** The section at the cursor and the [stop] flag. *)
Definition parsePSISection : Parser (PSISection * bool) :=
  let* '(h, offsetStart, _, offsetSectionsEnd, offsetEnd) :=
    wrapping "astits: parsing PSI section header failed" parsePSISectionHeader in
  if shouldStopPSIParsing (TableType h) then
    ret ({| CRC32 := 0; Header := Some h; Syntax := None |}, true)
  else
    let* '(syntax, crc) :=
      (if 0 <? SectionLength h then
         let* syntax := wrapping "astits: parsing PSI section syntax failed"
                          (parsePSISectionSyntax h offsetSectionsEnd) in
         if hasCRC32 (TableType h) then
           let* stored := checkCRC32 offsetStart offsetSectionsEnd in
           ret (Some syntax, stored)
         else ret (Some syntax, 0)
       else ret (None, 0)) in
    let* _ := Seek offsetEnd in
    ret ({| CRC32 := crc; Header := Some h; Syntax := syntax |}, false).

(** The loop of [parsePSIData], [for i.HasBytesLeft() && !stop], on the
    sections gathered so far.  A section that is parsed is appended, the
    one that stops the parsing too; an error ends the function at once.
    The function also hands its caller the data gathered before an error,
    which no caller looks at; the result here is the error alone. *)
Fixpoint parsePSISections (fuel : nat) (sections : list PSISection)
    (buf : list byte) (o : Z) : Res (list PSISection * Z) :=
  if o <? len buf then
    match fuel with
    | O => Abn Diverges
    | S fuel' =>
        match wrapping "astits: parsing PSI table failed" parsePSISection buf o with
        | Ok ((s, stop), o') =>
            if stop then Ok (sections ++ [s], o')
            else parsePSISections fuel' (sections ++ [s]) buf o'
        | Err e => Err e
        | Abn x => Abn x
        end
    end
  else Ok (sections, o).

Definition parsePSIData : Parser PSIData :=
  let* b := nextByte in
  let pointerField := u8 b in
  let* _ := Skip pointerField in
  let* sections := (fun buf o => parsePSISections (Z.to_nat (len buf - o)) [] buf o) in
  ret {| PointerField := pointerField; Sections := sections |}.

End PSI.

(* ----------------------------------------------------------------- *)
(** *** Serialisation *)

Definition wret {A : Type} (a : A) : Writer A := fun b => (Ok a, b).

Definition wbind {A B : Type} (m : Writer A) (k : A -> Writer B) : Writer B :=
  fun b =>
    match m b with
    | (Ok a, b') => k a b'
    | (Err e, b') => (Err e, b')
    | (Abn x, b') => (Abn x, b')
    end.

Notation "'let+' x := m 'in' k" := (wbind m (fun x => k))
  (at level 10, x name, m at level 100, k at level 200).

Definition wfail {A : Type} (e : error) : Writer A := fun b => (Err e, b).
Definition wpanic {A : Type} : Writer A := fun b => (Abn Panics, b).

(** [b[k] = v]: a panic when the index is out of range. *)
Definition store (k : Z) (v : byte) : Writer unit := fun b =>
  if (0 <=? k) && (k <? len b) then (Ok tt, <[Z.to_nat k := v]> b)
  else (Abn Panics, b).

(** A call [w(b[idx:])]: the callee writes through the slice into the
    bytes of [b] from [idx] on.  The slice expression panics when [idx] is
    not between 0 and [len(b)]. *)
Definition within (idx : Z) {A : Type} (w : Writer A) : Writer A := fun b =>
  if (0 <=? idx) && (idx <=? len b) then
    let '(r, sub) := w (drop (Z.to_nat idx) b) in
    (r, take (Z.to_nat idx) b ++ sub)
  else (Abn Panics, b).

Definition Btou8 (b : bool) : Z := if b then 1 else 0.

Definition U16toU8s (a : Z) : byte * byte :=
  (mk8 (Z.land 0xff (Z.shiftr a 8)), mk8 (Z.land 0xff a)).

Definition ErrPointerFieldMuxing : error :=
  ErrNew "Error pointer field muxing unimplemented".

Section PSISerialise.
Context {codec : TableCodec}.

Definition PSISectionHeader_Serialise (h : PSISectionHeader) : Writer Z := fun b =>
  if TableID h =? 255 then (Ok 0, b)
  else if len b <? 3 then (Err ErrNoRoomInBuffer, b)
  else
    (let+ _ := store 0 (mk8 (TableID h)) in
     let+ _ := store 1 (mk8 (Z.lor (Z.lor (Z.lor
                               (wrap8 (Z.shiftl (Btou8 (SectionSyntaxIndicator h)) 7))
                               (wrap8 (Z.shiftl (Btou8 (PrivateBit h)) 6)))
                               (Z.shiftl 3 4))
                               (Z.land 0xf (Z.shiftr (SectionLength h) 8)))) in
     let+ _ := store 2 (mk8 (Z.land 0xff (SectionLength h))) in
     wret 3) b.

Definition PSISectionSyntaxHeader_Serialise (sh : PSISectionSyntaxHeader) : Writer Z :=
  fun b =>
  if len b <? 5 then (Err ErrNoRoomInBuffer, b)
  else
    (let reservedBits := Z.shiftl 3 6 in
     let+ _ := store 0 (fst (U16toU8s (TableIDExtension sh))) in
     let+ _ := store 1 (snd (U16toU8s (TableIDExtension sh))) in
     let+ _ := store 2 (mk8 (Z.lor (Z.lor
                               (wrap8 (Z.shiftl (Z.land 0x1f (VersionNumber sh)) 1))
                               (Btou8 (CurrentNextIndicator sh)))
                               reservedBits)) in
     let+ _ := store 3 (mk8 (SectionNumber sh)) in
     let+ _ := store 4 (mk8 (LastSectionNumber sh)) in
     wret 5) b.

Definition PSISectionSyntaxData_Serialise (sd : PSISectionSyntaxData) : Writer Z :=
  match PAT sd with
  | Some pat => PATData_Serialise pat
  | None =>
      match PMT sd with
      | Some pmt => PMTData_Serialise pmt
      | None => wret 0
      end
  end.

Definition PSISectionSyntax_Serialise (s : PSISectionSyntax) : Writer Z := fun b =>
  if len b =? 0 then (Err ErrNoRoomInBuffer, b)
  else
    (let idx := 0 in
     let+ idx := match SyntaxHeader s with
                 | Some sh =>
                     let+ n := within idx (PSISectionSyntaxHeader_Serialise sh) in
                     wret (idx + n)
                 | None => wret idx
                 end in
     let+ idx := match SyntaxData s with
                 | Some sd =>
                     let+ n := within idx (PSISectionSyntaxData_Serialise sd) in
                     wret (idx + n)
                 | None => wret idx
                 end in
     wret idx) b.

(** The CRC32 [PSISection.Serialise] appends: computed over the [idx]
    bytes written so far and stored, most significant byte first, in the
    four bytes that follow them. *)
Definition appendCRC32 (idx : Z) : Writer Z := fun b =>
  match wrapErr "astits: fetching next bytes failed" (NextBytes idx b 0) with
  | Ok (crc32Data, _) =>
      match wrapErr "astits: computing CRC32 failed" (computeCRC32 crc32Data) with
      | Ok crc32 =>
          (let+ _ := store idx (mk8 (Z.shiftr crc32 24)) in
           let+ _ := store (idx + 1) (mk8 (Z.shiftr crc32 16)) in
           let+ _ := store (idx + 2) (mk8 (Z.shiftr crc32 8)) in
           let+ _ := store (idx + 3) (mk8 crc32) in
           wret (idx + 4)) b
      | Err e => (Err e, b)
      | Abn x => (Abn x, b)
      end
  | Err e => (Err e, b)
  | Abn x => (Abn x, b)
  end.

(** [PSISection.Serialise].  The method also stores the section length it
    has computed in [s.Header.SectionLength] before it writes the header;
    the header written here is the one with that length, and the section
    itself is not returned, no code reading the stored length again. *)
Definition PSISection_Serialise (s : PSISection) : Writer Z :=
  match Header s with
  | None => wpanic
  | Some h => fun b =>
      if TableID h =? 255 then (Ok 0, b)
      else if len b <=? 3 then (Err ErrNoRoomInBuffer, b)
      else
        (let idx := 3 in
         let+ idx := match Syntax s with
                     | Some syntax =>
                         let+ n := within idx (PSISectionSyntax_Serialise syntax) in
                         wret (idx + n)
                     | None => wret idx
                     end in
         let h' := {| PrivateBit := PrivateBit h;
                      SectionLength := wrap16 (idx + 4 - 3);
                      SectionSyntaxIndicator := SectionSyntaxIndicator h;
                      TableID := TableID h;
                      TableType := TableType h |} in
         let+ _ := within 0 (PSISectionHeader_Serialise h') in
         if hasCRC32 (TableType h') then appendCRC32 idx else wret idx) b
  end.

(** The loop of [PSIData.Serialise] over the sections, from index [idx]. *)
Fixpoint serialiseSections (sections : list PSISection) (idx : Z) : Writer Z :=
  match sections with
  | [] => wret idx
  | s :: rest =>
      let+ n := within idx (PSISection_Serialise s) in
      serialiseSections rest (idx + n)
  end.

(** [for ; idx < len(b); idx++ { b[idx] = 0xff }], and the index after. *)
Definition stuff (idx : Z) : Writer Z := fun b =>
  if idx <? len b then
    if idx <? 0 then (Abn Panics, b)
    else (Ok (len b), take (Z.to_nat idx) b ++ replicate (Z.to_nat (len b - idx)) xff)
  else (Ok idx, b).

Definition PSIData_Serialise (d : PSIData) : Writer Z := fun b =>
  if len b <=? 1 then (Err ErrNoRoomInBuffer, b)
  else if negb (PointerField d =? 0) then (Err ErrPointerFieldMuxing, b)
  else
    (let+ _ := store 0 (mk8 (PointerField d)) in
     let+ idx := serialiseSections (Sections d) 1 in
     stuff idx) b.

(** What the sections of a list write when they are serialised one after
    the other into [b] from index [idx], each of them without error: the
    bytes of each section in turn ([chunks]), the buffer after the last one
    and the index reached. *)
Inductive serialised : list PSISection -> list byte -> Z ->
                       list (list byte) -> list byte -> Z -> Prop :=
| serialised_nil (b : list byte) (idx : Z) :
    serialised [] b idx [] b idx
| serialised_cons (s : PSISection) (rest : list PSISection) (b : list byte) (idx : Z)
      (n : Z) (sub : list byte) (chunks : list (list byte)) (b' : list byte) (idx' : Z) :
    PSISection_Serialise s (drop (Z.to_nat idx) b) = (Ok n, sub) ->
    serialised rest (take (Z.to_nat idx) b ++ sub) (idx + n) chunks b' idx' ->
    serialised (s :: rest) b idx (take (Z.to_nat n) sub :: chunks) b' idx'.

(** What the section engine needs of the serialisers of the tables: one
    that succeeds reports a count of bytes within the slice it was given,
    and leaves the slice its length (it cannot do otherwise in Go). *)
Definition writesWithin (w : Writer Z) : Prop :=
  forall b n b', w b = (Ok n, b') -> 0 <= n <= len b /\ length b' = length b.

(** A writer that succeeds leaves the slice its length. *)
Definition keepsLength {A : Type} (w : Writer A) : Prop :=
  forall b a b', w b = (Ok a, b') -> length b' = length b.

Class CodecWrites : Prop := {
  PATData_writes : forall d, writesWithin (PATData_Serialise d);
  PMTData_writes : forall d, writesWithin (PMTData_Serialise d)
}.

End PSISerialise.

(* ================================================================= *)
(** ** Packets and the program map *)

(** [PacketHeader] and [Packet], with the fields the tests show; the
    adaptation field of a packet plays no part here and is left out. *)
Record PacketHeader : Type := mkPacketHeader {
  ContinuityCounter : Z;
  HasAdaptationField : bool;
  HasPayload : bool;
  PayloadUnitStartIndicator : bool;
  PID : Z;
  TransportErrorIndicator : bool;
  TransportPriority : bool;
  TransportScramblingControl : Z
}.

Record Packet : Type := mkPacket {
  PacketHeaderOf : PacketHeader;   (* the field [Header] *)
  Payload : list byte
}.

(** Modelled from the spec: the [ProgramMap] of program_map.go, which is
    not among the sources.  "A ProgramMap side-table (PID -> program
    number) learned from PAT": a finite map, [Set] an insertion. *)
Abbreviation ProgramMap := (gmap Z Z).

Definition NewProgramMap : ProgramMap := ∅.

Definition ProgramMap_Set (m : ProgramMap) (pid number : Z) : ProgramMap :=
  <[pid := number]> m.

Definition ProgramMap_Exists (m : ProgramMap) (pid : Z) : bool :=
  match m !! pid with Some _ => true | None => false end.

(* ================================================================= *)
(** ** The demuxer ([demuxer.go]) *)

Section DemuxerData.
Context {codec : TableCodec}.

(** The PES data of a data unit is parsed by data_pes.go, which is not
    among the sources: its type is a parameter. *)
Record Data {PESData : Type} : Type := mkData {
  Data_EIT : option EITData;
  FirstPacket : option Packet;
  Data_NIT : option NITData;
  Data_PAT : option PATData;
  Data_PES : option PESData;
  Data_PID : Z;
  Data_PMT : option PMTData;
  Data_SDT : option SDTData;
  Data_TOT : option TOTData
}.
Arguments Data PESData : clear implicits.

(** [s.Syntax.Data.X] on a section: a nil pointer on the way panics. *)
Definition syntaxDataOf (s : PSISection) : Res PSISectionSyntaxData :=
  match Syntax s with
  | Some syntax =>
      match SyntaxData syntax with
      | Some d => Ok d
      | None => Abn Panics
      end
  | None => Abn Panics
  end.

(** One turn of the loop of [toData]: the data unit of a section, if its
    table type is one of the six the [switch] names. *)
Definition sectionToData {PESData : Type} (firstPacket : option Packet) (pid : Z)
    (s : PSISection) : Res (list (Data PESData)) :=
  match Header s with
  | None => Abn Panics
  | Some h =>
      let t := TableType h in
      let unit (eit : option EITData) (nit : option NITData) (pat : option PATData)
               (pmt : option PMTData) (sdt : option SDTData) (tot : option TOTData) :=
        {| Data_EIT := eit; FirstPacket := firstPacket; Data_NIT := nit;
           Data_PAT := pat; Data_PES := None; Data_PID := pid; Data_PMT := pmt;
           Data_SDT := sdt; Data_TOT := tot |} in
      if String.eqb t PSITableTypeEIT then
        match syntaxDataOf s with
        | Ok d => Ok [unit (EIT d) None None None None None]
        | Err e => Err e | Abn x => Abn x
        end
      else if String.eqb t PSITableTypeNIT then
        match syntaxDataOf s with
        | Ok d => Ok [unit None (NIT d) None None None None]
        | Err e => Err e | Abn x => Abn x
        end
      else if String.eqb t PSITableTypePAT then
        match syntaxDataOf s with
        | Ok d => Ok [unit None None (PAT d) None None None]
        | Err e => Err e | Abn x => Abn x
        end
      else if String.eqb t PSITableTypePMT then
        match syntaxDataOf s with
        | Ok d => Ok [unit None None None (PMT d) None None]
        | Err e => Err e | Abn x => Abn x
        end
      else if String.eqb t PSITableTypeSDT then
        match syntaxDataOf s with
        | Ok d => Ok [unit None None None None (SDT d) None]
        | Err e => Err e | Abn x => Abn x
        end
      else if String.eqb t PSITableTypeTOT then
        match syntaxDataOf s with
        | Ok d => Ok [unit None None None None None (TOT d)]
        | Err e => Err e | Abn x => Abn x
        end
      else Ok []
  end.

Fixpoint toDataFrom {PESData : Type} (firstPacket : option Packet) (pid : Z)
    (sections : list PSISection) (ds : list (Data PESData)) : Res (list (Data PESData)) :=
  match sections with
  | [] => Ok ds
  | s :: rest =>
      match sectionToData firstPacket pid s with
      | Ok new => toDataFrom firstPacket pid rest (ds ++ new)
      | Err e => Err e
      | Abn x => Abn x
      end
  end.

Definition toData {PESData : Type} (d : PSIData) (firstPacket : option Packet) (pid : Z)
  : Res (list (Data PESData)) :=
  toDataFrom firstPacket pid (Sections d) [].

End DemuxerData.
Arguments Data {codec} PESData.

(** What the demuxer works with and the sources do not hold: the context
    it is given, the reader and the packet buffer over it
    (packet_buffer.go), the packet pool (packet_pool.go), the PES data
    (data_pes.go) and [ParseData] (data.go).  The context and the reader
    live outside the demuxer; their state is threaded through the calls
    that consult them. *)
Class DemuxerEnv {codec : TableCodec} : Type := {
  PESData : Type;
  Ctx : Type;
  Reader : Type;
  PacketBuffer : Type;
  PacketPool : Type;
  ctx_Err : Ctx -> option error * Ctx;
  newPacketBuffer : Reader -> Z -> Res PacketBuffer * Reader;
  packetBuffer_next : PacketBuffer -> Res Packet * PacketBuffer;
  NewPacketPool : PacketPool;
  packetPool_Add : PacketPool -> Packet -> list Packet * PacketPool;
  packetPool_dump : PacketPool -> list Packet * PacketPool;
  ParseData : list Packet ->
              option (list Packet -> Res (list (Data PESData) * bool)) ->
              ProgramMap -> Res (list (Data PESData))
}.

Section Demux.
Context {codec : TableCodec} {env : DemuxerEnv}.

(** [type PacketsParser func(ps []*Packet) (ds []*Data, skip bool, err error)]. *)
Definition PacketsParser : Type := list Packet -> Res (list (Data PESData) * bool).

Record Demuxer : Type := mkDemuxer {
  ctx : Ctx;
  dataBuffer : list (Data PESData);
  optPacketSize : Z;
  optPacketsParser : option PacketsParser;
  packetBuffer : option PacketBuffer;
  packetPool : PacketPool;
  programMap : ProgramMap;
  r : Reader
}.

(** [New], before the options are applied. *)
Definition New (c : Ctx) (reader : Reader) : Demuxer :=
  {| ctx := c; dataBuffer := []; optPacketSize := 0; optPacketsParser := None;
     packetBuffer := None; packetPool := NewPacketPool;
     programMap := NewProgramMap; r := reader |}.

Definition setCtx (dmx : Demuxer) (c : Ctx) : Demuxer :=
  {| ctx := c; dataBuffer := dataBuffer dmx; optPacketSize := optPacketSize dmx;
     optPacketsParser := optPacketsParser dmx; packetBuffer := packetBuffer dmx;
     packetPool := packetPool dmx; programMap := programMap dmx; r := r dmx |}.

Definition setDataBuffer (dmx : Demuxer) (b : list (Data PESData)) : Demuxer :=
  {| ctx := ctx dmx; dataBuffer := b; optPacketSize := optPacketSize dmx;
     optPacketsParser := optPacketsParser dmx; packetBuffer := packetBuffer dmx;
     packetPool := packetPool dmx; programMap := programMap dmx; r := r dmx |}.

Definition setPacketBuffer (dmx : Demuxer) (pb : option PacketBuffer) (reader : Reader)
  : Demuxer :=
  {| ctx := ctx dmx; dataBuffer := dataBuffer dmx; optPacketSize := optPacketSize dmx;
     optPacketsParser := optPacketsParser dmx; packetBuffer := pb;
     packetPool := packetPool dmx; programMap := programMap dmx; r := reader |}.

Definition setPacketPool (dmx : Demuxer) (pool : PacketPool) : Demuxer :=
  {| ctx := ctx dmx; dataBuffer := dataBuffer dmx; optPacketSize := optPacketSize dmx;
     optPacketsParser := optPacketsParser dmx; packetBuffer := packetBuffer dmx;
     packetPool := pool; programMap := programMap dmx; r := r dmx |}.

Definition setProgramMap (dmx : Demuxer) (m : ProgramMap) : Demuxer :=
  {| ctx := ctx dmx; dataBuffer := dataBuffer dmx; optPacketSize := optPacketSize dmx;
     optPacketsParser := optPacketsParser dmx; packetBuffer := packetBuffer dmx;
     packetPool := packetPool dmx; programMap := m; r := r dmx |}.

Definition isErrNoMorePackets (e : error) : bool :=
  match e with ErrNoMorePackets => true | _ => false end.

Definition NextPacket (dmx : Demuxer) : Res Packet * Demuxer :=
  let '(e, c) := ctx_Err (ctx dmx) in
  let dmx := setCtx dmx c in
  match e with
  | Some err => (Err err, dmx)
  | None =>
      let '(created, dmx) :=
        match packetBuffer dmx with
        | Some pb => (Ok pb, dmx)
        | None =>
            let '(res, reader) := newPacketBuffer (r dmx) (optPacketSize dmx) in
            match res with
            | Ok pb => (Ok pb, setPacketBuffer dmx (Some pb) reader)
            | Err err =>
                (Err (ErrWrap "astits: creating packet buffer failed" err),
                 setPacketBuffer dmx None reader)
            | Abn x => (Abn x, setPacketBuffer dmx None reader)
            end
        end in
      match created with
      | Ok pb =>
          let '(res, pb') := packetBuffer_next pb in
          let dmx := setPacketBuffer dmx (Some pb') (r dmx) in
          match res with
          | Ok p => (Ok p, dmx)
          | Err err =>
              if isErrNoMorePackets err then (Err err, dmx)
              else (Err (ErrWrap "astits: fetching next packet from buffer failed" err), dmx)
          | Abn x => (Abn x, dmx)
          end
      | Err err => (Err err, dmx)
      | Abn x => (Abn x, dmx)
      end
  end.

(** The body of the inner loop of [updateData]: program number 0 is
    reserved to the NIT. *)
Definition learn (m : ProgramMap) (pgm : PATProgram) : ProgramMap :=
  if 0 <? ProgramNumber pgm
  then ProgramMap_Set m (ProgramMapID pgm) (ProgramNumber pgm)
  else m.

(** The program map after the PAT of one data unit, if it has one. *)
Definition learnPrograms (m : ProgramMap) (v : Data PESData) : ProgramMap :=
  match Data_PAT v with
  | Some pat => fold_left learn (Programs pat) m
  | None => m
  end.

Definition updateData (dmx : Demuxer) (ds : list (Data PESData))
  : option (Data PESData) * Demuxer :=
  match ds with
  | [] => (None, dmx)
  | d :: rest =>
      let dmx := setDataBuffer dmx (dataBuffer dmx ++ rest) in
      (Some d, setProgramMap dmx (fold_left learnPrograms ds (programMap dmx)))
  end.

(** What a call of [NextData] comes to: the pair it returns and the
    demuxer after it; or no return, [ParseData] or the packet source having
    panicked or hung; or the bound put on the turns of its loops reached
    ([NextData] reads on while packets come and no data unit is complete,
    which a stream without end can keep up for ever). *)
Inductive Returned : Type :=
| Returns (d : option (Data PESData)) (err : option error) (dmx : Demuxer)
| Aborts (x : abnormal)
| OutOfFuel.

(** The loop that empties the packet pool at the end of the stream; [err]
    is the variable of that name, as the last call that set it left it. *)
Fixpoint dumpLoop (fuel : nat) (dmx : Demuxer) (err : option error) : Returned :=
  match fuel with
  | O => OutOfFuel
  | S fuel' =>
      let '(ps, pool) := packetPool_dump (packetPool dmx) in
      let dmx := setPacketPool dmx pool in
      match ps with
      | [] => Returns None err dmx
      | _ =>
          match ParseData ps (optPacketsParser dmx) (programMap dmx) with
          | Err e => dumpLoop fuel' dmx (Some e)
          | Abn x => Aborts x
          | Ok ds =>
              match updateData dmx ds with
              | (Some d, dmx') => Returns (Some d) None dmx'
              | (None, dmx') => dumpLoop fuel' dmx' None
              end
          end
      end
  end.

(** The loop over the packets. *)
Fixpoint packetLoop (fuel : nat) (dmx : Demuxer) : Returned :=
  match fuel with
  | O => OutOfFuel
  | S fuel' =>
      match NextPacket dmx with
      | (Err err, dmx) =>
          if isErrNoMorePackets err then dumpLoop fuel' dmx (Some err)
          else Returns None (Some (ErrWrap "astits: fetching next packet failed" err)) dmx
      | (Abn x, _) => Aborts x
      | (Ok p, dmx) =>
          let '(ps, pool) := packetPool_Add (packetPool dmx) p in
          let dmx := setPacketPool dmx pool in
          match ps with
          | [] => packetLoop fuel' dmx
          | _ =>
              match ParseData ps (optPacketsParser dmx) (programMap dmx) with
              | Err e =>
                  Returns None (Some (ErrWrap "astits: building new data failed" e)) dmx
              | Abn x => Aborts x
              | Ok ds =>
                  match updateData dmx ds with
                  | (Some d, dmx') => Returns (Some d) None dmx'
                  | (None, dmx') => packetLoop fuel' dmx'
                  end
              end
          end
      end
  end.

Definition NextData (fuel : nat) (dmx : Demuxer) : Returned :=
  match dataBuffer dmx with
  | d :: rest => Returns (Some d) None (setDataBuffer dmx rest)
  | [] => packetLoop fuel dmx
  end.

(** [n] calls of [NextData] in a row: what each returned, in order, and the
    demuxer after the last. *)
Fixpoint NextDataTimes (fuel : nat) (n : nat) (dmx : Demuxer)
  : option (list (option (Data PESData) * option error) * Demuxer) :=
  match n with
  | O => Some ([], dmx)
  | S n' =>
      match NextData fuel dmx with
      | Returns d err dmx' =>
          match NextDataTimes fuel n' dmx' with
          | Some (l, dmx'') => Some ((d, err) :: l, dmx'')
          | None => None
          end
      | _ => None
      end
  end.

(** [reads dmx k dmx']: from [dmx], [NextData]'s loop over the packets takes
    [k] packets one after the other without a data unit coming of any: the
    pool keeps the packet, or the group it completes holds no data. *)
Inductive reads : Demuxer -> nat -> Demuxer -> Prop :=
| reads_none (dmx : Demuxer) : reads dmx 0 dmx
| reads_kept (dmx dmx1 dmx' : Demuxer) (p : Packet) (pool : PacketPool) (k : nat) :
    NextPacket dmx = (Ok p, dmx1) ->
    packetPool_Add (packetPool dmx1) p = ([], pool) ->
    reads (setPacketPool dmx1 pool) k dmx' ->
    reads dmx (S k) dmx'
| reads_empty (dmx dmx1 dmx' : Demuxer) (p : Packet) (ps : list Packet)
      (pool : PacketPool) (k : nat) :
    NextPacket dmx = (Ok p, dmx1) ->
    packetPool_Add (packetPool dmx1) p = (ps, pool) ->
    ps <> [] ->
    ParseData ps (optPacketsParser dmx1) (programMap dmx1) = Ok [] ->
    reads (setPacketPool dmx1 pool) k dmx' ->
    reads dmx (S k) dmx'.

(** [completes dmx ps dmx']: the next packet of [dmx] makes the pool hand
    out the group [ps]; [dmx'] is the demuxer with the packet consumed. *)
Definition completes (dmx : Demuxer) (ps : list Packet) (dmx' : Demuxer) : Prop :=
  exists p dmx1 pool,
    NextPacket dmx = (Ok p, dmx1) /\
    packetPool_Add (packetPool dmx1) p = (ps, pool) /\
    ps <> [] /\
    dmx' = setPacketPool dmx1 pool.

(** [flushes dmx ps dmx']: the stream of [dmx] is at its end, and the first
    group the packet pool gives up is [ps]. *)
Definition flushes (dmx : Demuxer) (ps : list Packet) (dmx' : Demuxer) : Prop :=
  exists dmx1 pool,
    NextPacket dmx = (Err ErrNoMorePackets, dmx1) /\
    packetPool_dump (packetPool dmx1) = (ps, pool) /\
    ps <> [] /\
    dmx' = setPacketPool dmx1 pool.

End Demux.

(* ================================================================= *)
(** ** A reference instance

    The parts the section engine and the demuxer are embedded over, filled
    in from the specification as far as it describes them, for the
    concrete runs below: the PAT parser and serialiser, the packet pool,
    the classification of packet groups, and a packet source that is the
    list of the packets still to come. *)

(** Modelled from the spec: [parsePATSection] of data_pat.go, which is not
    among the sources.  "PAT body: transport-stream-ID (syntax header),
    then N program entries of 4 bytes each: 16-bit program number, 3
    reserved bits, 13-bit PID"; "PAT: loop 4-byte program entries"; the
    loop runs up to [offset_sections_end]. *)
Definition ref_parsePATProgram : Parser PATProgram :=
  let* bs := nextBytes 4 in
  ret {| ProgramMapID := Z.lor (Z.shiftl (Z.land (u8 (at8 bs 2)) 0x1f) 8) (u8 (at8 bs 3));
         ProgramNumber := be16 (at8 bs 0) (at8 bs 1) |}.

Definition ref_parsePATSection (offsetSectionsEnd tableIDExtension : Z) : Parser PATData :=
  let* programs := forOffsetBelow offsetSectionsEnd (appending ref_parsePATProgram) [] in
  ret {| Programs := programs; TransportStreamID := tableIDExtension |}.

(** Modelled from the spec: [PATData.Serialise] of data_pat.go, which is
    not among the sources.  The program entries as the parser reads them,
    four bytes each, the three reserved bits written as ones; an error
    when the buffer is too short for them. *)
Definition ref_PATProgramBytes (pgm : PATProgram) : list byte :=
  [ fst (U16toU8s (ProgramNumber pgm)); snd (U16toU8s (ProgramNumber pgm));
    mk8 (Z.lor 0xe0 (Z.land 0x1f (Z.shiftr (ProgramMapID pgm) 8)));
    mk8 (Z.land 0xff (ProgramMapID pgm)) ].

Definition ref_PATData_Serialise (d : PATData) : Writer Z := fun b =>
  let out := concat (map ref_PATProgramBytes (Programs d)) in
  if len b <? len out then (Err ErrNoRoomInBuffer, b)
  else (Ok (len out), out ++ drop (length out) b).

(** The other tables are outside this instance: it has no data for them,
    and their sections are refused. *)
Definition ErrTableOutsideInstance : error := ErrNew "table outside the reference instance".

Definition outside {A : Type} : Parser A := fun _ _ => Err ErrTableOutsideInstance.

Definition refCodec : TableCodec :=
  {| EITData := Empty_set;
     NITData := Empty_set;
     PMTData := Empty_set;
     SDTData := Empty_set;
     TOTData := Empty_set;
     parseEITSection := fun _ _ => outside;
     parseNITSection := fun _ => outside;
     parsePATSection := ref_parsePATSection;
     parsePMTSection := fun _ _ => outside;
     parseSDTSection := fun _ _ => outside;
     parseTOTSection := outside;
     PATData_Serialise := ref_PATData_Serialise;
     PMTData_Serialise := fun d => match d with end |}.

(** Modelled from the spec: the packet pool of packet_pool.go, which is not
    among the sources.  "If the packet's PID is not being tracked or its
    PUSI is set, first flush any previously accumulated buffer for that PID
    (emit it as a completed group); then start a new buffer seeded by this
    packet.  If PUSI is not set, append the payload to the existing buffer;
    emit nothing.  dump(): at end-of-stream, emit each PID's remaining
    buffer in deterministic order (by PID ascending)."  The pool is the
    list of the PIDs tracked, each with its packets, kept in ascending
    order of PID. *)
Definition RefPool : Type := list (Z * list Packet).

Fixpoint refPool_Add (pool : RefPool) (p : Packet) : list Packet * RefPool :=
  let pid := PID (PacketHeaderOf p) in
  match pool with
  | [] => ([], [(pid, [p])])
  | (q, ps) :: rest =>
      if pid <? q then ([], (pid, [p]) :: pool)
      else if pid =? q then
        if PayloadUnitStartIndicator (PacketHeaderOf p)
        then (ps, (q, [p]) :: rest)
        else ([], (q, ps ++ [p]) :: rest)
      else
        let '(out, rest') := refPool_Add rest p in
        (out, (q, ps) :: rest')
  end.

Definition refPool_dump (pool : RefPool) : list Packet * RefPool :=
  match pool with
  | [] => ([], [])
  | (_, ps) :: rest => (ps, rest)
  end.

(** Modelled from the spec: [ParseData] of data.go, which is not among the
    sources (spec 4.4, and option [custom_packet_parser] of spec 6): the
    custom parser first, whose units are the result when it asks to skip
    the default; then the payloads of the group joined, and by the PID of
    its first packet: nothing for the CAT; the PSI section engine for PID
    0, the DVB service information PIDs and the PIDs of the program map;
    a PES unit for a payload that starts 00 00 01; nothing otherwise.  The
    PES unit keeps the payload as it is, PES decoding being outside the
    sources. *)
Definition PIDPAT : Z := 0x0.
Definition PIDCAT : Z := 0x1.

Definition IsPSIPayload (pid : Z) (pm : ProgramMap) : bool :=
  (pid =? PIDPAT) || ProgramMap_Exists pm pid ||
  ((0x10 <=? pid) && (pid <=? 0x14)) || ((0x1e <=? pid) && (pid <=? 0x1f)).

Definition isPESPayload (payload : list byte) : bool :=
  match payload with
  | b0 :: b1 :: b2 :: _ => (u8 b0 =? 0) && (u8 b1 =? 0) && (u8 b2 =? 1)
  | _ => false
  end.

Definition ref_ParseData (ps : list Packet)
    (prs : option (list Packet -> Res (list (@Data refCodec (list byte)) * bool)))
    (pm : ProgramMap) : Res (list (@Data refCodec (list byte))) :=
  let default (_ : unit) : Res (list (@Data refCodec (list byte))) :=
    match ps with
    | [] => Abn Panics
    | first :: _ =>
        let payload := concat (map Payload ps) in
        let pid := PID (PacketHeaderOf first) in
        if pid =? PIDCAT then Ok []
        else if IsPSIPayload pid pm then
          match wrapErr "astits: parsing PSI data failed"
                        (@parsePSIData refCodec payload 0) with
          | Ok (psiData, _) => toData psiData (Some first) pid
          | Err e => Err e
          | Abn x => Abn x
          end
        else if isPESPayload payload then
          Ok [ {| Data_EIT := None; FirstPacket := Some first; Data_NIT := None;
                  Data_PAT := None; Data_PES := Some payload; Data_PID := pid;
                  Data_PMT := None; Data_SDT := None; Data_TOT := None |} ]
        else Ok []
    end in
  match prs with
  | Some custom =>
      match wrapErr "astits: custom packets parsing failed" (custom ps) with
      | Ok (ds, true) => Ok ds
      | Ok (_, false) => default tt
      | Err e => Err e
      | Abn x => Abn x
      end
  | None => default tt
  end.

(** A stream that is the list of its packets, read under a context that is
    never cancelled. *)
Definition refEnv : @DemuxerEnv refCodec :=
  {| PESData := list byte;
     Ctx := unit;
     Reader := list Packet;
     PacketBuffer := list Packet;
     PacketPool := RefPool;
     ctx_Err := fun c => (None, c);
     newPacketBuffer := fun reader _ => (Ok reader, reader);
     packetBuffer_next := fun pb =>
       match pb with
       | [] => (Err ErrNoMorePackets, [])
       | p :: rest => (Ok p, rest)
       end;
     NewPacketPool := [];
     packetPool_Add := refPool_Add;
     packetPool_dump := refPool_dump;
     ParseData := ref_ParseData |}.

(** A packet that carries a payload alone, as the scenarios need it. *)
Definition payloadPacket (pid : Z) (pusi : bool) (payload : list byte) : Packet :=
  {| PacketHeaderOf :=
       {| ContinuityCounter := 0; HasAdaptationField := false; HasPayload := true;
          PayloadUnitStartIndicator := pusi; PID := pid;
          TransportErrorIndicator := false; TransportPriority := false;
          TransportScramblingControl := 0 |};
     Payload := payload |}.

(** The PAT section of the packet of [TestSerialisePATData]: three
    programs, of which the first, program number 0, names the PID of the
    NIT. *)
Definition patSection : list byte :=
  bytes [0x00; 0xb0; 0x15; 0x07; 0x44; 0xef; 0x00; 0x00;
         0x00; 0x00; 0xe0; 0x10; 0xe8; 0x80; 0xe1; 0x01; 0xe8; 0x98; 0xff; 0xc8;
         0xa6; 0x6d; 0x35; 0xda].

(** The same section with the last byte of its CRC32 changed. *)
Definition patSectionBadCRC : list byte :=
  take 23 patSection ++ bytes [0xdb].

(* ================================================================= *)
(** ** Notions the properties are stated with *)

Section Notions.
Context {codec : TableCodec}.

(** The section [parsePSISection] returns when the table identifier [b]
    stops the parsing: a header with the identifier and its type, and
    nothing else. *)
Definition stopSection (b : byte) : PSISection :=
  {| CRC32 := 0;
     Header := Some {| PrivateBit := false; SectionLength := 0;
                       SectionSyntaxIndicator := false;
                       TableID := u8 b; TableType := psiTableType (u8 b) |};
     Syntax := None |}.

(** [parsedUpTo buf o0 sections o]: from offset [o0] the loop of
    [parsePSIData] has parsed [sections], none of which stopped it, and has
    the cursor at [o]. *)
Inductive parsedUpTo (buf : list byte) (o0 : Z) : list PSISection -> Z -> Prop :=
| parsed_none : parsedUpTo buf o0 [] o0
| parsed_more (sections : list PSISection) (o : Z) (s : PSISection) (o' : Z) :
    parsedUpTo buf o0 sections o ->
    o < len buf ->
    parsePSISection buf o = Ok ((s, false), o') ->
    parsedUpTo buf o0 (sections ++ [s]) o'.

(** The table types whose sections end in a CRC32. *)
Definition crcTableTypes : list string :=
  ["PAT"; "PMT"; "EIT"; "NIT"; "TOT"; "SDT"]%string.

(** The stored CRC32 of a section that ends at [offsetEnd], and the bytes
    of a section that the CRC32 covers. *)
Definition storedCRC32 (buf : list byte) (offsetEnd : Z) : Z :=
  let bs := take 4 (drop (Z.to_nat (offsetEnd - 4)) buf) in
  be32 (at8 bs 0) (at8 bs 1) (at8 bs 2) (at8 bs 3).

Definition coveredBytes (buf : list byte) (offsetStart offsetEnd : Z) : list byte :=
  take (Z.to_nat (offsetEnd - 4 - offsetStart)) (drop (Z.to_nat offsetStart) buf).

End Notions.

Section DemuxNotions.
Context {codec : TableCodec} {env : DemuxerEnv}.

(** The program entries of the PATs among some data units, in order. *)
Definition patPrograms (ds : list (Data PESData)) : list PATProgram :=
  flat_map (fun v => match Data_PAT v with
                     | Some pat => Programs pat
                     | None => []
                     end) ds.

(** One returned data unit, without error. *)
Definition unitReturned (d : Data PESData) : option (Data PESData) * option error :=
  (Some d, None).

End DemuxNotions.

Section SerialiseNotions.
Context {codec : TableCodec}.

(** The three bytes [PSISectionHeader.Serialise] stores for a header [h]
    whose section length is [sectionLength], the five bytes
    [PSISectionSyntaxHeader.Serialise] stores, and the four bytes of a
    CRC32, most significant first. *)
Definition headerBytes (h : PSISectionHeader) (sectionLength : Z) : list byte :=
  [ mk8 (TableID h);
    mk8 (Z.lor (Z.lor (Z.lor
           (wrap8 (Z.shiftl (Btou8 (SectionSyntaxIndicator h)) 7))
           (wrap8 (Z.shiftl (Btou8 (PrivateBit h)) 6)))
           (Z.shiftl 3 4))
           (Z.land 0xf (Z.shiftr sectionLength 8)));
    mk8 (Z.land 0xff sectionLength) ].

Definition syntaxHeaderBytes (sh : PSISectionSyntaxHeader) : list byte :=
  [ fst (U16toU8s (TableIDExtension sh));
    snd (U16toU8s (TableIDExtension sh));
    mk8 (Z.lor (Z.lor
           (wrap8 (Z.shiftl (Z.land 0x1f (VersionNumber sh)) 1))
           (Btou8 (CurrentNextIndicator sh)))
           (Z.shiftl 3 6));
    mk8 (SectionNumber sh);
    mk8 (LastSectionNumber sh) ].

Definition crc32Bytes (crc32 : Z) : list byte :=
  [ mk8 (Z.shiftr crc32 24); mk8 (Z.shiftr crc32 16); mk8 (Z.shiftr crc32 8); mk8 crc32 ].

(** [syntaxBytes syntax b body]: serialised into the slice [b], the syntax
    of a section takes the bytes [body]: those of its header, when it has
    one, then those the serialiser of its table data reports. *)
Definition syntaxBytes (syntax : option PSISectionSyntax) (b body : list byte) : Prop :=
  match syntax with
  | None => body = []
  | Some syntax =>
      let hb := match SyntaxHeader syntax with
                | Some sh => syntaxHeaderBytes sh
                | None => []
                end in
      match SyntaxData syntax with
      | Some sd =>
          exists m sub,
            PSISectionSyntaxData_Serialise sd (drop (length hb) b) = (Ok m, sub) /\
            body = hb ++ take (Z.to_nat m) sub
      | None => body = hb
      end
  end.

(** [sectionBytes s h b out]: serialised into the slice [b], the section
    [s] of header [h] takes the bytes [out]: the header with the section
    length that was computed, the bytes of the syntax and, for the table
    types that have one, the CRC32 of all these. *)
Definition sectionBytes (s : PSISection) (h : PSISectionHeader) (b out : list byte) : Prop :=
  exists body,
    syntaxBytes (Syntax s) (drop 3 b) body /\
    let idx := 3 + len body in
    let covered := headerBytes h (wrap16 (idx + 4 - 3)) ++ body in
    if hasCRC32 (TableType h) then
      exists crc32, computeCRC32 covered = Ok crc32 /\ out = covered ++ crc32Bytes crc32
    else out = covered.

End SerialiseNotions.

(* ================================================================= *)
(** ** Further notions *)

(** [behaves ok m]: run from an offset that is not negative, the parser
    [m] returns with the cursor where it was or further on, or returns an
    error, or ends in one of the ways [ok] allows; [advances ok m]: the
    same, the cursor having moved when it returns. *)
Definition behaves (ok : abnormal -> Prop) {A : Type} (m : Parser A) : Prop :=
  forall buf o, 0 <= o ->
    match m buf o with
    | Ok (_, o') => o <= o'
    | Err _ => True
    | Abn x => ok x
    end.

Definition advances (ok : abnormal -> Prop) {A : Type} (m : Parser A) : Prop :=
  forall buf o, 0 <= o ->
    match m buf o with
    | Ok (_, o') => o < o'
    | Err _ => True
    | Abn x => ok x
    end.

(** [returns m]: run from an offset that is not negative, the parser [m]
    returns, with a result or with an error: it neither panics nor goes on
    for ever. *)
Definition returns {A : Type} (m : Parser A) : Prop :=
  forall buf o, 0 <= o ->
    match m buf o with
    | Abn _ => False
    | _ => True
    end.

(** The bytes a parsed descriptor stands for: its tag, its length and the
    body it has retained. *)
Definition descriptorBytes (d : Descriptor) : list byte :=
  Tag d :: Length d :: originalBytes d.

(** The tags the [switch] of [parseDescriptors] has a decoder for. *)
Definition decodedTags : list Z :=
  [ DescriptorTagAC3; DescriptorTagAVCVideo; DescriptorTagComponent;
    DescriptorTagContent; DescriptorTagDataStreamAlignment; DescriptorTagEnhancedAC3;
    DescriptorTagExtendedEvent; DescriptorTagExtension;
    DescriptorTagISO639LanguageAndAudioType; DescriptorTagLocalTimeOffset;
    DescriptorTagMaximumBitrate; DescriptorTagNetworkName; DescriptorTagParentalRating;
    DescriptorTagPrivateDataIndicator; DescriptorTagPrivateDataSpecifier;
    DescriptorTagRegistration; DescriptorTagService; DescriptorTagShortEvent;
    DescriptorTagStreamIdentifier; DescriptorTagSubtitling; DescriptorTagTeletext;
    DescriptorTagVBIData; DescriptorTagVBITeletext ].

(** The body of the inner loop of [newDescriptorVBIData] for the service
    [id], as [newDescriptorVBIDataService] runs it. *)
Definition vbiDataLoopBody (id : Z)
  : list DescriptorVBIDataDescriptor -> Parser (list DescriptorVBIDataDescriptor) :=
  fun acc =>
    if vbiKnownService id then
      let* b := nextByte in
      ret (acc ++ [ {| FieldParity := bitSet b 0x20;
                       LineOffset := Z.land (u8 b) 0x1f |} ])
    else ret acc.

(** The 32 bits of a word, the most significant first. *)
Definition wordBits (r : Z) : list bool :=
  map (fun j => Z.testbit r (31 - Z.of_nat j)) (seq 0 32).

Section SerialiseSteps.
Context {codec : TableCodec}.

(** The first step of [PSISection.Serialise]: the syntax of the section,
    when it has one, written behind the three bytes kept for the header;
    the index reached. *)
Definition serialiseSyntaxOf (s : PSISection) : Writer Z :=
  match Syntax s with
  | Some syntax =>
      let+ n := within 3 (PSISectionSyntax_Serialise syntax) in
      wret (3 + n)
  | None => wret 3
  end.

End SerialiseSteps.

(** The table types [parsePSISectionSyntaxData] has no parser for. *)
Definition unparsedTableTypes : list string :=
  ["BAT"; "DIT"; "RST"; "SIT"; "ST"; "TDT"]%string.

(** The table types [toData] makes a data unit of, in the order of its
    [switch]. *)
Definition dataTableTypes : list string :=
  ["EIT"; "NIT"; "PAT"; "PMT"; "SDT"; "TOT"]%string.

Section DataNotions.
Context {codec : TableCodec}.

(** A section as [parsePSIData] leaves it: with a header, and, where its
    table type is one [toData] looks at, with syntax data exactly when its
    declared length is not zero. *)
Definition asParsed (s : PSISection) : Prop :=
  exists h, Header s = Some h /\
            (In (TableType h) dataTableTypes ->
             (SectionLength h = 0 /\ syntaxDataOf s = Abn Panics) \/
             (SectionLength h <> 0 /\ exists d, syntaxDataOf s = Ok d)).

Definition emptyDataSection (s : PSISection) : Prop :=
  exists h, Header s = Some h /\ In (TableType h) dataTableTypes /\ SectionLength h = 0.

End DataNotions.

Section EndOfStreamNotions.
Context {codec : TableCodec} {env : DemuxerEnv}.

(** [dumps dmx outcomes dmx']: the packet pool of [dmx] gives up its groups
    one after the other until it has none left, and no data unit comes of
    any of them; [outcomes] is what each left in [err], in order: the error
    of [ParseData], or nothing when the group was parsed and held no
    data. *)
Inductive dumps : Demuxer -> list (option error) -> Demuxer -> Prop :=
| dumps_end (dmx : Demuxer) (pool : PacketPool) :
    packetPool_dump (packetPool dmx) = ([], pool) ->
    dumps dmx [] (setPacketPool dmx pool)
| dumps_failed (dmx dmx' : Demuxer) (ps : list Packet) (pool : PacketPool)
      (e : error) (outcomes : list (option error)) :
    packetPool_dump (packetPool dmx) = (ps, pool) ->
    ps <> [] ->
    ParseData ps (optPacketsParser dmx) (programMap dmx) = Err e ->
    dumps (setPacketPool dmx pool) outcomes dmx' ->
    dumps dmx (Some e :: outcomes) dmx'
| dumps_empty (dmx dmx' : Demuxer) (ps : list Packet) (pool : PacketPool)
      (outcomes : list (option error)) :
    packetPool_dump (packetPool dmx) = (ps, pool) ->
    ps <> [] ->
    ParseData ps (optPacketsParser dmx) (programMap dmx) = Ok [] ->
    dumps (setPacketPool dmx pool) outcomes dmx' ->
    dumps dmx (None :: outcomes) dmx'.

End EndOfStreamNotions.

(* ================================================================= *)
(** ** Concrete runs: the data *)

(** The section [patSection] as the section engine returns it. *)
Definition patHeader : PSISectionHeader :=
  {| PrivateBit := false; SectionLength := 21; SectionSyntaxIndicator := true;
     TableID := 0; TableType := "PAT" |}.

Definition patTest : PATData :=
  {| Programs := [ {| ProgramMapID := 16; ProgramNumber := 0 |};
                   {| ProgramMapID := 257; ProgramNumber := 59520 |};
                   {| ProgramMapID := 8136; ProgramNumber := 59544 |} ];
     TransportStreamID := 1860 |}.

Definition patSyntax : @PSISectionSyntax refCodec :=
  {| SyntaxData :=
       Some {| EIT := None; NIT := None; PAT := Some patTest;
               PMT := None; SDT := None; TOT := None |};
     SyntaxHeader :=
       Some {| CurrentNextIndicator := true; LastSectionNumber := 0; SectionNumber := 0;
               TableIDExtension := 1860; VersionNumber := 23 |} |}.

Definition patParsed : @PSISection refCodec :=
  {| CRC32 := 0xa66d35da; Header := Some patHeader; Syntax := Some patSyntax |}.

(** The PSI data of a payload that holds this section alone. *)
Definition psiTest : @PSIData refCodec :=
  {| PointerField := 0; Sections := [patParsed; stopSection xff] |}.

(** A second PAT section: transport stream 1, program 1 on PID 256. *)
Definition patSectionSmall : list byte :=
  bytes [0x00; 0xb0; 0x0d; 0x00; 0x01; 0xc1; 0x00; 0x00;
         0x00; 0x01; 0xe1; 0x00; 0xe8; 0xf9; 0x5e; 0x7d].

Definition patSmall : PATData :=
  {| Programs := [ {| ProgramMapID := 256; ProgramNumber := 1 |} ];
     TransportStreamID := 1 |}.

(** The data unit of a PAT found on PID 0 in the group that [first]
    starts. *)
Definition patUnit (pat : PATData) (first : Packet) : @Data refCodec (list byte) :=
  {| Data_EIT := None; FirstPacket := Some first; Data_NIT := None;
     Data_PAT := Some pat; Data_PES := None; Data_PID := 0;
     Data_PMT := None; Data_SDT := None; Data_TOT := None |}.

(** Three payloads, each with a zero pointer field: the test section and
    stuffing; the test section and the second section; the test section
    with a wrong CRC32, followed by the test section as it should be. *)
Definition payloadOneSection : list byte :=
  x00 :: patSection ++ bytes [0xff; 0x00; 0xb0].
Definition payloadTwoSections : list byte :=
  x00 :: patSection ++ patSectionSmall ++ bytes [0xff].
Definition payloadBadCRC : list byte :=
  x00 :: patSectionBadCRC ++ patSection ++ bytes [0xff].

Definition packetOneSection : Packet := payloadPacket 0 true payloadOneSection.
Definition packetTwoSections : Packet := payloadPacket 0 true payloadTwoSections.
Definition packetBadCRC : Packet := payloadPacket 0 true payloadBadCRC.

(** A demuxer of the reference instance over the packets of a stream. *)
Definition refDemuxer (packets : list Packet) : @Demuxer refCodec refEnv :=
  @New refCodec refEnv tt packets.

(** Closing an equation between closed terms by evaluation: of both sides,
    and of the left side into a right side still to be determined. *)
Ltac evaluated :=
  lazymatch goal with
  | |- ?l = ?r => exact (@eq_refl _ r <: l = r)
  end.

Ltac written :=
  lazymatch goal with
  | |- ?l = _ => let r := eval vm_compute in l in exact (@eq_refl _ r <: l = r)
  end.


(* ================================================================= *)
(** * Properties *)


(* ----------------------------------------------------------------- *)
(** ** Bytes *)

Lemma u8_range (b : byte) : 0 <= u8 b < 256.
Proof.
  unfold u8. pose proof (Byte.to_N_bounded b). lia.
Qed.

Lemma top_bit_test (x n : Z) :
  0 <= n -> 0 <= x < 2 ^ (n + 1) -> (2 ^ n <=? x) = Z.testbit x n.
Proof.
  intros Hn Hx.
  assert (Hp : 0 < 2 ^ n) by (apply Z.pow_pos_nonneg; lia).
  rewrite Z.pow_add_r, Z.pow_1_r in Hx by lia.
  destruct (Z.leb_spec (2 ^ n) x) as [Hle | Hlt]; symmetry.
  - apply Z.testbit_true; [lia |].
    assert (x / 2 ^ n = 1) as -> by (symmetry; apply Z.div_unique with (r := x - 2 ^ n); lia).
    reflexivity.
  - apply Z.testbit_false; [lia |].
    rewrite Z.div_small by lia. reflexivity.
Qed.

(* ----------------------------------------------------------------- *)
(** ** CRC32 *)

Lemma crcShift_range (r : Z) (m : bool) :
  0 <= r < 2 ^ 32 -> 0 <= crcShift r m < 2 ^ 32.
Proof.
  intros Hr. unfold crcShift.
  assert (Hl : 0 <= Z.land (2 * r) (Z.ones 32) < 2 ^ 32).
  { rewrite Z.land_ones by lia. apply Z.mod_pos_bound. lia. }
  destruct (xorb _ _); [| exact Hl].
  split.
  - apply Z.lxor_nonneg. unfold crcPolynomial. lia.
  - assert (Hb : forall k, 32 <= k ->
               Z.testbit (Z.lxor (Z.land (2 * r) (Z.ones 32)) crcPolynomial) k = false).
    { intros k Hk. rewrite Z.lxor_spec, Z.land_spec.
      rewrite Z.ones_spec_high by lia. rewrite andb_false_r.
      replace crcPolynomial with (crcPolynomial mod 2 ^ 32) by reflexivity.
      rewrite Z.mod_pow2_bits_high by lia. reflexivity. }
    set (v := Z.lxor _ _) in *.
    assert (Hv : 0 <= v) by (apply Z.lxor_nonneg; unfold crcPolynomial; lia).
    destruct (Z.eq_dec v 0) as [-> | Hnz]; [lia |].
    assert (Hlog : Z.log2 v < 32).
    { destruct (Z.lt_ge_cases (Z.log2 v) 32) as [? | Hge]; [assumption |].
      pose proof (Z.bit_log2 v ltac:(lia)) as Hbit.
      rewrite (Hb (Z.log2 v) Hge) in Hbit. discriminate. }
    apply Z.log2_lt_pow2; lia.
Qed.

Lemma crc32Step_shift (o c : Z) :
  0 <= o < 2 ^ 32 -> 0 <= c < 256 ->
  crc32Step o c = (crcShift o (Z.testbit c 7), (2 * c) mod 256).
Proof.
  intros Ho Hc. unfold crc32Step, crcShift, wrap32, wrap8.
  change 0x80000000 with (2 ^ 31). change 0x80 with (2 ^ 7).
  rewrite (top_bit_test o 31) by lia.
  rewrite (top_bit_test c 7) by lia.
  rewrite !Z.shiftl_mul_pow2 by lia. rewrite Z.pow_1_r.
  rewrite Z.land_ones by lia.
  rewrite (Z.mul_comm o 2), (Z.mul_comm c 2).
  change (2 ^ 8) with 256.
  f_equal.
  destruct (Z.testbit o 31), (Z.testbit c 7); reflexivity.
Qed.

Lemma shifted_byte_bit (c : Z) (j : nat) :
  Z.testbit ((2 * c) mod 256) (7 - Z.of_nat j) = Z.testbit c (7 - Z.of_nat (S j)).
Proof.
  destruct (Z.lt_ge_cases (7 - Z.of_nat j) 0) as [Hneg | Hpos].
  - rewrite !Z.testbit_neg_r by lia. reflexivity.
  - change 256 with (2 ^ 8). rewrite Z.mod_pow2_bits_low by lia.
    replace (7 - Z.of_nat j) with (Z.succ (7 - Z.of_nat (S j))) by lia.
    apply Z.double_bits_succ.
Qed.

Lemma crc32Bits_shift (n : nat) : forall o c,
  0 <= o < 2 ^ 32 -> 0 <= c < 256 ->
  crc32Bits n o c =
  fold_left crcShift (map (fun j => Z.testbit c (7 - Z.of_nat j)) (seq 0 n)) o.
Proof.
  induction n as [| n IH]; intros o c Ho Hc; [reflexivity |].
  cbn [crc32Bits]. rewrite crc32Step_shift by assumption.
  rewrite IH.
  - cbn [seq map fold_left]. rewrite <- seq_shift, map_map.
    f_equal. apply map_ext. intros j. apply shifted_byte_bit.
  - apply crcShift_range. assumption.
  - apply Z.mod_pos_bound. lia.
Qed.

Lemma fold_crcShift_range (ms : list bool) : forall r,
  0 <= r < 2 ^ 32 -> 0 <= fold_left crcShift ms r < 2 ^ 32.
Proof.
  induction ms as [| m ms IH]; intros r Hr; [exact Hr |].
  cbn [fold_left]. apply IH, crcShift_range, Hr.
Qed.

Lemma crc_bytes_shift (data : list byte) : forall o,
  0 <= o < 2 ^ 32 ->
  fold_left (fun o b => crc32Bits 8 o (u8 b)) data o =
  fold_left crcShift (flat_map msbFirst data) o.
Proof.
  induction data as [| b data IH]; intros o Ho; [reflexivity |].
  cbn [fold_left flat_map]. rewrite fold_left_app.
  rewrite crc32Bits_shift by (auto using u8_range).
  fold (msbFirst b). apply IH, fold_crcShift_range, Ho.
Qed.

Lemma crcInit_range : 0 <= crcInit < 2 ^ 32.
Proof. split; [apply Z.leb_le | apply Z.ltb_lt]; reflexivity. Qed.

Lemma computeCRC32_eq (data : list byte) :
  computeCRC32 data = Ok (crc32_mpeg2 data).
Proof.
  unfold computeCRC32, crc32_mpeg2. f_equal. apply crc_bytes_shift, crcInit_range.
Qed.

(** C1.  [computeCRC32] is the MPEG-2 CRC32: on every byte sequence it
    returns, without error, the state the reference shift register reaches
    from all ones when it is fed the bits of the message, most significant
    bit of each byte first, with polynomial 0x04C11DB7, nothing reflected
    and nothing added at the end; a 32-bit value. *)
Theorem computeCRC32_is_mpeg2 (data : list byte) :
  computeCRC32 data = Ok (crc32_mpeg2 data) /\
  0 <= crc32_mpeg2 data < 2 ^ 32 /\
  crcInit = 0xFFFFFFFF /\ crcPolynomial = 0x04C11DB7.
Proof.
  split; [apply computeCRC32_eq |].
  unfold crc32_mpeg2. repeat split; apply fold_crcShift_range, crcInit_range.
Qed.

(** The check value of CRC-32/MPEG-2, on the ASCII digits 1 to 9. *)
Example computeCRC32_check_value :
  computeCRC32 (bytes [0x31; 0x32; 0x33; 0x34; 0x35; 0x36; 0x37; 0x38; 0x39])
  = Ok 0x0376E6E7.
Proof. vm_compute. reflexivity. Qed.

(* ----------------------------------------------------------------- *)
(** ** Table types *)

Lemma row_miss (tableID lo hi : Z) (t : string) (rest : list (Z * Z * string)) :
  tableID < lo \/ hi < tableID ->
  List.filter (inRow tableID) ((lo, hi, t) :: rest) = List.filter (inRow tableID) rest.
Proof.
  intros H. cbn [List.filter]. unfold inRow at 1. cbn [fst snd].
  destruct (Z.leb_spec lo tableID), (Z.leb_spec tableID hi); try reflexivity; lia.
Qed.

Lemma row_hit (tableID lo hi : Z) (t : string) (rest : list (Z * Z * string)) :
  lo <= tableID <= hi ->
  List.filter (inRow tableID) ((lo, hi, t) :: rest)
  = (lo, hi, t) :: List.filter (inRow tableID) rest.
Proof.
  intros H. cbn [List.filter]. unfold inRow at 1. cbn [fst snd].
  destruct (Z.leb_spec lo tableID), (Z.leb_spec tableID hi); try reflexivity; lia.
Qed.

Ltac rows_by_range :=
  unfold rowsOf, tableIDRows;
  repeat first [rewrite row_miss by lia | rewrite row_hit by lia];
  reflexivity.

(** C4.  The classification of table identifiers is total and agrees with
    the normative table: a table identifier falls in at most one row of
    the table, [psiTableType] returns the type of that row, and Unknown
    when there is none; this holds for every integer, the bytes 0 to 255
    among them. *)
Theorem psiTableType_total (tableID : Z) :
  match rowsOf tableID with
  | [] => psiTableType tableID = "Unknown"%string
  | [t] => psiTableType tableID = t
  | _ => False
  end.
Proof.
  unfold psiTableType.
  repeat match goal with
         | |- context [Z.eqb tableID ?b] =>
             destruct (Z.eqb_spec tableID b) as [-> | ?]; [vm_compute; reflexivity |]
         | |- context [Z.leb ?a ?b] => destruct (Z.leb_spec a b)
         end;
    cbn [andb orb];
    match goal with
    | |- match ?r with _ => _ end =>
        first [ assert (r = []) as -> by rows_by_range
              | assert (r = ["EIT"%string]) as -> by rows_by_range ];
        reflexivity
    end.
Qed.

(* ----------------------------------------------------------------- *)
(** ** The iterator *)

Lemma len_nonneg {A : Type} (l : list A) : 0 <= len l.
Proof. unfold len. lia. Qed.

Lemma bind_Ok {A B : Type} (m : Parser A) (k : A -> Parser B) buf o r :
  bind m k buf o = Ok r ->
  exists a o1, m buf o = Ok (a, o1) /\ k a buf o1 = Ok r.
Proof.
  unfold bind. destruct (m buf o) as [[a o1] | e | x]; [eauto | discriminate ..].
Qed.

Lemma wrapping_Ok {A : Type} (msg : string) (m : Parser A) buf o r :
  wrapping msg m buf o = Ok r -> m buf o = Ok r.
Proof.
  unfold wrapping, wrapErr. destruct (m buf o); congruence.
Qed.

Lemma NextBytes_Ok (n : Z) buf o l o' :
  NextBytes n buf o = Ok (l, o') ->
  0 <= n /\ 0 <= o /\ o + n <= len buf /\ o' = o + n /\
  l = take (Z.to_nat n) (drop (Z.to_nat o) buf).
Proof.
  unfold NextBytes.
  destruct (Z.ltb_spec (len buf) (o + n)); [discriminate |].
  destruct (Z.ltb_spec n 0); [discriminate |].
  destruct (Z.ltb_spec o 0); [discriminate |].
  cbn [orb]. intros [= <- <-]. repeat split; first [lia | reflexivity].
Qed.

Lemma NextBytes_len (n : Z) buf o l o' :
  NextBytes n buf o = Ok (l, o') -> len l = n.
Proof.
  intros H. apply NextBytes_Ok in H as (Hn & Ho & Hlen & _ & ->).
  unfold len in *. rewrite length_take, length_drop. lia.
Qed.

Lemma nextBytes_Ok (n : Z) buf o l o' :
  nextBytes n buf o = Ok (l, o') ->
  0 <= n /\ 0 <= o /\ o + n <= len buf /\ o' = o + n /\
  l = take (Z.to_nat n) (drop (Z.to_nat o) buf).
Proof. intros H. apply wrapping_Ok in H. apply NextBytes_Ok, H. Qed.

Lemma NextByte_Ok buf o b o' :
  NextByte buf o = Ok (b, o') ->
  0 <= o /\ o < len buf /\ o' = o + 1 /\ buf !! Z.to_nat o = Some b.
Proof.
  unfold NextByte.
  destruct (Z.ltb_spec (len buf) (o + 1)); [discriminate |].
  destruct (Z.ltb_spec o 0); [discriminate |].
  destruct (buf !! Z.to_nat o) eqn:E; [| discriminate].
  intros [= <- <-]. repeat split; first [lia | reflexivity].
Qed.

(** The bound [forOffsetBelow] gives a loop is enough whenever the body
    moves the offset forward: a larger bound changes nothing. *)
Lemma loopUntil_fuel {S : Type} (offsetEnd : Z) (body : S -> Parser S) buf :
  (forall s o s' o', body s buf o = Ok (s', o') -> o < o') ->
  forall fuel1 fuel2 s o,
    (Z.to_nat (offsetEnd - o) <= fuel1)%nat ->
    (Z.to_nat (offsetEnd - o) <= fuel2)%nat ->
    loopUntil fuel1 offsetEnd body s buf o = loopUntil fuel2 offsetEnd body s buf o.
Proof.
  intros Hadv. induction fuel1 as [| f1 IH]; intros fuel2 s o H1 H2.
  - destruct fuel2; cbn [loopUntil];
      destruct (Z.ltb_spec o offsetEnd); try reflexivity; lia.
  - destruct fuel2 as [| f2]; cbn [loopUntil];
      destruct (Z.ltb_spec o offsetEnd); try reflexivity; try lia.
    destruct (body s buf o) as [[s' o'] | e | x] eqn:E; try reflexivity.
    apply Hadv in E. apply IH; lia.
Qed.

(* ----------------------------------------------------------------- *)
(** ** Descriptors *)

(** What a successful turn of the loop of [parseDescriptors] has done:
    tag and length are the two bytes at the cursor, the retained bytes are
    the [Length] bytes after them, and the cursor ends right behind these,
    whatever the decoder of the tag has read. *)
Lemma parseDescriptor_Ok buf o d o' :
  parseDescriptor buf o = Ok (d, o') ->
  0 <= o /\ o + 2 <= len buf /\
  buf !! Z.to_nat o = Some (Tag d) /\
  buf !! Z.to_nat (o + 1) = Some (Length d) /\
  originalBytes d = take (Z.to_nat (u8 (Length d))) (drop (Z.to_nat (o + 2)) buf) /\
  len (originalBytes d) = u8 (Length d) /\
  o' = o + 2 + u8 (Length d).
Proof.
  unfold parseDescriptor. intros H.
  apply bind_Ok in H as (bs2 & o1 & Hbs & H).
  apply nextBytes_Ok in Hbs as (_ & Ho & Hlen & -> & Hbs2).
  assert (Hl2 : (2 <= length (drop (Z.to_nat o) buf))%nat).
  { rewrite length_drop. unfold len in Hlen. lia. }
  assert (Htag : buf !! Z.to_nat o = Some (at8 bs2 0) /\
                 buf !! Z.to_nat (o + 1) = Some (at8 bs2 1)).
  { subst bs2. unfold at8.
    replace (Z.to_nat (o + 1)) with (Z.to_nat o + 1)%nat by lia.
    rewrite <- (Nat.add_0_r (Z.to_nat o)) at 1.
    rewrite <- !lookup_drop.
    destruct (drop (Z.to_nat o) buf) as [| x [| y l]]; cbn in Hl2; try lia.
    split; reflexivity. }
  destruct Htag as [Htag Hlength].
  pose proof (u8_range (at8 bs2 1)) as Hr.
  destruct (Z.ltb_spec 0 (u8 (at8 bs2 1))) as [Hpos | Hzero].
  - apply bind_Ok in H as (o2 & o3 & Hoff & H). injection Hoff as <- <-.
    apply bind_Ok in H as (orig & o4 & Horig & H).
    apply wrapping_Ok in Horig.
    pose proof (NextBytes_len _ _ _ _ _ Horig) as Hlo.
    apply NextBytes_Ok in Horig as (_ & _ & _ & _ & ->).
    apply bind_Ok in H as ([] & o5 & Hseek & H). injection Hseek as <-.
    apply bind_Ok in H as (content & o6 & _ & H).
    apply bind_Ok in H as ([] & o7 & Hseek & H). injection Hseek as <-.
    injection H as <- <-. cbn [Tag Length originalBytes].
    repeat split; try assumption; lia.
  - injection H as <- <-. cbn [Tag Length originalBytes].
    replace (u8 (at8 bs2 1)) with 0 by lia.
    repeat split; try assumption; try lia; reflexivity.
Qed.

Lemma parseDescriptor_advances (acc : list Descriptor) buf o acc' o' :
  appending parseDescriptor acc buf o = Ok (acc', o') -> o < o'.
Proof.
  unfold appending. intros H.
  apply bind_Ok in H as (d & o1 & Hd & H). injection H as <- <-.
  apply parseDescriptor_Ok in Hd as (_ & _ & _ & _ & _ & _ & ->).
  pose proof (u8_range (Length d)). lia.
Qed.

Lemma descriptorsSpan_app (l1 l2 : list Descriptor) :
  descriptorsSpan (l1 ++ l2) = descriptorsSpan l1 + descriptorsSpan l2.
Proof.
  unfold descriptorsSpan.
  induction l1 as [| d l1 IH]; cbn [app fold_right]; lia.
Qed.

Lemma descriptorsSpan_nonneg (l : list Descriptor) : 0 <= descriptorsSpan l.
Proof.
  unfold descriptorsSpan.
  induction l as [| d l IH]; cbn [fold_right]; [lia |].
  pose proof (u8_range (Length d)). lia.
Qed.

(** The loop of [parseDescriptors], from any of its states: the
    descriptors it adds take the cursor from where it is to where it ends,
    the last of them starts before the end offset and the loop stops at or
    beyond it. *)
Lemma descriptor_loop_span (offsetEnd : Z) buf (fuel : nat) :
  forall acc o ds o',
    loopUntil fuel offsetEnd (appending parseDescriptor) acc buf o = Ok (ds, o') ->
    exists new,
      ds = acc ++ new /\
      o' = o + descriptorsSpan new /\
      offsetEnd <= o' /\
      (forall ds0 d, new = ds0 ++ [d] -> o + descriptorsSpan ds0 < offsetEnd).
Proof.
  induction fuel as [| fuel IH]; intros acc o ds o' H; cbn [loopUntil] in H.
  - destruct (Z.ltb_spec o offsetEnd); [discriminate |]. injection H as <- <-.
    exists []. rewrite app_nil_r. cbn. repeat split; try lia.
    intros [| ? ?] ? Hd; discriminate.
  - destruct (Z.ltb_spec o offsetEnd) as [Hlt | Hge].
    + destruct (appending parseDescriptor acc buf o) as [[acc1 o1] | |] eqn:E;
        try discriminate.
      unfold appending in E. apply bind_Ok in E as (d & o2 & Hd & E).
      injection E as <- <-.
      apply parseDescriptor_Ok in Hd as (_ & _ & _ & _ & _ & _ & ->).
      apply IH in H as (new & -> & -> & Hend & Hlast).
      exists (d :: new). rewrite <- app_assoc. cbn [app descriptorsSpan fold_right].
      fold (descriptorsSpan new). repeat split; try lia.
      intros ds0 d0 Hsplit. destruct ds0 as [| d1 ds0].
      * cbn. lia.
      * cbn [app] in Hsplit. injection Hsplit as <- Hnew.
        specialize (Hlast _ _ Hnew). cbn [descriptorsSpan fold_right].
        fold (descriptorsSpan ds0). lia.
    + injection H as <- <-. exists []. rewrite app_nil_r. cbn.
      repeat split; try lia. intros [| ? ?] ? Hd; discriminate.
Qed.

(** [parseDescriptors] never stops for want of turns: with any larger bound
    on its loop the result is the same. *)
Lemma parseDescriptors_fuel (offsetEnd : Z) buf o (extra : nat) :
  loopUntil (Z.to_nat (offsetEnd - o) + extra) offsetEnd
            (appending parseDescriptor) [] buf o
  = forOffsetBelow offsetEnd (appending parseDescriptor) [] buf o.
Proof.
  unfold forOffsetBelow. apply loopUntil_fuel; [| lia | lia].
  intros s o1 s' o1'. apply parseDescriptor_advances.
Qed.

(** C5 (as amended).  A descriptor that is parsed leaves the cursor at its
    start plus two plus its declared length, whatever the decoder of its
    tag has consumed.  For a descriptor loop that parses, the sum of
    (2 + length) over the descriptors is therefore the distance the cursor
    has moved past the loop's length field; this distance is at least the
    declared loop length, the last descriptor starting before the declared
    end, and a loop declared empty yields no descriptor. *)
Theorem parseDescriptors_span buf o ds o' :
  parseDescriptors buf o = Ok (ds, o') ->
  let declared := loopLength (take 2 (drop (Z.to_nat o) buf)) in
  (forall p d p', parseDescriptor buf p = Ok (d, p') -> p' = p + 2 + u8 (Length d)) /\
  o' = o + 2 + descriptorsSpan ds /\
  declared <= descriptorsSpan ds /\
  (forall ds0 d, ds = ds0 ++ [d] -> descriptorsSpan ds0 < declared) /\
  (declared = 0 -> ds = []).
Proof.
  intros H declared. split.
  { intros p d p' Hd. apply parseDescriptor_Ok in Hd. tauto. }
  unfold parseDescriptors in H.
  apply bind_Ok in H as (bs2 & o1 & Hbs & H).
  apply nextBytes_Ok in Hbs as (_ & Ho & Hlen & -> & ->).
  change (Z.to_nat 2) with 2%nat in H. fold declared in H.
  destruct (Z.ltb_spec 0 declared) as [Hpos | Hzero].
  - apply bind_Ok in H as (o2 & o3 & Hoff & H). injection Hoff as <- <-.
    unfold forOffsetBelow in H.
    apply descriptor_loop_span in H as (new & Hds & -> & Hend & Hlast).
    cbn [app] in Hds. subst new.
    repeat split; try lia.
    intros ds0 d Hsplit. specialize (Hlast _ _ Hsplit). lia.
  - injection H as <- <-. cbn. repeat split; try lia.
    intros [| ? ?] ? Hd; discriminate.
Qed.

(** C5, on the descriptor loop of the second elementary stream of the PMT
    of the test suite (an unknown descriptor of two bytes, then a stream
    identifier): seven bytes declared, seven bytes spanned. *)
Lemma parseDescriptors_span_witness :
  let buf := bytes [0xf0; 0x07; 0x7c; 0x02; 0x2e; 0x00; 0x52; 0x01; 0x10; 0xff] in
  exists ds,
    parseDescriptors buf 0 = Ok (ds, 9) /\
    9 = 0 + 2 + descriptorsSpan ds /\
    7 <= descriptorsSpan ds.
Proof.
  intros buf.
  destruct (parseDescriptors buf 0) as [[ds o'] | |] eqn:E;
    try (exfalso; vm_compute in E; discriminate).
  assert (Ho : o' = 9) by (vm_compute in E; congruence). subst o'.
  exists ds. split; [reflexivity |].
  pose proof (parseDescriptors_span buf 0 ds 9 E) as (_ & Hsum & Hdecl & _).
  split; [exact Hsum | exact Hdecl].
Defined.

(** C5 as it was stated fails on a loop declared three bytes long that
    holds one descriptor of two plus two bytes: it parses, and the sum is
    four. *)
Lemma parseDescriptors_span_exceeds_declared :
  let buf := bytes [0xf0; 0x03; 0x80; 0x02; 0xaa; 0xbb] in
  let d := {| Decoded := Some (UserDefined (bytes [0xaa; 0xbb]));
              Length := x02; Tag := x80; originalBytes := bytes [0xaa; 0xbb] |} in
  parseDescriptors buf 0 = Ok ([d], 6) /\
  loopLength (take 2 buf) = 3 /\
  descriptorsSpan [d] = 4.
Proof. vm_compute. repeat split; reflexivity. Qed.


(** A parsed descriptor serialises to the bytes it was read from: tag,
    length and the retained body, the rest of the buffer left as it was.
    The count returned is [Length + 2] computed on eight bits. *)
Lemma copy_whole (dst src : list byte) :
  (length src <= length dst)%nat -> copy dst src = src ++ drop (length src) dst.
Proof.
  intros H. unfold copy. rewrite take_ge by lia. reflexivity.
Qed.

Lemma Descriptor_Serialise_bytes (d : Descriptor) (b : list byte) :
  3 <= len b -> u8 (Length d) + 2 <= len b ->
  len (originalBytes d) = u8 (Length d) ->
  Descriptor_Serialise d b
  = (Ok (wrap8 (u8 (Length d) + 2)),
     Tag d :: Length d :: originalBytes d ++ drop (2 + length (originalBytes d)) b).
Proof.
  intros H3 Hroom Horig. unfold Descriptor_Serialise, len in *.
  destruct (Z.ltb_spec (Z.of_nat (length b)) 3); [lia |].
  destruct (Z.ltb_spec (Z.of_nat (length b)) (u8 (Length d) + 2)); [lia |].
  cbn [orb]. f_equal.
  assert (Hn : (2 + length (originalBytes d) <= length b)%nat) by lia.
  clear - Hn.
  destruct b as [| b0 [| b1 b]]; cbn [length] in Hn; try lia.
  cbn -[copy]. rewrite take_0, drop_0. cbn [app].
  rewrite copy_whole by lia. reflexivity.
Qed.

(** X15.  A descriptor that [parseDescriptor] has returned is written by
    [Descriptor.Serialise], into a buffer of at least three bytes that has
    room for it, as the bytes it was parsed from: its tag, its length and
    its body, whatever the decoder has made of them; the rest of the
    buffer is left as it was, and the count returned is the length plus
    two, on eight bits. *)
Lemma parseDescriptor_roundtrip buf o d o' (b : list byte) :
  parseDescriptor buf o = Ok (d, o') ->
  3 <= len b -> u8 (Length d) + 2 <= len b ->
  Descriptor_Serialise d b
  = (Ok (wrap8 (u8 (Length d) + 2)),
     take (Z.to_nat (2 + u8 (Length d))) (drop (Z.to_nat o) buf)
     ++ drop (Z.to_nat (2 + u8 (Length d))) b).
Proof.
  intros Hd H3 Hroom.
  apply parseDescriptor_Ok in Hd as (Ho & Hlen & Htag & Hlength & Horig & Hol & _).
  rewrite Descriptor_Serialise_bytes by assumption. f_equal.
  pose proof (u8_range (Length d)) as Hr.
  replace (2 + length (originalBytes d))%nat with (Z.to_nat (2 + u8 (Length d)))
    by (unfold len in Hol; lia).
  rewrite Horig.
  replace (Z.to_nat (2 + u8 (Length d))) with (2 + Z.to_nat (u8 (Length d)))%nat by lia.
  replace (Z.to_nat (o + 2)) with (Z.to_nat o + 2)%nat by lia.
  replace (Z.to_nat (o + 1)) with (S (Z.to_nat o)) in Hlength by lia.
  rewrite <- drop_drop.
  rewrite (drop_S _ _ _ Htag). rewrite (drop_S _ _ _ Hlength).
  reflexivity.
Qed.

(** C6 (the code departs from it).  A descriptor whose length byte is 254,
    read by [parseDescriptors]: its 254 body bytes are retained, and
    [Serialise] writes tag, length and body back unchanged into a buffer of
    300 bytes, yet the count it returns is 0 and not 256, the sum
    [d.Length + 2] being taken on eight bits. *)
Theorem Descriptor_Serialise_count_wraps :
  let body := replicate 254 x07 in
  let buf := bytes [0xf1; 0x00; 0x80; 0xfe] ++ body in
  let d := {| Decoded := Some (UserDefined body);
              Length := xfe; Tag := x80; originalBytes := body |} in
  parseDescriptors buf 0 = Ok ([d], 258) /\
  Descriptor_Serialise d (replicate 300 x00)
  = (Ok 0, x80 :: xfe :: body ++ replicate 44 x00) /\
  u8 (Length d) + 2 = 256.
Proof. vm_compute. repeat split; reflexivity. Qed.


(* ----------------------------------------------------------------- *)
(** ** The PSI section engine *)

Section PSIProperties.
Context {codec : TableCodec}.

Lemma NextByte_at buf o b :
  0 <= o -> buf !! Z.to_nat o = Some b -> NextByte buf o = Ok (b, o + 1).
Proof.
  intros Ho Hb. unfold NextByte.
  pose proof (lookup_lt_Some _ _ _ Hb) as Hlt.
  destruct (Z.ltb_spec (len buf) (o + 1)); [unfold len in *; lia |].
  destruct (Z.ltb_spec o 0); [lia |].
  rewrite Hb. reflexivity.
Qed.

Lemma NextBytes_at (n : Z) buf o :
  0 <= n -> 0 <= o -> o + n <= len buf ->
  NextBytes n buf o = Ok (take (Z.to_nat n) (drop (Z.to_nat o) buf), o + n).
Proof.
  intros Hn Ho Hlen. unfold NextBytes.
  destruct (Z.ltb_spec (len buf) (o + n)); [lia |].
  destruct (Z.ltb_spec n 0); [lia |].
  destruct (Z.ltb_spec o 0); [lia |].
  reflexivity.
Qed.

Lemma nextByte_Ok buf o b o' :
  nextByte buf o = Ok (b, o') ->
  0 <= o /\ o < len buf /\ o' = o + 1 /\ buf !! Z.to_nat o = Some b.
Proof. intros H. apply wrapping_Ok in H. apply NextByte_Ok, H. Qed.

Lemma sectionLength_nonneg (b0 b1 : byte) :
  0 <= Z.lor (Z.shiftl (Z.land (u8 b0) 0xf) 8) (u8 b1).
Proof.
  pose proof (u8_range b0). pose proof (u8_range b1).
  apply Z.lor_nonneg. split; [| lia].
  apply Z.shiftl_nonneg, Z.land_nonneg. lia.
Qed.

(** What a successful [parsePSISectionHeader] has read and returns. *)
Lemma parsePSISectionHeader_Ok buf o h os oss ose oe o1 :
  parsePSISectionHeader buf o = Ok ((h, os, oss, ose, oe), o1) ->
  os = o /\ 0 <= o /\
  (exists b, buf !! Z.to_nat o = Some b /\
             TableID h = u8 b /\ TableType h = psiTableType (u8 b)) /\
  (shouldStopPSIParsing (TableType h) = true -> o1 = o + 1) /\
  (shouldStopPSIParsing (TableType h) = false ->
     o1 = o + 3 /\ oss = o + 3 /\ oe = o + 3 + SectionLength h /\
     0 <= SectionLength h /\ o + 3 <= len buf /\
     ose = if hasCRC32 (TableType h) then oe - 4 else oe).
Proof.
  unfold parsePSISectionHeader. intros H.
  apply bind_Ok in H as (o2 & o3 & Hoff & H). injection Hoff as <- <-.
  apply bind_Ok in H as (b & o4 & Hb & H).
  apply nextByte_Ok in Hb as (Ho & Hlt & -> & Hb).
  destruct (shouldStopPSIParsing (psiTableType (u8 b))) eqn:Hstop.
  - injection H as <- <- <- <- <- <-. cbn [TableType TableID].
    split; [reflexivity |]. split; [assumption |]. split; [eauto |].
    split; [reflexivity | congruence].
  - apply bind_Ok in H as (bs2 & o5 & Hbs & H).
    apply nextBytes_Ok in Hbs as (_ & _ & Hlen & -> & _).
    apply bind_Ok in H as (o6 & o7 & Hoff & H). injection Hoff as <- <-.
    injection H as <- <- <- <- <- <-. cbn [TableType TableID SectionLength].
    split; [reflexivity |]. split; [assumption |]. split; [eauto |].
    split; [congruence |]. intros _.
    repeat split; try lia. apply sectionLength_nonneg.
Qed.

Lemma parsePSISectionHeader_stop buf o b :
  0 <= o -> buf !! Z.to_nat o = Some b ->
  shouldStopPSIParsing (psiTableType (u8 b)) = true ->
  parsePSISectionHeader buf o
  = Ok (({| PrivateBit := false; SectionLength := 0; SectionSyntaxIndicator := false;
            TableID := u8 b; TableType := psiTableType (u8 b) |}, o, 0, 0, 0), o + 1).
Proof.
  intros Ho Hb Hstop. unfold parsePSISectionHeader, bind, Offset, nextByte, wrapping.
  rewrite (NextByte_at _ _ _ Ho Hb). cbn [wrapErr]. rewrite Hstop. reflexivity.
Qed.

Lemma parsePSISection_stop buf o b :
  0 <= o -> buf !! Z.to_nat o = Some b ->
  shouldStopPSIParsing (psiTableType (u8 b)) = true ->
  parsePSISection buf o = Ok ((stopSection b, true), o + 1).
Proof.
  intros Ho Hb Hstop. unfold parsePSISection, bind, wrapping.
  rewrite (parsePSISectionHeader_stop _ _ _ Ho Hb Hstop). cbn [wrapErr TableType].
  rewrite Hstop. reflexivity.
Qed.

(** A section that is parsed moves the cursor forward. *)
Lemma parsePSISection_advances buf o s stop o' :
  parsePSISection buf o = Ok ((s, stop), o') -> o < o'.
Proof.
  unfold parsePSISection. intros H.
  apply bind_Ok in H as ([[[[h os] oss] ose] oe] & o1 & Hh & H).
  apply wrapping_Ok in Hh.
  apply parsePSISectionHeader_Ok in Hh as (-> & Ho & _ & Hs & Hn).
  destruct (shouldStopPSIParsing (TableType h)) eqn:Hstop.
  - injection H as <- <- <-. specialize (Hs eq_refl). lia.
  - specialize (Hn eq_refl) as (-> & -> & -> & Hsl & _).
    apply bind_Ok in H as ([syntax crc] & o2 & _ & H).
    apply bind_Ok in H as ([] & o3 & Hseek & H). injection Hseek as <-.
    injection H as <- <- <-. lia.
Qed.

(** The bound [parsePSIData] gives its loop is enough. *)
Lemma parsePSISections_fuel buf :
  forall fuel1 fuel2 sections o,
    (Z.to_nat (len buf - o) <= fuel1)%nat ->
    (Z.to_nat (len buf - o) <= fuel2)%nat ->
    parsePSISections fuel1 sections buf o = parsePSISections fuel2 sections buf o.
Proof.
  induction fuel1 as [| f1 IH]; intros fuel2 sections o H1 H2.
  - destruct fuel2; cbn [parsePSISections];
      destruct (Z.ltb_spec o (len buf)); try reflexivity; lia.
  - destruct fuel2 as [| f2]; cbn [parsePSISections];
      destruct (Z.ltb_spec o (len buf)); try reflexivity; try lia.
    unfold wrapping.
    destruct (parsePSISection buf o) as [[[s stop] o'] | e | x] eqn:E;
      cbn [wrapErr]; try reflexivity.
    destruct stop; [reflexivity |].
    apply parsePSISection_advances in E. apply IH; lia.
Qed.

(** The loop, once it has parsed some sections, goes on as from there. *)
Lemma parsePSISections_parsedUpTo buf o0 sections o :
  parsedUpTo buf o0 sections o ->
  o0 <= o /\
  parsePSISections (Z.to_nat (len buf - o0)) [] buf o0
  = parsePSISections (Z.to_nat (len buf - o)) sections buf o.
Proof.
  induction 1 as [| sections o s o' Hprev [Hle IH] Hlt Hs].
  - split; [lia | reflexivity].
  - pose proof (parsePSISection_advances _ _ _ _ _ Hs) as Hadv.
    split; [lia |]. rewrite IH.
    destruct (Z.to_nat (len buf - o)) as [| f] eqn:Hf; [lia |].
    cbn [parsePSISections].
    destruct (Z.ltb_spec o (len buf)); [| lia].
    unfold wrapping. rewrite Hs. cbn [wrapErr].
    apply parsePSISections_fuel; lia.
Qed.

Lemma shouldStop_iff (t : string) :
  shouldStopPSIParsing t = true <-> t = "Null"%string \/ t = "Unknown"%string.
Proof.
  unfold shouldStopPSIParsing, PSITableTypeNull, PSITableTypeUnknown.
  rewrite orb_true_iff, !String.eqb_eq. reflexivity.
Qed.

(** C9.  When the table identifier at the cursor classifies as Null or
    Unknown, the section parser reads that one byte and nothing more, and
    reports a stop; the loop of [parsePSIData] ends there, whatever bytes
    follow; and [parsePSIData] returns, without error, the sections parsed
    up to that point, followed by the header-only entry of the section that
    stopped it, the cursor resting just behind the table identifier. *)
Theorem parsePSIData_stops_at_null_or_unknown
    (buf : list byte) (ptr b : byte) (sections : list PSISection) (o : Z) :
  buf !! 0%nat = Some ptr ->
  parsedUpTo buf (1 + u8 ptr) sections o ->
  buf !! Z.to_nat o = Some b ->
  psiTableType (u8 b) = "Null"%string \/ psiTableType (u8 b) = "Unknown"%string ->
  parsePSISection buf o = Ok ((stopSection b, true), o + 1) /\
  (forall others, parsePSISections (Z.to_nat (len buf - o)) others buf o
                  = Ok (others ++ [stopSection b], o + 1)) /\
  parsePSIData buf 0
  = Ok ({| PointerField := u8 ptr; Sections := sections ++ [stopSection b] |}, o + 1).
Proof.
  intros Hptr Hparsed Hb Htype.
  apply shouldStop_iff in Htype.
  pose proof (parsePSISections_parsedUpTo _ _ _ _ Hparsed) as [Hle Hloop].
  pose proof (u8_range ptr) as Hr.
  assert (Ho : 0 <= o) by lia.
  pose proof (parsePSISection_stop _ _ _ Ho Hb Htype) as Hstop.
  pose proof (lookup_lt_Some _ _ _ Hb) as Hlt.
  assert (Hstep : forall others,
             parsePSISections (Z.to_nat (len buf - o)) others buf o
             = Ok (others ++ [stopSection b], o + 1)).
  { intros others.
    destruct (Z.to_nat (len buf - o)) as [| f] eqn:Hf; [unfold len in *; lia |].
    cbn [parsePSISections].
    destruct (Z.ltb_spec o (len buf)); [| unfold len in *; lia].
    unfold wrapping. rewrite Hstop. reflexivity. }
  repeat split; [exact Hstop | exact Hstep |].
  unfold parsePSIData, bind, nextByte, wrapping.
  rewrite (NextByte_at buf 0 ptr) by (auto; lia). cbn [wrapErr Skip].
  replace (0 + 1 + u8 ptr) with (1 + u8 ptr) by lia.
  rewrite Hloop, Hstep. reflexivity.
Qed.

End PSIProperties.


Section PSIChecks.
Context {codec : TableCodec}.

Lemma hasCRC32_iff (t : string) : hasCRC32 t = true <-> In t crcTableTypes.
Proof.
  unfold hasCRC32, crcTableTypes, PSITableTypePAT, PSITableTypePMT, PSITableTypeEIT,
    PSITableTypeNIT, PSITableTypeTOT, PSITableTypeSDT.
  rewrite !orb_true_iff, !String.eqb_eq. cbn [In]. intuition congruence.
Qed.

(** The CRC32 check of a section whose bytes are all there. *)
Lemma checkCRC32_spec buf (offsetStart offsetEnd o : Z) :
  0 <= offsetStart -> offsetStart <= offsetEnd - 4 -> offsetEnd <= len buf ->
  checkCRC32 offsetStart (offsetEnd - 4) buf o
  = if crc32_mpeg2 (coveredBytes buf offsetStart offsetEnd) =? storedCRC32 buf offsetEnd
    then Ok (storedCRC32 buf offsetEnd, offsetEnd - 4)
    else Err (ErrCRC32 (storedCRC32 buf offsetEnd)
                       (crc32_mpeg2 (coveredBytes buf offsetStart offsetEnd))).
Proof.
  intros Hs Hle Hlen.
  unfold checkCRC32, bind, Seek, parseCRC32, nextBytes, wrapping, bind.
  rewrite (NextBytes_at 4 buf (offsetEnd - 4)) by lia. cbn [wrapErr ret].
  rewrite (NextBytes_at (offsetEnd - 4 - offsetStart) buf offsetStart) by lia.
  cbn [wrapErr]. unfold lift. rewrite computeCRC32_eq. cbn [wrapErr].
  fold (coveredBytes buf offsetStart offsetEnd).
  change (Z.to_nat 4) with 4%nat. fold (storedCRC32 buf offsetEnd).
  destruct (Z.eqb_spec (crc32_mpeg2 (coveredBytes buf offsetStart offsetEnd))
                       (storedCRC32 buf offsetEnd)) as [Heq | Hne]; cbn [negb].
  - unfold ret. f_equal. f_equal. lia.
  - reflexivity.
Qed.

(** C2 (as amended).  A section whose header and syntax have been parsed,
    of positive length and held in full by the buffer:
    when its table type is one of PAT, PMT, EIT, NIT, TOT, SDT, the stored
    CRC32 is the big-endian value of the four bytes before the end of the
    section, the computed one is the MPEG-2 CRC32 of the bytes from the
    first header byte up to those four, and [parsePSISection] returns an
    error exactly when the two differ, the error naming both; it returns
    the section, with the stored value, when they agree.
    When its table type is any other, the section is returned with no
    CRC32 read or computed. *)
Theorem parsePSISection_crc32 buf o h os oss ose oe o1 syntax o2 :
  parsePSISectionHeader buf o = Ok ((h, os, oss, ose, oe), o1) ->
  shouldStopPSIParsing (TableType h) = false ->
  0 < SectionLength h ->
  parsePSISectionSyntax h ose buf o1 = Ok (syntax, o2) ->
  (In (TableType h) crcTableTypes -> oe <= len buf ->
     let stored := storedCRC32 buf oe in
     let computed := crc32_mpeg2 (coveredBytes buf o oe) in
     computeCRC32 (coveredBytes buf o oe) = Ok computed /\
     ((exists e, parsePSISection buf o = Err e) <-> computed <> stored) /\
     (computed <> stored -> parsePSISection buf o = Err (ErrCRC32 stored computed)) /\
     (computed = stored ->
      parsePSISection buf o
      = Ok (({| CRC32 := stored; Header := Some h; Syntax := Some syntax |}, false), oe)))
  /\
  (~ In (TableType h) crcTableTypes ->
     parsePSISection buf o
     = Ok (({| CRC32 := 0; Header := Some h; Syntax := Some syntax |}, false), oe)).
Proof.
  intros Hh Hstop Hlen Hsyn.
  pose proof (parsePSISectionHeader_Ok _ _ _ _ _ _ _ _ Hh) as (-> & Ho & _ & _ & Hn).
  specialize (Hn Hstop) as (-> & -> & Hoe & _ & Hbuf & Hose).
  assert (Hrun :
    parsePSISection buf o
    = if hasCRC32 (TableType h) then
        match checkCRC32 o ose buf o2 with
        | Ok (stored, _) =>
            Ok (({| CRC32 := stored; Header := Some h; Syntax := Some syntax |}, false), oe)
        | Err e => Err e
        | Abn x => Abn x
        end
      else Ok (({| CRC32 := 0; Header := Some h; Syntax := Some syntax |}, false), oe)).
  { unfold parsePSISection, bind, wrapping. rewrite Hh. cbn [wrapErr].
    rewrite Hstop.
    destruct (Z.ltb_spec 0 (SectionLength h)); [| lia].
    rewrite Hsyn. cbn [wrapErr].
    destruct (hasCRC32 (TableType h)); [| reflexivity].
    destruct (checkCRC32 o ose buf o2) as [[stored o3] | e | x]; reflexivity. }
  split.
  - intros Hin Hfull stored computed.
    apply hasCRC32_iff in Hin. rewrite Hin in Hrun, Hose. subst ose.
    rewrite checkCRC32_spec in Hrun by lia.
    fold stored computed in Hrun.
    split; [apply computeCRC32_eq |].
    destruct (Z.eqb_spec computed stored) as [Heq | Hne].
    + repeat split.
      * intros [e He]. rewrite Hrun in He. discriminate.
      * intros Hne. contradiction.
      * intros Hne. contradiction.
      * intros _. exact Hrun.
    + repeat split.
      * intros _. exact Hne.
      * intros _. eexists. exact Hrun.
      * intros _. exact Hrun.
      * intros Heq. contradiction.
  - intros Hnot.
    destruct (hasCRC32 (TableType h)) eqn:Hcrc; [| exact Hrun].
    apply hasCRC32_iff in Hcrc. contradiction.
Qed.

(** When a section fails, the loop of [parsePSIData] returns the error at
    once, with nothing of what follows in the payload looked at. *)
Lemma parsePSISections_error buf o e (sections : list PSISection) :
  o < len buf ->
  parsePSISection buf o = Err e ->
  parsePSISections (Z.to_nat (len buf - o)) sections buf o
  = Err (ErrWrap "astits: parsing PSI table failed" e).
Proof.
  intros Hlt He.
  destruct (Z.to_nat (len buf - o)) as [| f] eqn:Hf; [lia |].
  cbn [parsePSISections]. destruct (Z.ltb_spec o (len buf)); [| lia].
  unfold wrapping. rewrite He. reflexivity.
Qed.

Lemma parsePSIData_error buf (ptr : byte) (sections : list PSISection) o e :
  buf !! 0%nat = Some ptr ->
  parsedUpTo buf (1 + u8 ptr) sections o ->
  o < len buf ->
  parsePSISection buf o = Err e ->
  parsePSIData buf 0 = Err (ErrWrap "astits: parsing PSI table failed" e).
Proof.
  intros Hptr Hparsed Hlt He.
  pose proof (parsePSISections_parsedUpTo _ _ _ _ Hparsed) as [Hle Hloop].
  unfold parsePSIData, bind, nextByte, wrapping.
  rewrite (NextByte_at buf 0 ptr) by (auto; lia). cbn [wrapErr Skip].
  replace (0 + 1 + u8 ptr) with (1 + u8 ptr) by lia.
  rewrite Hloop, (parsePSISections_error _ _ _ _ Hlt He). reflexivity.
Qed.

End PSIChecks.


(* ----------------------------------------------------------------- *)
(** ** The demuxer *)

Section DemuxProperties.
Context {codec : TableCodec} {env : DemuxerEnv}.

Lemma learnPrograms_fold (ds : list (Data PESData)) : forall m,
  fold_left learnPrograms ds m = fold_left learn (patPrograms ds) m.
Proof.
  induction ds as [| v ds IH]; intros m; [reflexivity |].
  cbn [fold_left patPrograms flat_map]. rewrite fold_left_app.
  rewrite IH. f_equal. unfold learnPrograms.
  destruct (Data_PAT v); reflexivity.
Qed.

Lemma In_patPrograms (ds : list (Data PESData)) (pgm : PATProgram) :
  In pgm (patPrograms ds) <->
  exists v pat, In v ds /\ Data_PAT v = Some pat /\ In pgm (Programs pat).
Proof.
  unfold patPrograms. rewrite in_flat_map. split.
  - intros (v & Hv & Hp). destruct (Data_PAT v) as [pat |] eqn:E; [| contradiction].
    eauto.
  - intros (v & pat & Hv & E & Hp). exists v. rewrite E. auto.
Qed.

(** Every entry of the map after the programs are learned is an entry it
    had before, or the entry of a program with a positive number. *)
Lemma learn_lookup (pgms : list PATProgram) : forall (m : ProgramMap) pid n,
  fold_left learn pgms m !! pid = Some n ->
  m !! pid = Some n \/
  exists pgm, In pgm pgms /\ 0 < ProgramNumber pgm /\
              ProgramMapID pgm = pid /\ ProgramNumber pgm = n.
Proof.
  induction pgms as [| p pgms IH]; intros m pid n H; [left; exact H |].
  cbn [fold_left] in H. apply IH in H as [H | (pgm & Hin & Hp)].
  - unfold learn, ProgramMap_Set in H.
    destruct (Z.ltb_spec 0 (ProgramNumber p)) as [Hpos | Hzero]; [| left; exact H].
    destruct (decide (ProgramMapID p = pid)) as [<- | Hne].
    + rewrite lookup_insert_eq in H. injection H as <-.
      right. exists p. cbn [In]. auto.
    + rewrite lookup_insert_ne in H by exact Hne. left. exact H.
  - right. exists pgm. cbn [In]. tauto.
Qed.

(** An entry, once in the map, is never removed by learning programs; and
    the PID of a program with a positive number is in the map afterwards. *)
Lemma learn_keeps (pgms : list PATProgram) : forall (m : ProgramMap) pid,
  is_Some (m !! pid) -> is_Some (fold_left learn pgms m !! pid).
Proof.
  induction pgms as [| p pgms IH]; intros m pid H; [exact H |].
  cbn [fold_left]. apply IH. unfold learn, ProgramMap_Set.
  destruct (0 <? ProgramNumber p); [| exact H].
  destruct (decide (ProgramMapID p = pid)) as [<- | Hne].
  - rewrite lookup_insert_eq. eauto.
  - rewrite lookup_insert_ne by exact Hne. exact H.
Qed.

Lemma learn_has (pgms : list PATProgram) : forall (m : ProgramMap) pgm,
  In pgm pgms -> 0 < ProgramNumber pgm ->
  is_Some (fold_left learn pgms m !! ProgramMapID pgm).
Proof.
  induction pgms as [| p pgms IH]; intros m pgm Hin Hpos; [contradiction |].
  cbn [fold_left]. destruct Hin as [-> | Hin].
  - apply learn_keeps. unfold learn, ProgramMap_Set.
    destruct (Z.ltb_spec 0 (ProgramNumber pgm)); [| lia].
    rewrite lookup_insert_eq. eauto.
  - apply IH; assumption.
Qed.

(** When no later program with a positive number has the PID, the entry is
    the program's own number. *)
Lemma learn_other (pgms : list PATProgram) : forall (m : ProgramMap) pid,
  (forall pgm, In pgm pgms -> 0 < ProgramNumber pgm -> ProgramMapID pgm <> pid) ->
  fold_left learn pgms m !! pid = m !! pid.
Proof.
  induction pgms as [| p pgms IH]; intros m pid Hfree; [reflexivity |].
  cbn [fold_left]. rewrite IH by (intros; apply Hfree; cbn [In]; auto).
  unfold learn, ProgramMap_Set.
  destruct (Z.ltb_spec 0 (ProgramNumber p)) as [Hpos | Hzero]; [| reflexivity].
  apply lookup_insert_ne. apply Hfree; cbn [In]; auto.
Qed.

Lemma learn_last (pgms1 pgms2 : list PATProgram) (pgm : PATProgram) (m : ProgramMap) :
  0 < ProgramNumber pgm ->
  (forall q, In q pgms2 -> 0 < ProgramNumber q -> ProgramMapID q <> ProgramMapID pgm) ->
  fold_left learn (pgms1 ++ pgm :: pgms2) m !! ProgramMapID pgm
  = Some (ProgramNumber pgm).
Proof.
  intros Hpos Hfree. rewrite fold_left_app. cbn [fold_left].
  rewrite learn_other by exact Hfree.
  unfold learn, ProgramMap_Set.
  destruct (Z.ltb_spec 0 (ProgramNumber pgm)); [| lia].
  apply lookup_insert_eq.
Qed.

(** C7.  After [updateData] has processed data units, the program map has
    an entry keyed by the PID of every program, of every PAT among them,
    whose program number is positive; the entry is that program's number
    when no later such program has the same PID; and every entry of the
    map is one it had before or the (PID, number) of a program with a
    positive number: none comes from a program with number 0. *)
Theorem updateData_program_map (dmx : Demuxer) (ds : list (Data PESData)) :
  let dmx' := snd (updateData dmx ds) in
  (forall v pat pgm,
      In v ds -> Data_PAT v = Some pat -> In pgm (Programs pat) ->
      0 < ProgramNumber pgm ->
      is_Some (programMap dmx' !! ProgramMapID pgm)) /\
  (forall before pgm after,
      patPrograms ds = before ++ pgm :: after ->
      0 < ProgramNumber pgm ->
      (forall q, In q after -> 0 < ProgramNumber q -> ProgramMapID q <> ProgramMapID pgm) ->
      programMap dmx' !! ProgramMapID pgm = Some (ProgramNumber pgm)) /\
  (forall pid n,
      programMap dmx' !! pid = Some n ->
      programMap dmx !! pid = Some n \/
      exists v pat pgm,
        In v ds /\ Data_PAT v = Some pat /\ In pgm (Programs pat) /\
        0 < ProgramNumber pgm /\ ProgramMapID pgm = pid /\ ProgramNumber pgm = n).
Proof.
  destruct ds as [| d rest].
  - cbn. repeat split.
    + intros v pat pgm [].
    + intros [| ? ?] pgm after Hsplit; discriminate.
    + intros pid n H. left. exact H.
  - cbn [updateData snd setProgramMap programMap setDataBuffer].
    rewrite learnPrograms_fold. repeat split.
    + intros v pat pgm Hv Hpat Hpgm Hpos.
      apply learn_has; [| exact Hpos]. apply In_patPrograms. eauto.
    + intros before pgm after Hsplit Hpos Hfree. rewrite Hsplit.
      apply learn_last; assumption.
    + intros pid n H. apply learn_lookup in H as [H | (pgm & Hin & Hp)]; [left; exact H |].
      right. apply In_patPrograms in Hin as (v & pat & Hv & Hpat & Hpgm).
      exists v, pat, pgm. tauto.
Qed.

End DemuxProperties.


Section DemuxFlow.
Context {codec : TableCodec} {env : DemuxerEnv}.

Lemma setDataBuffer_twice (dmx : Demuxer) (b1 b2 : list (Data PESData)) :
  setDataBuffer (setDataBuffer dmx b1) b2 = setDataBuffer dmx b2.
Proof. reflexivity. Qed.

(** Reading a packet leaves the data buffer, the program map and the
    packets parser as they are. *)
Lemma NextPacket_keeps (dmx dmx' : Demuxer) (res : Res Packet) :
  NextPacket dmx = (res, dmx') ->
  dataBuffer dmx' = dataBuffer dmx /\ programMap dmx' = programMap dmx /\
  optPacketsParser dmx' = optPacketsParser dmx /\ packetPool dmx' = packetPool dmx.
Proof.
  unfold NextPacket. destruct (ctx_Err (ctx dmx)) as [[err |] c].
  { intros [= <- <-]. repeat split. }
  cbn [packetBuffer setCtx r optPacketSize].
  destruct (packetBuffer dmx) as [pb |].
  - destruct (packetBuffer_next pb) as [[p | err | x] pb'];
      [| destruct (isErrNoMorePackets err) |];
      intros [= <- <-]; repeat split.
  - destruct (newPacketBuffer (r dmx) (optPacketSize dmx)) as [[pb | err | x] reader].
    + destruct (packetBuffer_next pb) as [[p | err | x] pb'];
        [| destruct (isErrNoMorePackets err) |];
        intros [= <- <-]; repeat split.
    + intros [= <- <-]. repeat split.
    + intros [= <- <-]. repeat split.
Qed.

Lemma completes_keeps (dmx dmx' : Demuxer) (ps : list Packet) :
  completes dmx ps dmx' ->
  dataBuffer dmx' = dataBuffer dmx /\ programMap dmx' = programMap dmx /\
  optPacketsParser dmx' = optPacketsParser dmx.
Proof.
  intros (p & dmx1 & pool & Hnext & _ & _ & ->).
  apply NextPacket_keeps in Hnext as (? & ? & ? & _). repeat split; assumption.
Qed.

Lemma reads_keeps (dmx dmx' : Demuxer) (k : nat) :
  reads dmx k dmx' ->
  dataBuffer dmx' = dataBuffer dmx /\ programMap dmx' = programMap dmx /\
  optPacketsParser dmx' = optPacketsParser dmx.
Proof.
  induction 1 as [dmx | dmx dmx1 dmx' p pool k Hnext Hadd Hrest IH
                 | dmx dmx1 dmx' p ps pool k Hnext Hadd Hne Hparse Hrest IH].
  - repeat split.
  - apply NextPacket_keeps in Hnext as (H1 & H2 & H3 & _).
    destruct IH as (I1 & I2 & I3). cbn in I1, I2, I3.
    repeat split; congruence.
  - apply NextPacket_keeps in Hnext as (H1 & H2 & H3 & _).
    destruct IH as (I1 & I2 & I3). cbn in I1, I2, I3.
    repeat split; congruence.
Qed.

(** The loop over the packets passes over the packets that bring no data. *)
Lemma packetLoop_reads (dmx dmx' : Demuxer) (k : nat) :
  reads dmx k dmx' ->
  forall fuel, packetLoop (k + fuel) dmx = packetLoop fuel dmx'.
Proof.
  induction 1 as [dmx | dmx dmx1 dmx' p pool k Hnext Hadd Hrest IH
                 | dmx dmx1 dmx' p ps pool k Hnext Hadd Hne Hparse Hrest IH];
    intros fuel.
  - reflexivity.
  - cbn [Nat.add packetLoop]. rewrite Hnext, Hadd. apply IH.
  - cbn [Nat.add packetLoop]. rewrite Hnext, Hadd.
    destruct ps as [| p0 ps]; [contradiction |].
    cbn [optPacketsParser programMap setPacketPool]. rewrite Hparse.
    cbn [updateData]. apply IH.
Qed.

(** The calls that follow empty the data buffer, unit by unit and in order,
    and touch nothing else of the demuxer: no packet is read. *)
Lemma NextDataTimes_drains (fuel : nat) (units : list (Data PESData)) :
  forall dmx,
    dataBuffer dmx = units ->
    NextDataTimes fuel (length units) dmx
    = Some (map unitReturned units, setDataBuffer dmx []).
Proof.
  induction units as [| d units IH]; intros dmx Hbuf.
  - cbn. f_equal. f_equal. destruct dmx; cbn in *. subst. reflexivity.
  - cbn [length NextDataTimes]. unfold NextData. rewrite Hbuf.
    rewrite (IH (setDataBuffer dmx units)) by reflexivity.
    rewrite setDataBuffer_twice. reflexivity.
Qed.

Lemma flushes_keeps (dmx dmx' : Demuxer) (ps : list Packet) :
  flushes dmx ps dmx' ->
  dataBuffer dmx' = dataBuffer dmx /\ programMap dmx' = programMap dmx /\
  optPacketsParser dmx' = optPacketsParser dmx.
Proof.
  intros (dmx1 & pool & Hnext & _ & _ & ->).
  apply NextPacket_keeps in Hnext as (? & ? & ? & _). repeat split; assumption.
Qed.

(** C8.  When the packet group that [NextData] obtains, from the packet
    that completes it or from the pool at the end of the stream, yields
    several data units, the call returns the first of them, without error,
    and leaves the others in the data buffer in their order; the following
    calls, as many as there are units left, return these one by one in
    that order and read no packet: they leave the context, the reader, the
    packet buffer, the packet pool and the program map as the first call
    left them. *)
Theorem NextData_returns_first_and_buffers_rest
    (dmx dmx0 dmx1 : Demuxer) (k : nat) (ps : list Packet)
    (d : Data PESData) (rest : list (Data PESData)) (fuel : nat) :
  dataBuffer dmx = [] ->
  reads dmx k dmx0 ->
  completes dmx0 ps dmx1 \/ flushes dmx0 ps dmx1 ->
  ParseData ps (optPacketsParser dmx1) (programMap dmx1) = Ok (d :: rest) ->
  let dmx2 := snd (updateData dmx1 (d :: rest)) in
  NextData (k + S (S fuel)) dmx = Returns (Some d) None dmx2 /\
  dataBuffer dmx2 = rest /\
  forall fuel',
    NextDataTimes fuel' (length rest) dmx2
    = Some (map unitReturned rest, setDataBuffer dmx2 []).
Proof.
  intros Hbuf Hreads Hgroup Hparse dmx2.
  pose proof (reads_keeps _ _ _ Hreads) as (Hb0 & _ & _).
  assert (Hb1 : dataBuffer dmx1 = dataBuffer dmx0).
  { destruct Hgroup as [H | H];
      [apply completes_keeps in H | apply flushes_keeps in H]; tauto. }
  assert (Hrest : dataBuffer dmx2 = rest).
  { subst dmx2. cbn. rewrite Hb1, Hb0, Hbuf. reflexivity. }
  repeat split; [| exact Hrest | intros fuel'; apply NextDataTimes_drains, Hrest].
  unfold NextData. rewrite Hbuf.
  rewrite (packetLoop_reads _ _ _ Hreads).
  destruct Hgroup as [(p & dmx' & pool & Hnext & Hadd & Hne & ->)
                     | (dmx' & pool & Hnext & Hdump & Hne & ->)].
  - cbn [packetLoop]. rewrite Hnext, Hadd.
    destruct ps as [| p0 ps]; [contradiction |].
    cbn [optPacketsParser programMap setPacketPool] in *. rewrite Hparse.
    reflexivity.
  - cbn [packetLoop]. rewrite Hnext. cbn [isErrNoMorePackets dumpLoop].
    rewrite Hdump.
    destruct ps as [| p0 ps]; [contradiction |].
    cbn [optPacketsParser programMap setPacketPool] in *. rewrite Hparse.
    reflexivity.
Qed.

(** When [ParseData] fails on the group a packet completes, [NextData]
    returns that error, wrapped, from the current call. *)
Lemma NextData_parse_error
    (dmx dmx0 dmx1 : Demuxer) (k : nat) (ps : list Packet) (e : error) (fuel : nat) :
  dataBuffer dmx = [] ->
  reads dmx k dmx0 ->
  completes dmx0 ps dmx1 ->
  ParseData ps (optPacketsParser dmx1) (programMap dmx1) = Err e ->
  NextData (k + S fuel) dmx
  = Returns None (Some (ErrWrap "astits: building new data failed" e)) dmx1 /\
  dataBuffer dmx1 = [] /\
  programMap dmx1 = programMap dmx.
Proof.
  intros Hbuf Hreads Hcompletes Hparse.
  pose proof (reads_keeps _ _ _ Hreads) as (Hb0 & Hm0 & _).
  pose proof (completes_keeps _ _ _ Hcompletes) as (Hb1 & Hm1 & _).
  repeat split; [| congruence | congruence].
  unfold NextData. rewrite Hbuf.
  rewrite (packetLoop_reads _ _ _ Hreads).
  destruct Hcompletes as (p & dmx' & pool & Hnext & Hadd & Hne & ->).
  cbn [packetLoop]. rewrite Hnext, Hadd.
  destruct ps as [| p0 ps]; [contradiction |].
  cbn [optPacketsParser programMap setPacketPool] in *. rewrite Hparse.
  reflexivity.
Qed.

(** C3 (as amended).  A CRC32 mismatch fails the payload it occurs in.
    [parsePSIData] stops at the section whose check fails and returns the
    error, whatever sections were parsed before it and whatever follows it
    in the payload.  When [ParseData] reports an error for the packet group
    a packet completes, [NextData] returns that error, wrapped, from the
    current call; it leaves the data buffer empty and the program map
    unchanged, and the demuxer it leaves is the one that has consumed the
    packets so far, from which later calls go on. *)
Theorem crc32_mismatch_fails_the_payload :
  (forall (buf : list byte) (ptr : byte) (sections : list PSISection) (o : Z)
          (stored computed : Z),
      buf !! 0%nat = Some ptr ->
      parsedUpTo buf (1 + u8 ptr) sections o ->
      o < len buf ->
      parsePSISection buf o = Err (ErrCRC32 stored computed) ->
      parsePSIData buf 0
      = Err (ErrWrap "astits: parsing PSI table failed" (ErrCRC32 stored computed))) /\
  (forall (dmx dmx0 dmx1 : Demuxer) (k : nat) (ps : list Packet) (e : error) (fuel : nat),
      dataBuffer dmx = [] ->
      reads dmx k dmx0 ->
      completes dmx0 ps dmx1 ->
      ParseData ps (optPacketsParser dmx1) (programMap dmx1) = Err e ->
      NextData (k + S fuel) dmx
      = Returns None (Some (ErrWrap "astits: building new data failed" e)) dmx1 /\
      dataBuffer dmx1 = [] /\
      programMap dmx1 = programMap dmx).
Proof.
  split.
  - intros buf ptr sections o stored computed. apply parsePSIData_error.
  - apply NextData_parse_error.
Qed.

End DemuxFlow.


(* ----------------------------------------------------------------- *)
(** ** Serialising PSI data *)

Section SerialiseProperties.
Context {codec : TableCodec}.

Lemma wbind_Ok {A B : Type} (m : Writer A) (k : A -> Writer B) b r b' :
  wbind m k b = (Ok r, b') ->
  exists a b1, m b = (Ok a, b1) /\ k a b1 = (Ok r, b').
Proof.
  unfold wbind. destruct (m b) as [[a | e | x] b1]; [eauto | discriminate ..].
Qed.

Lemma keepsLength_wret {A : Type} (a : A) : keepsLength (wret a).
Proof. intros b a' b' [= <- <-]. reflexivity. Qed.

Lemma keepsLength_wbind {A B : Type} (m : Writer A) (k : A -> Writer B) :
  keepsLength m -> (forall a, keepsLength (k a)) -> keepsLength (wbind m k).
Proof.
  intros Hm Hk b r b' H. apply wbind_Ok in H as (a & b1 & H1 & H2).
  apply Hm in H1. apply Hk in H2. congruence.
Qed.

Lemma store_Ok (k : Z) (v : byte) b a b' :
  store k v b = (Ok a, b') -> 0 <= k < len b /\ b' = <[Z.to_nat k := v]> b.
Proof.
  unfold store.
  destruct (Z.leb_spec 0 k), (Z.ltb_spec k (len b)); cbn [andb];
    intros [= <- <-] || discriminate. split; [lia | reflexivity].
Qed.

Lemma keepsLength_store (k : Z) (v : byte) : keepsLength (store k v).
Proof.
  intros b a b' H. apply store_Ok in H as [_ ->]. apply length_insert.
Qed.

Lemma within_Ok {A : Type} (idx : Z) (w : Writer A) b n b' :
  within idx w b = (Ok n, b') ->
  0 <= idx <= len b /\
  exists sub, w (drop (Z.to_nat idx) b) = (Ok n, sub) /\
              b' = take (Z.to_nat idx) b ++ sub.
Proof.
  unfold within.
  destruct (Z.leb_spec 0 idx), (Z.leb_spec idx (len b)); cbn [andb];
    try discriminate.
  destruct (w (drop (Z.to_nat idx) b)) as [r sub]. intros [= -> <-].
  split; [lia | eauto].
Qed.

Lemma keepsLength_within {A : Type} (idx : Z) (w : Writer A) :
  keepsLength w -> keepsLength (within idx w).
Proof.
  intros Hw b a b' H. apply within_Ok in H as (Hidx & sub & Hsub & ->).
  apply Hw in Hsub. rewrite length_app, Hsub, length_take, length_drop.
  unfold len in Hidx. lia.
Qed.

Lemma within_writes (idx : Z) (w : Writer Z) b n b' :
  writesWithin w ->
  within idx w b = (Ok n, b') ->
  0 <= idx /\ 0 <= n /\ idx + n <= len b /\ length b' = length b.
Proof.
  intros Hw H. pose proof (keepsLength_within idx w) as Hk.
  assert (Hlen : length b' = length b).
  { apply (Hk (fun b0 a b1 E => proj2 (Hw b0 a b1 E)) _ _ _ H). }
  apply within_Ok in H as (Hidx & sub & Hsub & _).
  apply Hw in Hsub as [Hn _]. unfold len in *. rewrite length_drop in Hn.
  repeat split; lia.
Qed.

(** A chain of stores that succeeded: every index was in range, and the
    slice after it is the one before with the bytes replaced. *)
Ltac stores H :=
  repeat (let Hs := fresh "Hs" in
          apply wbind_Ok in H as (? & ? & Hs & H);
          apply store_Ok in Hs as [? ->]);
  injection H as <- <-;
  unfold len in *; rewrite ?length_insert in *.

Lemma PSISectionHeader_Serialise_Ok (h : PSISectionHeader) b n b' :
  PSISectionHeader_Serialise h b = (Ok n, b') ->
  length b' = length b /\ (n = 0 \/ (n = 3 /\ 3 <= len b)).
Proof.
  unfold PSISectionHeader_Serialise.
  destruct (TableID h =? 255); [intros [= <- <-]; auto |].
  destruct (Z.ltb_spec (len b) 3) as [| Hroom]; [discriminate |].
  intros H. stores H. split; [reflexivity | right; lia].
Qed.

Lemma PSISectionSyntaxHeader_Serialise_writes (sh : PSISectionSyntaxHeader) :
  writesWithin (PSISectionSyntaxHeader_Serialise sh).
Proof.
  intros b n b'. unfold PSISectionSyntaxHeader_Serialise.
  destruct (Z.ltb_spec (len b) 5) as [| Hroom]; [discriminate |].
  cbv zeta. intros H. stores H. split; [lia | reflexivity].
Qed.

Context {writes : CodecWrites}.

Lemma PSISectionSyntaxData_Serialise_writes (sd : PSISectionSyntaxData) :
  writesWithin (PSISectionSyntaxData_Serialise sd).
Proof.
  unfold PSISectionSyntaxData_Serialise.
  destruct (PAT sd) as [pat |]; [apply PATData_writes |].
  destruct (PMT sd) as [pmt |]; [apply PMTData_writes |].
  intros b n b' [= <- <-]. split; [pose proof (len_nonneg b); lia | reflexivity].
Qed.

Lemma PSISectionSyntax_Serialise_writes (s : PSISectionSyntax) :
  writesWithin (PSISectionSyntax_Serialise s).
Proof.
  intros b n b'. unfold PSISectionSyntax_Serialise.
  destruct (Z.eqb_spec (len b) 0) as [| Hroom]; [discriminate |].
  cbv zeta. intros H.
  apply wbind_Ok in H as (idx1 & b1 & H1 & H).
  apply wbind_Ok in H as (idx2 & b2 & H2 & H). injection H as <- <-.
  assert (Hs1 : 0 <= idx1 <= len b /\ length b1 = length b).
  { destruct (SyntaxHeader s) as [sh |].
    - apply wbind_Ok in H1 as (n1 & b0 & Hw & H1). injection H1 as <- <-.
      apply within_writes in Hw; [| apply PSISectionSyntaxHeader_Serialise_writes].
      lia.
    - injection H1 as <- <-. pose proof (len_nonneg b). split; [lia | reflexivity]. }
  destruct Hs1 as [Hidx1 Hl1].
  destruct (SyntaxData s) as [sd |].
  - apply wbind_Ok in H2 as (n2 & b0 & Hw & H2). injection H2 as <- <-.
    apply within_writes in Hw as (? & ? & ? & ?);
      [| apply PSISectionSyntaxData_Serialise_writes].
    unfold len in *. split; [lia | congruence].
  - injection H2 as <- <-. split; [lia | congruence].
Qed.

Lemma appendCRC32_Ok (idx : Z) b n b' :
  appendCRC32 idx b = (Ok n, b') ->
  n = idx + 4 /\ idx + 4 <= len b /\ length b' = length b.
Proof.
  unfold appendCRC32.
  destruct (wrapErr _ (NextBytes idx b 0)) as [[data o] | e | x]; try discriminate.
  destruct (wrapErr _ (computeCRC32 data)) as [crc | e | x]; try discriminate.
  intros H. stores H. repeat split; lia.
Qed.

Lemma PSISection_Serialise_writes (s : PSISection) :
  writesWithin (PSISection_Serialise s).
Proof.
  intros b n b'. unfold PSISection_Serialise.
  destruct (Header s) as [h |]; [| discriminate].
  destruct (TableID h =? 255).
  { intros [= <- <-]. pose proof (len_nonneg b). split; [lia | reflexivity]. }
  destruct (Z.leb_spec (len b) 3) as [| Hroom]; [discriminate |].
  cbv zeta. intros H.
  apply wbind_Ok in H as (idx1 & b1 & H1 & H).
  apply wbind_Ok in H as (n0 & b2 & H2 & H).
  assert (Hs1 : 3 <= idx1 <= len b /\ length b1 = length b).
  { destruct (Syntax s) as [syntax |].
    - apply wbind_Ok in H1 as (n1 & b0 & Hw & H1). injection H1 as <- <-.
      apply within_writes in Hw; [| apply PSISectionSyntax_Serialise_writes].
      lia.
    - injection H1 as <- <-. split; [lia | reflexivity]. }
  destruct Hs1 as [Hidx1 Hl1].
  assert (Hl2 : length b2 = length b1).
  { apply within_Ok in H2 as (_ & sub & Hsub & ->).
    apply PSISectionHeader_Serialise_Ok in Hsub as [Hsub _].
    rewrite drop_0 in Hsub. cbn. exact Hsub. }
  cbn [TableType] in H.
  destruct (hasCRC32 (TableType h)).
  - apply appendCRC32_Ok in H as (-> & Hcrc & Hl3).
    unfold len in *. split; [lia | congruence].
  - injection H as <- <-. unfold len in *. split; [lia | congruence].
Qed.

Lemma PSISection_Serialise_null (s : PSISection) (h : PSISectionHeader) (sub : list byte) :
  Header s = Some h -> TableID h = 255 ->
  PSISection_Serialise s sub = (Ok 0, sub).
Proof.
  intros Hh Hid. unfold PSISection_Serialise. rewrite Hh, Hid. reflexivity.
Qed.

Lemma stores_3 (x y z : byte) (b : list byte) :
  (3 <= length b)%nat ->
  <[2%nat := z]> (<[1%nat := y]> (<[0%nat := x]> b)) = [x; y; z] ++ drop 3 b.
Proof.
  destruct b as [| ? [| ? [| ? b]]]; cbn; intros; first [lia | reflexivity].
Qed.

Lemma stores_5 (v w x y z : byte) (b : list byte) :
  (5 <= length b)%nat ->
  <[4%nat := z]> (<[3%nat := y]> (<[2%nat := x]> (<[1%nat := w]> (<[0%nat := v]> b))))
  = [v; w; x; y; z] ++ drop 5 b.
Proof.
  destruct b as [| ? [| ? [| ? [| ? [| ? b]]]]]; cbn; intros; first [lia | reflexivity].
Qed.

Lemma stores_4_at (k : nat) (w x y z : byte) (b : list byte) :
  (k + 4 <= length b)%nat ->
  <[(k + 3)%nat := z]> (<[(k + 2)%nat := y]> (<[(k + 1)%nat := x]> (<[k := w]> b)))
  = take k b ++ [w; x; y; z] ++ drop (k + 4) b.
Proof.
  revert b. induction k as [| k IH]; intros b Hlen.
  - destruct b as [| ? [| ? [| ? [| ? b]]]]; cbn in *; first [lia | reflexivity].
  - destruct b as [| a b]; cbn in *; [lia |]. f_equal. apply IH. lia.
Qed.

Lemma PSISectionHeader_Serialise_bytes (h : PSISectionHeader) b n b' :
  TableID h <> 255 ->
  PSISectionHeader_Serialise h b = (Ok n, b') ->
  n = 3 /\ 3 <= len b /\ b' = headerBytes h (SectionLength h) ++ drop 3 b.
Proof.
  intros Hid. unfold PSISectionHeader_Serialise.
  destruct (Z.eqb_spec (TableID h) 255); [contradiction |].
  destruct (Z.ltb_spec (len b) 3) as [| Hroom]; [discriminate |].
  intros H. stores H. repeat split; [lia |].
  change (Z.to_nat 0) with 0%nat. change (Z.to_nat 1) with 1%nat.
  change (Z.to_nat 2) with 2%nat. apply stores_3. lia.
Qed.

Lemma PSISectionSyntaxHeader_Serialise_bytes (sh : PSISectionSyntaxHeader) b n b' :
  PSISectionSyntaxHeader_Serialise sh b = (Ok n, b') ->
  n = 5 /\ 5 <= len b /\ b' = syntaxHeaderBytes sh ++ drop 5 b.
Proof.
  unfold PSISectionSyntaxHeader_Serialise.
  destruct (Z.ltb_spec (len b) 5) as [| Hroom]; [discriminate |].
  cbv zeta. intros H. stores H. repeat split; [lia |].
  change (Z.to_nat 0) with 0%nat. change (Z.to_nat 1) with 1%nat.
  change (Z.to_nat 2) with 2%nat. change (Z.to_nat 3) with 3%nat.
  change (Z.to_nat 4) with 4%nat. apply stores_5. lia.
Qed.

Lemma PSISectionSyntax_Serialise_bytes (syntax : PSISectionSyntax) b n b' :
  PSISectionSyntax_Serialise syntax b = (Ok n, b') ->
  exists body,
    syntaxBytes (Some syntax) b body /\ len body = n /\ take (Z.to_nat n) b' = body.
Proof.
  unfold PSISectionSyntax_Serialise, syntaxBytes.
  destruct (Z.eqb_spec (len b) 0) as [| Hroom]; [discriminate |].
  cbv zeta. intros H.
  apply wbind_Ok in H as (idx1 & b1 & H1 & H).
  apply wbind_Ok in H as (idx2 & b2 & H2 & H). injection H as <- <-.
  set (hb := match SyntaxHeader syntax with
             | Some sh => syntaxHeaderBytes sh
             | None => []
             end) in *.
  assert (Hs1 : idx1 = len hb /\ b1 = hb ++ drop (length hb) b /\
                (length hb <= length b)%nat).
  { subst hb. destruct (SyntaxHeader syntax) as [sh |].
    - apply wbind_Ok in H1 as (n1 & b0 & Hw & H1). injection H1 as <- <-.
      apply within_Ok in Hw as (_ & sub & Hsub & ->).
      apply PSISectionSyntaxHeader_Serialise_bytes in Hsub as (-> & Hlen & ->).
      change (Z.to_nat 0) with 0%nat in *. rewrite drop_0 in *.
      unfold len in *. cbn [take app length syntaxHeaderBytes].
      repeat split; [lia]. 
    - injection H1 as <- <-. cbn. rewrite drop_0. repeat split; lia. }
  destruct Hs1 as (-> & -> & Hhb).
  assert (Hdrop : drop (Z.to_nat (len hb)) (hb ++ drop (length hb) b) = drop (length hb) b).
  { unfold len. rewrite Nat2Z.id. apply drop_app_length. }
  assert (Htake : take (Z.to_nat (len hb)) (hb ++ drop (length hb) b) = hb).
  { unfold len. rewrite Nat2Z.id. apply take_app_length. }
  destruct (SyntaxData syntax) as [sd |].
  - apply wbind_Ok in H2 as (n2 & b0 & Hw & H2). injection H2 as <- <-.
    apply within_Ok in Hw as (_ & sub & Hsub & ->).
    rewrite Hdrop in Hsub. rewrite Htake.
    pose proof (PSISectionSyntaxData_Serialise_writes sd _ _ _ Hsub) as [Hn2 Hl2].
    exists (hb ++ take (Z.to_nat n2) sub). split; [eauto |].
    unfold len in *. rewrite length_app, length_take. split; [lia |].
    rewrite Z2Nat.inj_add, Nat2Z.id by lia. apply take_app_add'. reflexivity.
  - injection H2 as <- <-. exists hb. repeat split. exact Htake.
Qed.

Lemma appendCRC32_bytes (idx : Z) b n b' :
  0 <= idx ->
  appendCRC32 idx b = (Ok n, b') ->
  n = idx + 4 /\ idx + 4 <= len b /\
  exists crc32,
    computeCRC32 (take (Z.to_nat idx) b) = Ok crc32 /\
    b' = take (Z.to_nat idx) b ++ crc32Bytes crc32 ++ drop (Z.to_nat idx + 4) b.
Proof.
  intros Hidx. unfold appendCRC32.
  destruct (NextBytes idx b 0) as [[data o] | e | x] eqn:Hdata; cbn [wrapErr];
    try discriminate.
  apply NextBytes_Ok in Hdata as (_ & _ & _ & _ & ->).
  change (Z.to_nat 0) with 0%nat. rewrite drop_0.
  destruct (computeCRC32 (take (Z.to_nat idx) b)) as [crc | e | x] eqn:Hcrc;
    cbn [wrapErr]; try discriminate.
  intros H. stores H. repeat split; [lia |].
  exists crc. split; [reflexivity |].
  rewrite !Z2Nat.inj_add by lia.
  change (Z.to_nat 1) with 1%nat. change (Z.to_nat 2) with 2%nat.
  change (Z.to_nat 3) with 3%nat. apply stores_4_at. lia.
Qed.

(** The bytes of a section that serialises: its header, with the section
    length that was computed, those of its syntax (the syntax header, when
    there is one, and the table data) and, for the table types that have
    one, the CRC32 of all the bytes from the header on. *)
Lemma PSISection_Serialise_bytes (s : PSISection) (h : PSISectionHeader) b n b' :
  Header s = Some h -> TableID h <> 255 ->
  PSISection_Serialise s b = (Ok n, b') ->
  sectionBytes s h b (take (Z.to_nat n) b').
Proof.
  intros Hh Hid. unfold PSISection_Serialise, sectionBytes. rewrite Hh.
  destruct (Z.eqb_spec (TableID h) 255) as [| _]; [contradiction |].
  destruct (Z.leb_spec (len b) 3) as [| Hroom]; [discriminate |].
  cbv zeta. intros H.
  apply wbind_Ok in H as (idx1 & b1 & H1 & H).
  apply wbind_Ok in H as (n0 & b2 & H2 & H).
  assert (Hs1 : exists body,
             syntaxBytes (Syntax s) (drop 3 b) body /\ idx1 = 3 + len body /\
             (3 <= length b1)%nat /\
             take (Z.to_nat idx1) b1 = take 3 b ++ body).
  { destruct (Syntax s) as [syntax |].
    - apply wbind_Ok in H1 as (m & b0 & Hw & H1). injection H1 as <- <-.
      apply within_Ok in Hw as (_ & sub & Hsub & ->).
      change (Z.to_nat 3) with 3%nat in *.
      apply PSISectionSyntax_Serialise_bytes in Hsub as (body & Hbody & Hm & Htake).
      exists body. unfold len in *.
      assert (Hl3 : length (take 3 b) = 3%nat) by (rewrite length_take; lia).
      repeat split; [exact Hbody | lia | rewrite length_app; lia |].
      rewrite Z2Nat.inj_add by lia. change (Z.to_nat 3) with 3%nat.
      rewrite <- Htake. apply take_app_add'. symmetry. exact Hl3.
    - injection H1 as <- <-. exists []. unfold len in *.
      repeat split; [lia |]. rewrite app_nil_r. reflexivity. }
  destruct Hs1 as (body & Hbody & -> & Hl1 & Htake).
  exists body. split; [exact Hbody |].
  apply within_Ok in H2 as (_ & sub & Hsub & ->).
  apply PSISectionHeader_Serialise_bytes in Hsub as (_ & _ & ->); [| exact Hid].
  change (Z.to_nat 0) with 0%nat in *. rewrite drop_0, take_0 in H. cbn [app] in H.
  cbn [TableType SectionLength] in H.
  set (hdr := headerBytes h (wrap16 (3 + len body + 4 - 3))).
  change (headerBytes _ _) with hdr in H.
  unfold len in Hroom.
  assert (Hcov : take (Z.to_nat (3 + len body)) (hdr ++ drop 3 b1) = hdr ++ body).
  { assert (Hb : take (Z.to_nat (len body)) (drop 3 b1) = body).
    { rewrite take_drop_commute.
      replace (3 + Z.to_nat (len body))%nat with (Z.to_nat (3 + len body))
        by (unfold len; lia).
      rewrite Htake. apply drop_app_length'. rewrite length_take. lia. }
    rewrite Z2Nat.inj_add by (unfold len; lia). change (Z.to_nat 3) with 3%nat.
    rewrite <- Hb at 2. apply take_app_add'. reflexivity. }
  destruct (hasCRC32 (TableType h)).
  - apply appendCRC32_bytes in H as (-> & Hlen & crc & Hcrc & ->);
      [| unfold len; lia].
    rewrite Hcov in *. exists crc. split; [exact Hcrc |].
    rewrite app_assoc. apply take_app_length'.
    unfold len. rewrite !length_app. cbn [length crc32Bytes hdr headerBytes]. lia.
  - injection H as <- <-. exact Hcov.
Qed.

End SerialiseProperties.


Section SerialisePSIData.
Context {codec : TableCodec} {writes : CodecWrites}.

(** Sections that serialise one after the other fill the buffer from the
    index they start at, chunk by chunk, and leave what comes before it. *)
Lemma serialised_run ss b idx chunks b' idx' :
  serialised ss b idx chunks b' idx' ->
  0 <= idx <= len b ->
  serialiseSections ss idx b = (Ok idx', b') /\
  idx' = idx + len (concat chunks) /\
  idx' <= len b /\
  length b' = length b /\
  b' = take (Z.to_nat idx) b ++ concat chunks ++ drop (Z.to_nat idx') b'.
Proof.
  induction 1 as [b idx | s rest b idx n sub chunks b' idx' Hs Hrest IH]; intros Hidx.
  - cbn [serialiseSections concat]. unfold wret, len. cbn [length app].
    rewrite take_drop. unfold len in Hidx. repeat split; lia.
  - pose proof (PSISection_Serialise_writes s _ _ _ Hs) as [Hn Hsub].
    unfold len in Hn, Hidx. rewrite length_drop in Hn, Hsub.
    remember (take (Z.to_nat idx) b ++ sub) as b1 eqn:Eb1.
    assert (Hl1 : length b1 = length b).
    { subst b1. rewrite length_app, length_take. lia. }
    destruct IH as (Hrun & Hidx' & Hle & Hl' & Hb');
      [unfold len; rewrite Hl1; clear - Hidx Hn; lia |].
    unfold len in Hle. rewrite Hl1 in Hle.
    assert (Hchunk : length (take (Z.to_nat n) sub) = Z.to_nat n).
    { rewrite length_take. lia. }
    split; [| split; [| split; [| split]]].
    + cbn [serialiseSections]. unfold wbind, within.
      destruct (Z.leb_spec 0 idx); [| lia].
      destruct (Z.leb_spec idx (len b)); [| unfold len in *; lia].
      cbn [andb]. rewrite Hs, <- Eb1. exact Hrun.
    + cbn [concat]. unfold len in *. rewrite length_app, Hchunk. lia.
    + unfold len in *. lia.
    + congruence.
    + rewrite Hb' at 1. cbn [concat]. rewrite <- !app_assoc.
      replace (Z.to_nat (idx + n)) with (Z.to_nat idx + Z.to_nat n)%nat by lia.
      subst b1.
      rewrite take_app_add' by (rewrite length_take; lia).
      rewrite <- app_assoc. reflexivity.
Qed.

(** Conversely, sections the loop has serialised without error have
    serialised one after the other. *)
Lemma serialiseSections_Ok ss idx b idx' b' :
  serialiseSections ss idx b = (Ok idx', b') ->
  exists chunks, serialised ss b idx chunks b' idx'.
Proof.
  revert idx b. induction ss as [| s rest IH]; intros idx b H.
  - injection H as <- <-. exists []. constructor.
  - cbn [serialiseSections] in H.
    apply wbind_Ok in H as (n & b0 & Hw & H).
    apply within_Ok in Hw as (_ & sub & Hsub & ->).
    apply IH in H as [chunks H].
    exists (take (Z.to_nat n) sub :: chunks). econstructor; eassumption.
Qed.

(** C10 (as amended).  [PSIData.Serialise] returns an error, and leaves
    the buffer as it was, whenever the pointer field is not zero, and
    whenever the buffer holds fewer than two bytes.  When the pointer field
    is zero, the buffer holds at least two bytes and every section
    serialises without error on the part of the buffer it is given, the
    method writes a zero byte, then the bytes of each section in order,
    then 0xFF up to the end of the buffer, and returns the length of the
    buffer; it succeeds in no other case.  A section whose table
    identifier is 255 serialises to nothing. *)
Theorem PSIData_Serialise_layout (d : PSIData) (b : list byte) :
  (PointerField d <> 0 \/ len b <= 1 ->
   exists e, PSIData_Serialise d b = (Err e, b)) /\
  (PointerField d = 0 -> 1 < len b ->
   forall chunks b1 idx1,
     serialised (Sections d) (<[0%nat := x00]> b) 1 chunks b1 idx1 ->
     PSIData_Serialise d b
     = (Ok (len b),
        x00 :: concat chunks ++ replicate (Z.to_nat (len b - idx1)) xff) /\
     idx1 = 1 + len (concat chunks) /\ idx1 <= len b) /\
  (forall n b',
      PSIData_Serialise d b = (Ok n, b') ->
      PointerField d = 0 /\ 1 < len b /\
      exists chunks b1 idx1,
        serialised (Sections d) (<[0%nat := x00]> b) 1 chunks b1 idx1) /\
  (forall s h sub,
      Header s = Some h -> TableID h = 255 ->
      PSISection_Serialise s sub = (Ok 0, sub)).
Proof.
  split; [| split; [| split]].
  - intros Hcase. unfold PSIData_Serialise.
    destruct (Z.leb_spec (len b) 1); [eauto |].
    destruct Hcase as [Hptr | Hroom]; [| lia].
    destruct (Z.eqb_spec (PointerField d) 0); [contradiction |].
    cbn [negb]. eauto.
  - intros Hptr Hroom chunks b1 idx1 Hser.
    assert (Hl0 : length (<[0%nat := x00]> b) = length b) by apply length_insert.
    apply serialised_run in Hser as (Hrun & Hidx1 & Hle & Hl1 & Hb1);
      [| unfold len in *; lia].
    unfold len in Hle, Hroom. rewrite Hl0 in Hle, Hl1.
    assert (Hhead : take (Z.to_nat 1) (<[0%nat := x00]> b) = [x00]).
    { destruct b as [| b0 b]; [cbn in Hroom; lia | reflexivity]. }
    rewrite Hhead in Hb1.
    split; [| split; [exact Hidx1 | unfold len; lia]].
    unfold PSIData_Serialise.
    destruct (Z.leb_spec (len b) 1); [unfold len in *; lia |].
    rewrite Hptr. cbn [Z.eqb negb]. unfold wbind, store.
    destruct (Z.ltb_spec 0 (len b)); [| unfold len in *; lia].
    change (0 <=? 0) with true. cbn [andb].
    change (mk8 0) with x00. change (Z.to_nat 0) with 0%nat.
    cbv iota. rewrite Hrun. unfold stuff, len. rewrite Hl1.
    assert (Hpre : length ([x00] ++ concat chunks) = Z.to_nat idx1).
    { rewrite length_app. cbn [length]. unfold len in Hidx1. lia. }
    destruct (Z.ltb_spec idx1 (Z.of_nat (length b))) as [Hlt | Hge].
    + destruct (Z.ltb_spec idx1 0); [unfold len in *; lia |].
      f_equal. rewrite Hb1 at 1. rewrite app_assoc.
      rewrite <- Hpre, take_app_length. reflexivity.
    + assert (idx1 = Z.of_nat (length b)) as Heq by lia.
      f_equal; [congruence |].
      rewrite Hb1 at 1.
      rewrite (drop_ge b1) by lia.
      replace (Z.to_nat (Z.of_nat (length b) - idx1)) with 0%nat by lia.
      reflexivity.
  - intros n b'. unfold PSIData_Serialise.
    destruct (Z.leb_spec (len b) 1) as [| Hroom]; [discriminate |].
    destruct (Z.eqb_spec (PointerField d) 0) as [Hptr |]; [| discriminate].
    cbn [negb]. intros H.
    apply wbind_Ok in H as ([] & b0 & Hs & H). apply store_Ok in Hs as [_ ->].
    apply wbind_Ok in H as (idx1 & b1 & Hrun & _).
    rewrite Hptr in Hrun. change (mk8 0) with x00 in Hrun.
    change (Z.to_nat 0) with 0%nat in Hrun.
    apply serialiseSections_Ok in Hrun as [chunks Hrun]. eauto 6.
  - intros s h sub. apply PSISection_Serialise_null.
Qed.

End SerialisePSIData.


(* ----------------------------------------------------------------- *)
(** ** What the parsers do to the cursor *)

Section Outcomes.
Variable ok : abnormal -> Prop.

Lemma advances_behaves {A : Type} (m : Parser A) : advances ok m -> behaves ok m.
Proof.
  intros H buf o Ho. specialize (H buf o Ho).
  destruct (m buf o) as [[a o'] | |]; [lia | exact H ..].
Qed.

Lemma behaves_ret {A : Type} (a : A) : behaves ok (ret a).
Proof. intros buf o Ho. cbn. lia. Qed.

Lemma behaves_Offset : behaves ok Offset.
Proof. intros buf o Ho. cbn. lia. Qed.

Lemma behaves_bind {A B : Type} (m : Parser A) (k : A -> Parser B) :
  behaves ok m -> (forall a, behaves ok (k a)) -> behaves ok (bind m k).
Proof.
  intros Hm Hk buf o Ho. unfold bind. specialize (Hm buf o Ho).
  destruct (m buf o) as [[a o1] | |]; [| exact Hm ..].
  specialize (Hk a buf o1 ltac:(lia)).
  destruct (k a buf o1) as [[b o2] | |]; [lia | exact Hk ..].
Qed.

Lemma advances_bind {A B : Type} (m : Parser A) (k : A -> Parser B) :
  advances ok m -> (forall a, behaves ok (k a)) -> advances ok (bind m k).
Proof.
  intros Hm Hk buf o Ho. unfold bind. specialize (Hm buf o Ho).
  destruct (m buf o) as [[a o1] | |]; [| exact Hm ..].
  specialize (Hk a buf o1 ltac:(lia)).
  destruct (k a buf o1) as [[b o2] | |]; [lia | exact Hk ..].
Qed.

Lemma behaves_wrapping {A : Type} (msg : string) (m : Parser A) :
  behaves ok m -> behaves ok (wrapping msg m).
Proof.
  intros Hm buf o Ho. unfold wrapping. specialize (Hm buf o Ho).
  destruct (m buf o) as [[a o1] | |]; exact Hm.
Qed.

Lemma advances_wrapping {A : Type} (msg : string) (m : Parser A) :
  advances ok m -> advances ok (wrapping msg m).
Proof.
  intros Hm buf o Ho. unfold wrapping. specialize (Hm buf o Ho).
  destruct (m buf o) as [[a o1] | |]; exact Hm.
Qed.

Lemma advances_nextByte : advances ok nextByte.
Proof.
  intros buf o Ho. unfold nextByte, wrapping, NextByte.
  destruct (Z.ltb_spec (len buf) (o + 1)); [exact I |].
  destruct (Z.ltb_spec o 0); [lia |].
  destruct (buf !! Z.to_nat o) as [b |] eqn:Hb; [cbn; lia |].
  apply lookup_ge_None in Hb. unfold len in *. lia.
Qed.

Lemma behaves_nextBytes (n : Z) : 0 <= n -> behaves ok (nextBytes n).
Proof.
  intros Hn buf o Ho. unfold nextBytes, wrapping, NextBytes.
  destruct (Z.ltb_spec (len buf) (o + n)); [exact I |].
  destruct (Z.ltb_spec n 0); [lia |]. destruct (Z.ltb_spec o 0); [lia |].
  cbn. lia.
Qed.

Lemma advances_nextBytes (n : Z) : 0 < n -> advances ok (nextBytes n).
Proof.
  intros Hn buf o Ho. unfold nextBytes, wrapping, NextBytes.
  destruct (Z.ltb_spec (len buf) (o + n)); [exact I |].
  destruct (Z.ltb_spec n 0); [lia |]. destruct (Z.ltb_spec o 0); [lia |].
  cbn. lia.
Qed.

Lemma behaves_restUntil (offsetEnd : Z) : behaves ok (restUntil offsetEnd).
Proof.
  intros buf o Ho. unfold restUntil, bind, Offset.
  destruct (Z.ltb_spec o offsetEnd); [| cbn; lia].
  apply behaves_nextBytes; lia.
Qed.

Lemma behaves_byteWhen (cond : bool) : behaves ok (byteWhen cond).
Proof.
  destruct cond; cbn [byteWhen]; [| apply behaves_ret].
  apply behaves_bind; [apply advances_behaves, advances_nextByte |].
  intros b. apply behaves_ret.
Qed.

Lemma advances_appending {A : Type} (item : Parser A) (acc : list A) :
  advances ok item -> advances ok (appending item acc).
Proof.
  intros H. unfold appending. apply advances_bind; [exact H |].
  intros a. apply behaves_ret.
Qed.

(** A loop whose body moves the cursor ends within the turns it is given:
    it hangs only if its body does. *)
Lemma behaves_loopUntil {S : Type} (offsetEnd : Z) (body : S -> Parser S) :
  (forall s, advances ok (body s)) ->
  forall fuel s buf o,
    0 <= o -> (Z.to_nat (offsetEnd - o) <= fuel)%nat ->
    match loopUntil fuel offsetEnd body s buf o with
    | Ok (_, o') => o <= o'
    | Err _ => True
    | Abn x => ok x
    end.
Proof.
  intros Hbody. induction fuel as [| fuel IH]; intros s buf o Ho Hfuel.
  - cbn [loopUntil]. destruct (Z.ltb_spec o offsetEnd); lia.
  - cbn [loopUntil]. destruct (Z.ltb_spec o offsetEnd); [| lia].
    pose proof (Hbody s buf o Ho) as Hb.
    destruct (body s buf o) as [[s' o1] | |]; [| exact Hb ..].
    specialize (IH s' buf o1 ltac:(lia) ltac:(lia)).
    destruct (loopUntil fuel offsetEnd body s' buf o1) as [[s2 o2] | |];
      [lia | exact IH ..].
Qed.

Lemma behaves_forOffsetBelow {S : Type} (offsetEnd : Z) (body : S -> Parser S) (s : S) :
  (forall s, advances ok (body s)) -> behaves ok (forOffsetBelow offsetEnd body s).
Proof.
  intros Hbody buf o Ho. unfold forOffsetBelow.
  apply behaves_loopUntil; [exact Hbody | exact Ho | lia].
Qed.

(** A loop whose body may leave the cursor where it is can hang. *)
Lemma behaves_loopUntil_weak {S : Type} (offsetEnd : Z) (body : S -> Parser S) :
  ok Diverges ->
  (forall s, behaves ok (body s)) ->
  forall fuel s buf o,
    0 <= o ->
    match loopUntil fuel offsetEnd body s buf o with
    | Ok (_, o') => o <= o'
    | Err _ => True
    | Abn x => ok x
    end.
Proof.
  intros Hdiv Hbody. induction fuel as [| fuel IH]; intros s buf o Ho.
  - cbn [loopUntil]. destruct (Z.ltb_spec o offsetEnd); [exact Hdiv | lia].
  - cbn [loopUntil]. destruct (Z.ltb_spec o offsetEnd); [| lia].
    pose proof (Hbody s buf o Ho) as Hb.
    destruct (body s buf o) as [[s' o1] | |]; [| exact Hb ..].
    specialize (IH s' buf o1 ltac:(lia)).
    destruct (loopUntil fuel offsetEnd body s' buf o1) as [[s2 o2] | |];
      [lia | exact IH ..].
Qed.

End Outcomes.

Lemma behaves_nextByte ok : behaves ok nextByte.
Proof. apply advances_behaves, advances_nextByte. Qed.

Lemma behaves_nextBytes_u8 ok (b : byte) : behaves ok (nextBytes (u8 b)).
Proof. apply behaves_nextBytes. pose proof (u8_range b). lia. Qed.

(** From [behaves] to a run further on in the buffer. *)
Lemma behaves_from ok {A : Type} (m : Parser A) buf (o o0 : Z) :
  behaves ok m -> 0 <= o -> o <= o0 ->
  match m buf o0 with
  | Ok (_, o') => o <= o'
  | Err _ => True
  | Abn x => ok x
  end.
Proof.
  intros H Ho Hle. specialize (H buf o0 ltac:(lia)).
  destruct (m buf o0) as [[a o1] | |]; [lia | exact H ..].
Qed.

Ltac outcome :=
  repeat first
    [ apply behaves_ret
    | apply behaves_Offset
    | apply behaves_nextByte
    | apply advances_nextByte
    | apply behaves_nextBytes_u8
    | apply advances_nextBytes; lia
    | apply behaves_nextBytes; lia
    | apply behaves_restUntil
    | apply behaves_byteWhen
    | apply behaves_wrapping
    | apply advances_wrapping
    | apply advances_appending
    | apply behaves_forOffsetBelow; intros ?
    | apply advances_bind; [| intros ?]
    | apply behaves_bind; [| intros ?]
    | match goal with
      | |- behaves _ (if ?c then _ else _) => destruct c
      end
    | progress cbv zeta ].

Section DecoderOutcomes.
Variable ok : abnormal -> Prop.

Lemma newDescriptorAC3_behaves e : behaves ok (newDescriptorAC3 e).
Proof. unfold newDescriptorAC3. outcome. Qed.

Lemma newDescriptorAVCVideo_behaves : behaves ok newDescriptorAVCVideo.
Proof. unfold newDescriptorAVCVideo. outcome. Qed.

Lemma newDescriptorComponent_behaves e : behaves ok (newDescriptorComponent e).
Proof. unfold newDescriptorComponent. outcome. Qed.

Lemma newDescriptorContent_behaves e : behaves ok (newDescriptorContent e).
Proof. unfold newDescriptorContent, newDescriptorContentItem. outcome. Qed.

Lemma newDescriptorDataStreamAlignment_behaves : behaves ok newDescriptorDataStreamAlignment.
Proof. unfold newDescriptorDataStreamAlignment. outcome. Qed.

Lemma newDescriptorEnhancedAC3_behaves e : behaves ok (newDescriptorEnhancedAC3 e).
Proof. unfold newDescriptorEnhancedAC3. outcome. Qed.

Lemma newDescriptorExtendedEvent_behaves : behaves ok newDescriptorExtendedEvent.
Proof. unfold newDescriptorExtendedEvent, newDescriptorExtendedEventItem. outcome. Qed.

Lemma newDescriptorExtensionSupplementaryAudio_behaves e :
  behaves ok (newDescriptorExtensionSupplementaryAudio e).
Proof. unfold newDescriptorExtensionSupplementaryAudio. outcome. Qed.

Lemma newDescriptorMaximumBitrate_behaves : behaves ok newDescriptorMaximumBitrate.
Proof. unfold newDescriptorMaximumBitrate. outcome. Qed.

Lemma newDescriptorParentalRating_behaves e : behaves ok (newDescriptorParentalRating e).
Proof. unfold newDescriptorParentalRating, newDescriptorParentalRatingItem. outcome. Qed.

Lemma newDescriptorPrivateDataIndicator_behaves : behaves ok newDescriptorPrivateDataIndicator.
Proof. unfold newDescriptorPrivateDataIndicator. outcome. Qed.

Lemma newDescriptorPrivateDataSpecifier_behaves : behaves ok newDescriptorPrivateDataSpecifier.
Proof. unfold newDescriptorPrivateDataSpecifier. outcome. Qed.

Lemma newDescriptorRegistration_behaves e : behaves ok (newDescriptorRegistration e).
Proof. unfold newDescriptorRegistration. outcome. Qed.

Lemma newDescriptorService_behaves : behaves ok newDescriptorService.
Proof. unfold newDescriptorService. outcome. Qed.

Lemma newDescriptorShortEvent_behaves : behaves ok newDescriptorShortEvent.
Proof. unfold newDescriptorShortEvent. outcome. Qed.

Lemma newDescriptorStreamIdentifier_behaves : behaves ok newDescriptorStreamIdentifier.
Proof. unfold newDescriptorStreamIdentifier. outcome. Qed.

Lemma newDescriptorSubtitling_behaves e : behaves ok (newDescriptorSubtitling e).
Proof. unfold newDescriptorSubtitling, newDescriptorSubtitlingItem. outcome. Qed.

Lemma newDescriptorTeletext_behaves e : behaves ok (newDescriptorTeletext e).
Proof. unfold newDescriptorTeletext, newDescriptorTeletextItem. outcome. Qed.

Lemma newDescriptorUnknown_behaves tag length : behaves ok (newDescriptorUnknown tag length).
Proof. unfold newDescriptorUnknown. outcome. Qed.

End DecoderOutcomes.

(* ----------------------------------------------------------------- *)
(** ** The descriptor loop, turn by turn *)

Lemma nextByte_at buf o b :
  0 <= o -> buf !! Z.to_nat o = Some b -> nextByte buf o = Ok (b, o + 1).
Proof.
  intros Ho Hb. unfold nextByte, wrapping. rewrite (NextByte_at buf o b) by assumption.
  reflexivity.
Qed.

Lemma header_bytes buf o (tag length : byte) :
  0 <= o ->
  buf !! Z.to_nat o = Some tag -> buf !! Z.to_nat (o + 1) = Some length ->
  nextBytes 2 buf o = Ok ([tag; length], o + 2).
Proof.
  intros Ho Htag Hlength.
  pose proof (lookup_lt_Some _ _ _ Hlength) as Hlt.
  unfold nextBytes, wrapping.
  rewrite NextBytes_at by (unfold len; lia). cbn [wrapErr]. do 2 f_equal.
  change (Z.to_nat 2) with 2%nat.
  replace (Z.to_nat (o + 1)) with (S (Z.to_nat o)) in Hlength by lia.
  rewrite (drop_S _ _ _ Htag), (drop_S _ _ _ Hlength). reflexivity.
Qed.

(** One turn of the loop of [parseDescriptors], on a descriptor whose tag
    and length bytes are in the buffer. *)
Lemma parseDescriptor_run buf o (tag length : byte) :
  0 <= o ->
  buf !! Z.to_nat o = Some tag -> buf !! Z.to_nat (o + 1) = Some length ->
  parseDescriptor buf o
  = if 0 <? u8 length then
      if len buf <? o + 2 + u8 length then
        Err (ErrWrap "astits: fetching original bytes failed"
               (ErrSlice (len buf) (o + 2 + u8 length)))
      else
        match parseDescriptorContent tag length (o + 2 + u8 length) buf (o + 2) with
        | Ok (content, _) =>
            Ok ({| Decoded := Some content; Length := length; Tag := tag;
                   originalBytes :=
                     take (Z.to_nat (u8 length)) (drop (Z.to_nat (o + 2)) buf) |},
                o + 2 + u8 length)
        | Err e => Err e
        | Abn x => Abn x
        end
    else Ok ({| Decoded := None; Length := length; Tag := tag; originalBytes := [] |},
             o + 2).
Proof.
  intros Ho Htag Hlength. pose proof (u8_range length) as Hr.
  unfold parseDescriptor, bind at 1.
  rewrite (header_bytes _ _ _ _ Ho Htag Hlength). cbv zeta.
  change (at8 [tag; length] 1) with length. change (at8 [tag; length] 0) with tag.
  destruct (Z.ltb_spec 0 (u8 length)); [| reflexivity].
  unfold bind, Offset, wrapping, NextBytes, Seek.
  destruct (Z.ltb_spec (len buf) (o + 2 + u8 length)); [reflexivity |].
  destruct (Z.ltb_spec (u8 length) 0); [lia |].
  destruct (Z.ltb_spec (o + 2) 0); [lia |]. cbn [orb wrapErr].
  destruct (parseDescriptorContent tag length (o + 2 + u8 length) buf (o + 2))
    as [[content o'] | |]; reflexivity.
Qed.

Section DispatchOutcomes.
Variable ok : abnormal -> Prop.

Lemma decoding_behaves {A : Type} (msg : string) (kind : A -> DescriptorContentOf)
    (m : Parser A) :
  behaves ok m -> behaves ok (decoding msg kind m).
Proof.
  intros H. unfold decoding. apply behaves_bind; [apply behaves_wrapping, H |].
  intros a. apply behaves_ret.
Qed.

(** The three decoders that read [offsetEnd - i.Offset()] bytes without
    testing the sign: run below [offsetEnd], as [parseDescriptors] runs
    them, they ask for a number of bytes that is not negative. *)
Lemma newDescriptorNetworkName_outcome offsetEnd buf o :
  0 <= o -> o < offsetEnd ->
  match newDescriptorNetworkName offsetEnd buf o with
  | Ok (_, o') => o <= o'
  | Err _ => True
  | Abn x => ok x
  end.
Proof.
  intros Ho Hend. unfold newDescriptorNetworkName, bind at 1, Offset.
  apply behaves_bind; [apply behaves_nextBytes; lia | | exact Ho].
  intros a. apply behaves_ret.
Qed.

Lemma newDescriptorISO639LanguageAndAudioType_outcome offsetEnd buf o :
  0 <= o -> o < offsetEnd ->
  match newDescriptorISO639LanguageAndAudioType offsetEnd buf o with
  | Ok (_, o') => o <= o'
  | Err _ => True
  | Abn x => ok x
  end.
Proof.
  intros Ho Hend. unfold newDescriptorISO639LanguageAndAudioType, bind, Offset.
  destruct (nextBytes (offsetEnd - o) buf o) as [[bs o1] | |] eqn:Hbs; [| exact I |].
  - pose proof (nextBytes_Ok _ _ _ _ _ Hbs) as (_ & _ & Hlen & -> & ->).
    destruct (take _ _) as [| b bs] eqn:Htake.
    + apply (f_equal length) in Htake. rewrite length_take, length_drop in Htake.
      unfold len in Hlen. cbn in Htake. lia.
    + cbn. lia.
  - pose proof (behaves_nextBytes ok (offsetEnd - o) ltac:(lia) buf o Ho) as H.
    rewrite Hbs in H. exact H.
Qed.

Lemma newDescriptorExtension_outcome offsetEnd buf o :
  0 <= o -> o < offsetEnd ->
  match newDescriptorExtension offsetEnd buf o with
  | Ok (_, o') => o <= o'
  | Err _ => True
  | Abn x => ok x
  end.
Proof.
  intros Ho Hend. unfold newDescriptorExtension, bind at 1.
  pose proof (advances_nextByte ok buf o Ho) as Hb.
  destruct (nextByte buf o) as [[b o1] | |] eqn:Hbyte; [| exact Hb ..].
  apply nextByte_Ok in Hbyte as (_ & _ & -> & _). cbv zeta.
  destruct (u8 b =? DescriptorTagExtensionSupplementaryAudio).
  - apply behaves_from; [| lia | lia].
    apply behaves_bind; [| intros a; apply behaves_ret].
    apply behaves_wrapping, newDescriptorExtensionSupplementaryAudio_behaves.
  - unfold bind at 1, Offset.
    apply behaves_from; [| lia | lia].
    apply behaves_bind; [apply behaves_nextBytes; lia | intros a; apply behaves_ret].
Qed.

(** The VBI data decoder hangs at worst. *)
Lemma newDescriptorVBIData_behaves offsetEnd :
  ok Diverges -> behaves ok (newDescriptorVBIData offsetEnd).
Proof.
  intros Hdiv. unfold newDescriptorVBIData.
  apply behaves_bind; [| intros a; apply behaves_ret].
  apply behaves_forOffsetBelow. intros acc.
  apply advances_appending. unfold newDescriptorVBIDataService.
  apply advances_bind; [apply advances_nextByte |]. intros b. cbv zeta.
  apply behaves_bind; [apply behaves_nextByte |]. intros n.
  apply behaves_bind; [apply behaves_Offset |]. intros o0.
  apply behaves_bind; [| intros a; apply behaves_ret].
  intros buf o Ho. unfold forOffsetBelow.
  apply behaves_loopUntil_weak; [exact Hdiv | | exact Ho].
  intros s. destruct (vbiKnownService (u8 b)); [| apply behaves_ret].
  apply behaves_bind; [apply behaves_nextByte | intros a; apply behaves_ret].
Qed.

End DispatchOutcomes.

(** The decoder of a descriptor, run at the start of a body that is not
    empty: tag 0x58 apart, whose decoder calls the DVB time helpers, it
    returns, or fails with an error, or, for the VBI data descriptor
    alone, hangs. *)
Lemma parseDescriptorContent_outcome (tag length : byte) buf o :
  0 <= o -> 0 < u8 length -> u8 tag <> DescriptorTagLocalTimeOffset ->
  match parseDescriptorContent tag length (o + u8 length) buf o with
  | Ok (_, o') => o <= o'
  | Err _ => True
  | Abn x => x = Diverges /\ u8 tag = DescriptorTagVBIData
  end.
Proof.
  intros Ho Hlen Htag.
  set (ok := fun x => x = Diverges /\ u8 tag = DescriptorTagVBIData).
  change (match parseDescriptorContent tag length (o + u8 length) buf o with
          | Ok (_, o') => o <= o'
          | Err _ => True
          | Abn x => ok x
          end).
  assert (Hpoint : forall {A : Type} msg kind (m : Parser A),
             match m buf o with
             | Ok (_, o') => o <= o'
             | Err _ => True
             | Abn x => ok x
             end ->
             match decoding msg kind m buf o with
             | Ok (_, o') => o <= o'
             | Err _ => True
             | Abn x => ok x
             end).
  { intros A msg kind m H. unfold decoding, bind, wrapping, ret.
    destruct (m buf o) as [[a o1] | |]; exact H. }
  unfold parseDescriptorContent. cbv zeta.
  destruct ((0x80 <=? u8 tag) && (u8 tag <=? 0xfe)).
  { apply behaves_bind; [apply behaves_nextBytes_u8 | | exact Ho].
    intros a. apply behaves_ret. }
  repeat lazymatch goal with
         | |- context [(if u8 tag =? ?c then _ else _) buf o] =>
             destruct (Z.eqb_spec (u8 tag) c); cbv iota;
               [first [ contradiction
                      | apply Hpoint;
                        first [ apply newDescriptorNetworkName_outcome; lia
                              | apply newDescriptorISO639LanguageAndAudioType_outcome; lia
                              | apply newDescriptorExtension_outcome; lia
                              | apply newDescriptorVBIData_behaves;
                                [split; [reflexivity | assumption] | exact Ho]
                              | apply behaves_from; [| exact Ho | lia];
                                first [ apply newDescriptorAC3_behaves
                                      | apply newDescriptorAVCVideo_behaves
                                      | apply newDescriptorComponent_behaves
                                      | apply newDescriptorContent_behaves
                                      | apply newDescriptorDataStreamAlignment_behaves
                                      | apply newDescriptorEnhancedAC3_behaves
                                      | apply newDescriptorExtendedEvent_behaves
                                      | apply newDescriptorMaximumBitrate_behaves
                                      | apply newDescriptorParentalRating_behaves
                                      | apply newDescriptorPrivateDataIndicator_behaves
                                      | apply newDescriptorPrivateDataSpecifier_behaves
                                      | apply newDescriptorRegistration_behaves
                                      | apply newDescriptorService_behaves
                                      | apply newDescriptorShortEvent_behaves
                                      | apply newDescriptorStreamIdentifier_behaves
                                      | apply newDescriptorSubtitling_behaves
                                      | apply newDescriptorTeletext_behaves ] ] ] |]
         end.
  apply Hpoint. apply behaves_from; [| exact Ho | lia].
  apply newDescriptorUnknown_behaves.
Qed.

(** X11.  A descriptor whose tag is not 0x58 (local time offset, whose
    decoder calls helpers outside these sources) never makes
    [parseDescriptors] panic: the turn of the loop that parses it returns
    the descriptor with the cursor at its declared end, or returns an
    error, or hangs, and it hangs for the VBI data descriptor (0x45)
    alone. *)
Theorem parseDescriptor_outcome buf o (tag : byte) :
  0 <= o ->
  buf !! Z.to_nat o = Some tag ->
  u8 tag <> DescriptorTagLocalTimeOffset ->
  match parseDescriptor buf o with
  | Ok (d, o') => Tag d = tag /\ o' = o + 2 + u8 (Length d) /\ o' <= len buf
  | Err _ => True
  | Abn x => x = Diverges /\ u8 tag = DescriptorTagVBIData
  end.
Proof.
  intros Ho Htag Hnot.
  destruct (buf !! Z.to_nat (o + 1)) as [length |] eqn:Hlength.
  - rewrite (parseDescriptor_run _ _ _ _ Ho Htag Hlength).
    pose proof (lookup_lt_Some _ _ _ Hlength) as Hlt.
    pose proof (u8_range length) as Hr.
    destruct (Z.ltb_spec 0 (u8 length)) as [Hpos |];
      [| cbn [Tag Length]; unfold len; split; [reflexivity | lia]].
    destruct (Z.ltb_spec (len buf) (o + 2 + u8 length)) as [| Hroom]; [exact I |].
    pose proof (parseDescriptorContent_outcome tag length buf (o + 2)
                  ltac:(lia) Hpos Hnot) as Hcontent.
    destruct (parseDescriptorContent tag length (o + 2 + u8 length) buf (o + 2))
      as [[content o1] | |]; [| exact I | exact Hcontent].
    cbn [Tag Length]. split; [reflexivity | lia].
  - apply lookup_ge_None in Hlength.
    unfold parseDescriptor, bind at 1, nextBytes, wrapping, NextBytes.
    destruct (Z.ltb_spec (len buf) (o + 2)); [exact I | unfold len in *; lia].
Qed.

(** A loop that is entered and whose body leaves the cursor where it is
    goes on for ever: whatever the number of turns, it is still running. *)
Lemma loopUntil_stuck {S : Type} (offsetEnd : Z) (body : S -> Parser S) buf o :
  o < offsetEnd ->
  (forall s, body s buf o = Ok (s, o)) ->
  forall fuel s, loopUntil fuel offsetEnd body s buf o = Abn Diverges.
Proof.
  intros Hin Hbody. induction fuel as [| fuel IH]; intros s; cbn [loopUntil];
    destruct (Z.ltb_spec o offsetEnd); try lia; [reflexivity |].
  rewrite Hbody. apply IH.
Qed.

(** X12.  A VBI data descriptor (tag 0x45) whose first service is not
    one of the six the decoder knows, and declares a descriptor length
    that is not zero, hangs [parseDescriptors]: the inner loop of
    [newDescriptorVBIData] reads nothing for such a service, so its cursor
    never reaches the end it waits for, whatever the number of turns. *)
Theorem parseDescriptor_VBIData_hangs buf o (length id n : byte) :
  0 <= o ->
  buf !! Z.to_nat o = Some x45 ->
  buf !! Z.to_nat (o + 1) = Some length ->
  0 < u8 length -> o + 2 + u8 length <= len buf ->
  buf !! Z.to_nat (o + 2) = Some id ->
  vbiKnownService (u8 id) = false ->
  buf !! Z.to_nat (o + 3) = Some n ->
  0 < u8 n ->
  (forall fuel acc,
      loopUntil fuel (o + 4 + u8 n) (vbiDataLoopBody (u8 id)) acc buf (o + 4)
      = Abn Diverges) /\
  newDescriptorVBIData (o + 2 + u8 length) buf (o + 2) = Abn Diverges /\
  parseDescriptor buf o = Abn Diverges.
Proof.
  intros Ho Htag Hlength Hpos Hroom Hid Hunknown Hn Hnpos.
  assert (Hloop : forall fuel acc,
             loopUntil fuel (o + 4 + u8 n) (vbiDataLoopBody (u8 id)) acc buf (o + 4)
             = Abn Diverges).
  { apply loopUntil_stuck; [lia |]. intros s. unfold vbiDataLoopBody.
    rewrite Hunknown. reflexivity. }
  assert (Hvbi : newDescriptorVBIData (o + 2 + u8 length) buf (o + 2) = Abn Diverges).
  { unfold newDescriptorVBIData, bind at 1, forOffsetBelow.
    destruct (Z.to_nat (o + 2 + u8 length - (o + 2))) as [| fuel] eqn:Hfuel; [lia |].
    cbn [loopUntil]. destruct (Z.ltb_spec (o + 2) (o + 2 + u8 length)); [| lia].
    unfold appending at 1, bind at 1, newDescriptorVBIDataService, bind at 1.
    rewrite (nextByte_at buf (o + 2) id) by (auto; lia). cbv zeta.
    unfold bind at 1.
    replace (o + 2 + 1) with (o + 3) by lia.
    rewrite (nextByte_at buf (o + 3) n) by (auto; lia).
    unfold bind at 1, Offset. unfold bind at 1, forOffsetBelow.
    replace (o + 3 + 1) with (o + 4) by lia.
    change (fun acc : list DescriptorVBIDataDescriptor =>
              if vbiKnownService (u8 id) then _ else ret acc)
      with (vbiDataLoopBody (u8 id)).
    rewrite Hloop. reflexivity. }
  split; [exact Hloop | split; [exact Hvbi |]].
  rewrite (parseDescriptor_run _ _ _ _ Ho Htag Hlength).
  destruct (Z.ltb_spec 0 (u8 length)); [| lia].
  destruct (Z.ltb_spec (len buf) (o + 2 + u8 length)); [lia |].
  unfold parseDescriptorContent. cbv zeta.
  change ((0x80 <=? u8 x45) && (u8 x45 <=? 0xfe)) with false. cbv iota.
  change (u8 x45) with DescriptorTagVBIData.
  cbn -[newDescriptorVBIData decoding].
  unfold decoding, bind, wrapping. rewrite Hvbi. reflexivity.
Qed.

(** X13.  Three kinds of descriptor are kept as the bytes they are.  A
    descriptor declared empty is returned without content and with the
    cursor behind its two header bytes, whatever its tag.  A descriptor
    with a tag from 0x80 to 0xFE whose body is in the buffer never fails:
    its content is the body as user defined data.  A descriptor with a tag
    the [switch] has no case for, whose body is in the buffer, never fails
    either: its content is the tag and the body. *)
Theorem parseDescriptor_verbatim buf o (tag length : byte) :
  0 <= o ->
  buf !! Z.to_nat o = Some tag ->
  buf !! Z.to_nat (o + 1) = Some length ->
  o + 2 + u8 length <= len buf ->
  let body := take (Z.to_nat (u8 length)) (drop (Z.to_nat (o + 2)) buf) in
  (u8 length = 0 ->
   parseDescriptor buf o
   = Ok ({| Decoded := None; Length := length; Tag := tag; originalBytes := [] |},
         o + 2)) /\
  (0 < u8 length -> 0x80 <= u8 tag <= 0xfe ->
   parseDescriptor buf o
   = Ok ({| Decoded := Some (UserDefined body); Length := length; Tag := tag;
            originalBytes := body |}, o + 2 + u8 length)) /\
  (0 < u8 length -> ~ (0x80 <= u8 tag <= 0xfe) -> ~ In (u8 tag) decodedTags ->
   parseDescriptor buf o
   = Ok ({| Decoded := Some (Unknown {| Unknown_Content := body; Unknown_Tag := tag |});
            Length := length; Tag := tag; originalBytes := body |},
         o + 2 + u8 length)).
Proof.
  intros Ho Htag Hlength Hroom body.
  rewrite (parseDescriptor_run _ _ _ _ Ho Htag Hlength).
  pose proof (u8_range length) as Hr.
  assert (Hread : nextBytes (u8 length) buf (o + 2) = Ok (body, o + 2 + u8 length)).
  { unfold nextBytes, wrapping. rewrite NextBytes_at by lia. reflexivity. }
  split; [| split].
  - intros ->. reflexivity.
  - intros Hpos Huser.
    destruct (Z.ltb_spec 0 (u8 length)); [| lia].
    destruct (Z.ltb_spec (len buf) (o + 2 + u8 length)); [lia |].
    unfold parseDescriptorContent. cbv zeta.
    destruct (Z.leb_spec 0x80 (u8 tag)); [| lia].
    destruct (Z.leb_spec (u8 tag) 0xfe); [| lia].
    cbn [andb]. unfold bind. rewrite Hread. reflexivity.
  - intros Hpos Huser Hunknown.
    destruct (Z.ltb_spec 0 (u8 length)); [| lia].
    destruct (Z.ltb_spec (len buf) (o + 2 + u8 length)); [lia |].
    unfold parseDescriptorContent. cbv zeta.
    assert (Hrange : (0x80 <=? u8 tag) && (u8 tag <=? 0xfe) = false).
    { destruct (Z.leb_spec 0x80 (u8 tag)), (Z.leb_spec (u8 tag) 0xfe);
        cbn [andb]; try reflexivity. lia. }
    rewrite Hrange.
    repeat match goal with
           | |- context [(if u8 tag =? ?c then _ else _) buf (o + 2)] =>
               destruct (Z.eqb_spec (u8 tag) c) as [Heq |];
                 [exfalso; apply Hunknown; rewrite Heq; unfold decodedTags;
                  cbn [In]; tauto |]
           end.
    unfold decoding, bind, wrapping, newDescriptorUnknown, bind. rewrite Hread.
    reflexivity.
Qed.

Lemma parseDescriptor_bytes buf o d o' :
  parseDescriptor buf o = Ok (d, o') ->
  0 <= o /\ o < o' /\ o' <= len buf /\
  descriptorBytes d = take (Z.to_nat (o' - o)) (drop (Z.to_nat o) buf).
Proof.
  intros H. apply parseDescriptor_Ok in H as (Ho & Hlen & Htag & Hlength & Horig & Hol & ->).
  pose proof (u8_range (Length d)) as Hr.
  assert (Hroom : o + 2 + u8 (Length d) <= len buf).
  { rewrite Horig in Hol. unfold len in *. rewrite length_take, length_drop in Hol. lia. }
  repeat split; try lia.
  unfold descriptorBytes. rewrite Horig.
  replace (Z.to_nat (o + 2 + u8 (Length d) - o))
    with (S (S (Z.to_nat (u8 (Length d))))) by lia.
  replace (Z.to_nat (o + 1)) with (S (Z.to_nat o)) in Hlength by lia.
  replace (Z.to_nat (o + 2)) with (S (S (Z.to_nat o))) by lia.
  rewrite (drop_S _ _ _ Htag), (drop_S _ _ _ Hlength). reflexivity.
Qed.

Lemma descriptor_loop_bytes (offsetEnd : Z) buf (fuel : nat) :
  forall acc o ds o',
    0 <= o -> o <= len buf ->
    loopUntil fuel offsetEnd (appending parseDescriptor) acc buf o = Ok (ds, o') ->
    exists new,
      ds = acc ++ new /\ o <= o' /\ o' <= len buf /\
      flat_map descriptorBytes new = take (Z.to_nat (o' - o)) (drop (Z.to_nat o) buf).
Proof.
  induction fuel as [| fuel IH]; intros acc o ds o' Ho Hle H; cbn [loopUntil] in H;
    destruct (Z.ltb_spec o offsetEnd); try discriminate.
  1, 3: injection H as <- <-; exists []; rewrite app_nil_r, Z.sub_diag;
        repeat split; try lia; reflexivity.
  destruct (appending parseDescriptor acc buf o) as [[acc1 o1] | |] eqn:Hbody;
    try discriminate.
  unfold appending in Hbody. apply bind_Ok in Hbody as (d & o2 & Hd & Hret).
  injection Hret as <- <-.
  apply parseDescriptor_bytes in Hd as (_ & Hlt & Hle1 & Hbytes).
  apply IH in H as (new & -> & Hle2 & Hle3 & Hnew); [| lia | lia].
  exists (d :: new). rewrite <- app_assoc. repeat split; try lia.
  cbn [flat_map]. rewrite Hbytes, Hnew.
  replace (Z.to_nat o2) with (Z.to_nat o + Z.to_nat (o2 - o))%nat by lia.
  rewrite <- drop_drop, take_take_drop. f_equal. lia.
Qed.

(** X14.  A descriptor loop that parses lies within the buffer, and the
    descriptors returned, each as its tag, its length and the body it has
    retained, are one after the other the bytes of the buffer from behind
    the loop's length field up to where the cursor is left: nothing of the
    input is lost or reordered on the way. *)
Theorem parseDescriptors_bytes buf o ds o' :
  parseDescriptors buf o = Ok (ds, o') ->
  0 <= o /\ o + 2 <= o' /\ o' <= len buf /\
  flat_map descriptorBytes ds
  = take (Z.to_nat (o' - (o + 2))) (drop (Z.to_nat (o + 2)) buf).
Proof.
  intros H. unfold parseDescriptors in H.
  apply bind_Ok in H as (bs & o1 & Hbs & H).
  apply nextBytes_Ok in Hbs as (_ & Ho & Hlen & -> & _).
  destruct (0 <? loopLength bs).
  - apply bind_Ok in H as (o2 & o3 & Hoff & H). injection Hoff as <- <-.
    unfold forOffsetBelow in H.
    apply descriptor_loop_bytes in H as (new & Hds & Hle & Hle' & Hbytes); [| lia | lia].
    cbn [app] in Hds. subst new. repeat split; try lia. exact Hbytes.
  - injection H as <- <-. rewrite Z.sub_diag. repeat split; lia.
Qed.

(* ----------------------------------------------------------------- *)
(** ** The CRC32 of a message that ends in its own CRC32 *)

Lemma u8_mk8 (z : Z) : u8 (mk8 z) = z mod 256.
Proof.
  unfold u8, mk8.
  assert (Hm : 0 <= z mod 256 < 256) by (apply Z.mod_pos_bound; lia).
  destruct (Byte.of_N (Z.to_N (z mod 256))) as [b |] eqn:Hb.
  - apply Byte.to_of_N in Hb. rewrite Hb. lia.
  - apply Byte.of_N_None_iff in Hb. lia.
Qed.

Lemma mk8_u8 (b : byte) : mk8 (u8 b) = b.
Proof.
  unfold mk8. pose proof (u8_range b) as Hr.
  rewrite Z.mod_small by lia. unfold u8. rewrite N2Z.id, Byte.of_to_N. reflexivity.
Qed.

(** The bits of a byte of a 32-bit value are bits of the value. *)
Lemma byte_of_word_bit (r s i : Z) :
  0 <= s -> 0 <= i < 8 ->
  Z.testbit (u8 (mk8 (Z.shiftr r s))) i = Z.testbit r (i + s).
Proof.
  intros Hs Hi. rewrite u8_mk8. change 256 with (2 ^ 8).
  rewrite Z.mod_pow2_bits_low by lia. apply Z.shiftr_spec. lia.
Qed.

Lemma msbFirst_byte_of_word (r s : Z) :
  0 <= s ->
  msbFirst (mk8 (Z.shiftr r s))
  = map (fun j => Z.testbit r (7 - Z.of_nat j + s)) (seq 0 8).
Proof.
  intros Hs. unfold msbFirst. apply map_ext_in. intros j Hj.
  apply in_seq in Hj. apply byte_of_word_bit; lia.
Qed.

Lemma crc32Bytes_bits (r : Z) : flat_map msbFirst (crc32Bytes r) = wordBits r.
Proof.
  unfold crc32Bytes. change (mk8 r) with (mk8 (Z.shiftr r 0)).
  cbn [flat_map]. rewrite !msbFirst_byte_of_word by lia. reflexivity.
Qed.

(** Fed its own bits, most significant first, the register empties. *)
Lemma crcShift_own_bits (r0 : Z) (n : nat) : forall k : nat,
  (k + n <= 32)%nat ->
  fold_left crcShift (map (fun j => Z.testbit r0 (31 - Z.of_nat j)) (seq k n))
            ((r0 * 2 ^ Z.of_nat k) mod 2 ^ 32)
  = (r0 * 2 ^ Z.of_nat (k + n)) mod 2 ^ 32.
Proof.
  induction n as [| n IH]; intros k Hk.
  - rewrite Nat.add_0_r. reflexivity.
  - cbn [seq map fold_left]. unfold crcShift at 2.
    assert (Htop : Z.testbit ((r0 * 2 ^ Z.of_nat k) mod 2 ^ 32) 31
                   = Z.testbit r0 (31 - Z.of_nat k)).
    { rewrite Z.mod_pow2_bits_low by lia. rewrite Z.mul_pow2_bits by lia. reflexivity. }
    rewrite Htop, xorb_nilpotent. rewrite Z.land_ones by lia.
    replace ((2 * ((r0 * 2 ^ Z.of_nat k) mod 2 ^ 32)) mod 2 ^ 32)
      with ((r0 * 2 ^ Z.of_nat (S k)) mod 2 ^ 32).
    + rewrite IH by lia. f_equal. f_equal. f_equal. lia.
    + rewrite Nat2Z.inj_succ, Z.pow_succ_r by lia.
      rewrite Z.mul_mod_idemp_r by lia. f_equal. lia.
Qed.

(** X1.  The CRC32 of a message followed by its own CRC32, most
    significant byte first, is zero: the check of a section can be made by
    running [computeCRC32] over the whole section, its last four bytes
    included, and comparing with zero. *)
Theorem computeCRC32_residue (data : list byte) :
  computeCRC32 (data ++ crc32Bytes (crc32_mpeg2 data)) = Ok 0.
Proof.
  rewrite computeCRC32_eq. f_equal. unfold crc32_mpeg2 at 1.
  rewrite flat_map_app, fold_left_app. fold (crc32_mpeg2 data).
  rewrite crc32Bytes_bits. unfold wordBits.
  pose proof (fold_crcShift_range (flat_map msbFirst data) crcInit crcInit_range) as Hr.
  fold (crc32_mpeg2 data) in Hr.
  pose proof (crcShift_own_bits (crc32_mpeg2 data) 32 0 ltac:(lia)) as H.
  rewrite Z.pow_0_r, Z.mul_1_r, Z.mod_small in H by lia.
  rewrite H. apply Z.mod_mul. lia.
Qed.

(** A property of the numbers below a bound, checked one by one. *)
Lemma checked_below (P : Z -> bool) (n : nat) :
  forallb P (map Z.of_nat (seq 0 n)) = true ->
  forall z, 0 <= z < Z.of_nat n -> P z = true.
Proof.
  intros H z Hz. rewrite forallb_forall in H. apply H.
  apply in_map_iff. exists (Z.to_nat z). split; [lia |].
  apply in_seq. lia.
Qed.

Lemma be32_crc32Bytes (c : Z) :
  0 <= c < 2 ^ 32 ->
  be32 (mk8 (Z.shiftr c 24)) (mk8 (Z.shiftr c 16)) (mk8 (Z.shiftr c 8)) (mk8 c) = c.
Proof.
  intros Hc. unfold be32. rewrite !u8_mk8. change 256 with (2 ^ 8).
  apply Z.bits_inj'. intros n Hn.
  rewrite !Z.lor_spec.
  assert (Hhigh : 32 <= n -> Z.testbit c n = false).
  { intros Hge. destruct (Z.eq_dec c 0) as [-> | Hnz]; [apply Z.bits_0 |].
    apply Z.bits_above_log2; [lia |].
    apply Z.log2_lt_pow2; [lia |].
    apply Z.lt_le_trans with (2 ^ 32); [lia | apply Z.pow_le_mono_r; lia]. }
  destruct (Z.lt_ge_cases n 8); [| destruct (Z.lt_ge_cases n 16);
    [| destruct (Z.lt_ge_cases n 24); [| destruct (Z.lt_ge_cases n 32)]]].
  - rewrite !Z.shiftl_spec_low by lia. rewrite Z.mod_pow2_bits_low by lia. reflexivity.
  - rewrite (Z.shiftl_spec_low _ 24), (Z.shiftl_spec_low _ 16) by lia.
    rewrite Z.shiftl_spec by lia. rewrite Z.mod_pow2_bits_low by lia.
    rewrite Z.shiftr_spec by lia. rewrite (Z.mod_pow2_bits_high c) by lia.
    replace (n - 8 + 8) with n by lia. rewrite orb_false_r. reflexivity.
  - rewrite (Z.shiftl_spec_low _ 24) by lia.
    rewrite !Z.shiftl_spec by lia. rewrite (Z.mod_pow2_bits_low _ _ (n - 16)) by lia.
    rewrite (Z.mod_pow2_bits_high _ _ (n - 8)) by lia.
    rewrite Z.shiftr_spec by lia. rewrite (Z.mod_pow2_bits_high c) by lia.
    replace (n - 16 + 16) with n by lia. rewrite !orb_false_r. reflexivity.
  - rewrite !Z.shiftl_spec by lia. rewrite (Z.mod_pow2_bits_low _ _ (n - 24)) by lia.
    rewrite (Z.mod_pow2_bits_high _ _ (n - 16)), (Z.mod_pow2_bits_high _ _ (n - 8)) by lia.
    rewrite Z.shiftr_spec by lia. rewrite (Z.mod_pow2_bits_high c) by lia.
    replace (n - 24 + 24) with n by lia. rewrite !orb_false_r. reflexivity.
  - rewrite !Z.shiftl_spec by lia.
    rewrite (Z.mod_pow2_bits_high _ _ (n - 24)), (Z.mod_pow2_bits_high _ _ (n - 16)),
      (Z.mod_pow2_bits_high _ _ (n - 8)), (Z.mod_pow2_bits_high c) by lia.
    rewrite Hhigh by lia. reflexivity.
Qed.

Lemma crc32_mpeg2_range (data : list byte) : 0 <= crc32_mpeg2 data < 2 ^ 32.
Proof. apply fold_crcShift_range, crcInit_range. Qed.

(* ----------------------------------------------------------------- *)
(** ** Serialising one section *)

Section SectionSerialiseProperties.
Context {codec : TableCodec} {writes : CodecWrites}.

Lemma serialiseSyntaxOf_writes (s : PSISection) b idx b1 :
  3 < len b ->
  serialiseSyntaxOf s b = (Ok idx, b1) ->
  3 <= idx <= len b /\ length b1 = length b.
Proof.
  intros Hroom. unfold serialiseSyntaxOf. destruct (Syntax s) as [syntax |].
  - intros H. apply wbind_Ok in H as (n & b0 & Hw & H). injection H as <- <-.
    apply within_writes in Hw; [| apply PSISectionSyntax_Serialise_writes]. lia.
  - intros [= <- <-]. split; [lia | reflexivity].
Qed.

(** The four stores of a CRC32 into a slice that has no room for them. *)
Lemma stores_panic (idx : Z) (v0 v1 v2 v3 : byte) (b : list byte) :
  0 <= idx -> len b < idx + 4 ->
  fst ((let+ _ := store idx v0 in
        let+ _ := store (idx + 1) v1 in
        let+ _ := store (idx + 2) v2 in
        let+ _ := store (idx + 3) v3 in
        wret (idx + 4)) b) = Abn Panics.
Proof.
  intros Hidx Hroom. unfold wbind, store, len in *.
  repeat match goal with
         | |- context [(?a <=? ?x) && (?x <? ?y)] =>
             destruct (Z.leb_spec a x); [| lia];
             destruct (Z.ltb_spec x y); cbn [andb fst]; [| reflexivity];
             rewrite ?length_insert in *
         end.
  lia.
Qed.

(** X10.  [PSISection.Serialise] panics, instead of returning
    [ErrNoRoomInBuffer], when the table type has a CRC32 and the buffer,
    long enough for the header and for the syntax of the section, holds
    fewer than four bytes behind them: the four bytes of the CRC32 are
    stored without a test of the room that is left. *)
Theorem PSISection_Serialise_panics (s : PSISection) (h : PSISectionHeader)
    (b : list byte) (idx : Z) (b1 : list byte) :
  Header s = Some h -> TableID h <> 255 ->
  hasCRC32 (TableType h) = true ->
  3 < len b ->
  serialiseSyntaxOf s b = (Ok idx, b1) ->
  len b < idx + 4 ->
  fst (PSISection_Serialise s b) = Abn Panics.
Proof.
  intros Hh Hid Hcrc Hroom Hsyntax Hshort.
  pose proof (serialiseSyntaxOf_writes _ _ _ _ Hroom Hsyntax) as [Hidx Hl1].
  unfold PSISection_Serialise. rewrite Hh.
  destruct (Z.eqb_spec (TableID h) 255) as [| _]; [contradiction |].
  destruct (Z.leb_spec (len b) 3); [lia |]. cbv zeta.
  change (match Syntax s with
          | Some syntax =>
              let+ n := within 3 (PSISectionSyntax_Serialise syntax) in wret (3 + n)
          | None => wret 3
          end) with (serialiseSyntaxOf s).
  unfold wbind at 1. rewrite Hsyntax.
  unfold wbind at 1, within at 1.
  change (0 <=? 0) with true.
  destruct (Z.leb_spec 0 (len b1)); [| unfold len in *; lia]. cbn [andb].
  change (Z.to_nat 0) with 0%nat. rewrite drop_0, take_0.
  destruct (PSISectionHeader_Serialise _ b1) as [[n0 | e | x] b2] eqn:Hheader.
  - apply PSISectionHeader_Serialise_Ok in Hheader as [Hl2 _].
    cbn [app TableType]. rewrite Hcrc. unfold appendCRC32.
    rewrite NextBytes_at by (unfold len in *; lia). cbn [wrapErr].
    rewrite computeCRC32_eq. cbn [wrapErr].
    apply stores_panic; unfold len in *; lia.
  - exfalso. unfold PSISectionHeader_Serialise in Hheader. cbn [TableID] in Hheader.
    destruct (Z.eqb_spec (TableID h) 255); [contradiction |].
    destruct (Z.ltb_spec (len b1) 3); [unfold len in *; lia |].
    unfold wbind, store in Hheader.
    repeat match type of Hheader with
           | context [(?a <=? ?x) && (?x <? ?y)] =>
               destruct (Z.leb_spec a x); [| lia];
               destruct (Z.ltb_spec x y);
                 [| unfold len in *; rewrite ?length_insert in *; lia];
               cbn [andb] in Hheader
           end.
    discriminate.
  - exfalso. unfold PSISectionHeader_Serialise in Hheader. cbn [TableID] in Hheader.
    destruct (Z.eqb_spec (TableID h) 255); [contradiction |].
    destruct (Z.ltb_spec (len b1) 3); [discriminate |].
    unfold wbind, store in Hheader.
    repeat match type of Hheader with
           | context [(?a <=? ?x) && (?x <? ?y)] =>
               destruct (Z.leb_spec a x); [| lia];
               destruct (Z.ltb_spec x y);
                 [| unfold len in *; rewrite ?length_insert in *; lia];
               cbn [andb] in Hheader
           end.
    discriminate.
Qed.

(** X8.  The bytes of a section that [PSISection.Serialise] has written:
    the three bytes of the header, the section length in them being the
    number of bytes from behind the header up to the end of a CRC32,
    whether or not one follows; the bytes of the syntax (the syntax header,
    when there is one, and what the serialiser of the table data reports);
    and, for the table types that have one, the CRC32 of all of these.
    The count returned is the number of these bytes, and the buffer keeps
    its length. *)
Theorem PSISection_Serialise_layout (s : PSISection) (h : PSISectionHeader)
    (b : list byte) (n : Z) (b' : list byte) :
  Header s = Some h -> TableID h <> 255 ->
  PSISection_Serialise s b = (Ok n, b') ->
  sectionBytes s h b (take (Z.to_nat n) b') /\
  (3 <= n <= len b) /\ length b' = length b /\
  (hasCRC32 (TableType h) = true -> 7 <= n).
Proof.
  intros Hh Hid H.
  pose proof (PSISection_Serialise_bytes s h b n b' Hh Hid H) as Hbytes.
  pose proof (PSISection_Serialise_writes s b n b' H) as [Hn Hl].
  assert (Hlen : length (take (Z.to_nat n) b') = Z.to_nat n).
  { rewrite length_take. unfold len in Hn. lia. }
  split; [exact Hbytes |].
  destruct Hbytes as (body & _ & Hout). cbv zeta in Hout.
  destruct (hasCRC32 (TableType h)).
  - destruct Hout as (crc & _ & Hout). rewrite Hout in Hlen.
    rewrite !length_app in Hlen. cbn [length headerBytes crc32Bytes] in Hlen.
    repeat split; first [lia | exact Hl].
  - rewrite Hout in Hlen. rewrite length_app in Hlen. cbn [length headerBytes] in Hlen.
    repeat split; first [lia | exact Hl | discriminate].
Qed.

(** X9.  A section that [PSISection.Serialise] has written for a table
    type with a CRC32 passes the check [parsePSISection] makes: the four
    bytes the check reads as the stored CRC32 are the CRC32 it computes
    over the bytes before them. *)
Theorem PSISection_Serialise_checks (s : PSISection) (h : PSISectionHeader)
    (b : list byte) (n : Z) (b' : list byte) :
  Header s = Some h -> TableID h <> 255 ->
  hasCRC32 (TableType h) = true ->
  PSISection_Serialise s b = (Ok n, b') ->
  computeCRC32 (coveredBytes b' 0 n) = Ok (storedCRC32 b' n) /\
  forall o, checkCRC32 0 (n - 4) b' o = Ok (storedCRC32 b' n, n - 4).
Proof.
  intros Hh Hid Hcrc H.
  pose proof (PSISection_Serialise_bytes s h b n b' Hh Hid H) as (body & _ & Hout).
  pose proof (PSISection_Serialise_writes s b n b' H) as [Hn Hl].
  cbv zeta in Hout. rewrite Hcrc in Hout. destruct Hout as (crc & Hcomputed & Hout).
  set (covered := headerBytes h (wrap16 (3 + len body + 4 - 3)) ++ body) in *.
  assert (Hlen : Z.to_nat n = (length covered + 4)%nat).
  { apply (f_equal length) in Hout. rewrite length_take, length_app in Hout.
    cbn [length crc32Bytes] in Hout. unfold len in Hn. lia. }
  assert (Hcov : coveredBytes b' 0 n = covered).
  { unfold coveredBytes. change (Z.to_nat 0) with 0%nat. rewrite drop_0.
    replace (take (Z.to_nat (n - 4 - 0)) b')
      with (take (Z.to_nat (n - 4 - 0)) (take (Z.to_nat n) b'))
      by (rewrite take_take; f_equal; lia).
    rewrite Hout. replace (Z.to_nat (n - 4 - 0)) with (length covered) by lia.
    apply take_app_length. }
  assert (Hrange : 0 <= crc < 2 ^ 32).
  { rewrite computeCRC32_eq in Hcomputed. injection Hcomputed as <-.
    apply crc32_mpeg2_range. }
  assert (Hstored : storedCRC32 b' n = crc).
  { unfold storedCRC32. cbv zeta.
    rewrite take_drop_commute.
    replace (Z.to_nat (n - 4) + 4)%nat with (Z.to_nat n) by lia.
    rewrite Hout. replace (Z.to_nat (n - 4)) with (length covered) by lia.
    rewrite drop_app_length. unfold crc32Bytes, at8. cbn [nth].
    apply be32_crc32Bytes, Hrange. }
  rewrite Hcov, Hstored. split; [exact Hcomputed |].
  intros o.
  rewrite checkCRC32_spec by (unfold len in *; lia).
  rewrite Hcov, Hstored.
  rewrite computeCRC32_eq in Hcomputed. injection Hcomputed as ->.
  rewrite Z.eqb_refl. reflexivity.
Qed.

End SectionSerialiseProperties.

(* ----------------------------------------------------------------- *)
(** ** Headers written and read back *)

(** The second byte of a section header, read back. *)
Lemma header_flags_byte (ssi private : bool) (hi : Z) :
  0 <= hi < 16 ->
  let b := mk8 (Z.lor (Z.lor (Z.lor (wrap8 (Z.shiftl (Btou8 ssi) 7))
                                     (wrap8 (Z.shiftl (Btou8 private) 6)))
                             (Z.shiftl 3 4)) hi) in
  bitSet b 0x80 = ssi /\ bitSet b 0x40 = private /\ Z.land (u8 b) 0xf = hi.
Proof.
  intros Hhi.
  pose proof (checked_below
                (fun hi =>
                   forallb (fun ssi =>
                     forallb (fun private =>
                       let b := mk8 (Z.lor (Z.lor (Z.lor (wrap8 (Z.shiftl (Btou8 ssi) 7))
                                                    (wrap8 (Z.shiftl (Btou8 private) 6)))
                                            (Z.shiftl 3 4)) hi) in
                       Bool.eqb (bitSet b 0x80) ssi && Bool.eqb (bitSet b 0x40) private
                       && (Z.land (u8 b) 0xf =? hi))
                       [true; false]) [true; false])
                16 ltac:(vm_compute; reflexivity) hi Hhi) as H.
  cbv beta in H. cbn [forallb] in H.
  destruct ssi, private; cbv zeta;
    repeat match type of H with
           | _ && _ = true => apply andb_prop in H as [? H]
           end;
    repeat match goal with
           | Hx : _ && _ = true |- _ => apply andb_prop in Hx as [? ?]
           end;
    repeat split;
    first [ apply Bool.eqb_prop; assumption | apply Z.eqb_eq; assumption ].
Qed.

(** A length of twelve bits, split over the two bytes and put together
    again. *)
Lemma section_length_bytes (l : Z) :
  0 <= l < 4096 ->
  Z.land 0xf (Z.shiftr l 8) = l / 256 /\ 0 <= l / 256 < 16 /\
  Z.lor (Z.shiftl (l / 256) 8) (u8 (mk8 (Z.land 0xff l))) = l.
Proof.
  intros Hl.
  pose proof (checked_below
                (fun l => (Z.land 0xf (Z.shiftr l 8) =? l / 256) && (l / 256 <? 16)
                          && (Z.lor (Z.shiftl (l / 256) 8) (u8 (mk8 (Z.land 0xff l))) =? l))
                4096 ltac:(vm_compute; reflexivity) l Hl) as H.
  cbv beta in H. apply andb_prop in H as [H H3]. apply andb_prop in H as [H1 H2].
  apply Z.eqb_eq in H1, H3. apply Z.ltb_lt in H2.
  repeat split; try assumption. apply Z.div_pos; lia.
Qed.

Section HeaderRoundTrips.
Context {codec : TableCodec}.

(** X6.  A section header that [PSISectionHeader.Serialise] has written
    is read back by [parsePSISectionHeader] as it was, when its table type
    is the one of its table identifier, does not stop the parsing, and its
    length fits the twelve bits it is written on; the offsets returned are
    those of a section of that length at the start of the buffer. *)
Theorem PSISectionHeader_roundtrip (h : PSISectionHeader) (b : list byte) (n : Z)
    (b' : list byte) :
  0 <= TableID h < 256 ->
  TableType h = psiTableType (TableID h) ->
  shouldStopPSIParsing (TableType h) = false ->
  0 <= SectionLength h < 4096 ->
  PSISectionHeader_Serialise h b = (Ok n, b') ->
  n = 3 /\
  parsePSISectionHeader b' 0
  = Ok ((h, 0, 3,
         (if hasCRC32 (TableType h) then 3 + SectionLength h - 4
          else 3 + SectionLength h),
         3 + SectionLength h), 3).
Proof.
  intros Hid Htype Hstop Hlen H.
  assert (Hnot : TableID h <> 255).
  { intros Heq. rewrite Htype, Heq in Hstop. discriminate. }
  apply PSISectionHeader_Serialise_bytes in H as (-> & Hroom & ->); [| exact Hnot].
  split; [reflexivity |].
  pose proof (section_length_bytes _ Hlen) as (Hhi & Hhir & Hjoin).
  unfold headerBytes. rewrite Hhi.
  pose proof (header_flags_byte (SectionSyntaxIndicator h) (PrivateBit h) _ Hhir)
    as (Hssi & Hprivate & Hlow).
  cbv zeta in Hssi, Hprivate, Hlow.
  set (flags := mk8 (Z.lor _ _)) in *.
  unfold parsePSISectionHeader, bind at 1, Offset. unfold bind at 1.
  rewrite (nextByte_at _ 0 (mk8 (TableID h))) by (reflexivity || lia).
  cbv zeta. rewrite u8_mk8, Z.mod_small by lia. rewrite <- Htype, Hstop.
  unfold bind at 1.
  rewrite (header_bytes _ (0 + 1) flags (mk8 (Z.land 0xff (SectionLength h))))
    by (reflexivity || lia).
  cbv zeta. change (at8 [flags; _] 0) with flags.
  change (at8 [flags; ?x] 1) with x.
  unfold bind, Offset, ret. rewrite Hssi, Hprivate, Hlow, Hjoin.
  destruct h as [private length ssi id type]. cbn in *.
  destruct (hasCRC32 type); reflexivity.
Qed.

End HeaderRoundTrips.

Lemma bits_above (a k n : Z) :
  0 <= k -> 0 <= a < 2 ^ k -> k <= n -> Z.testbit a n = false.
Proof.
  intros Hk Ha Hn. destruct (Z.eq_dec a 0) as [-> | Hnz]; [apply Z.bits_0 |].
  apply Z.bits_above_log2; [lia |].
  apply Z.log2_lt_pow2; [lia |].
  apply Z.lt_le_trans with (2 ^ k); [lia | apply Z.pow_le_mono_r; lia].
Qed.

Lemma be16_U16toU8s (a : Z) :
  0 <= a < 65536 -> be16 (fst (U16toU8s a)) (snd (U16toU8s a)) = a.
Proof.
  intros Ha. unfold be16, U16toU8s. cbn [fst snd]. rewrite !u8_mk8.
  change 0xff with (Z.ones 8). rewrite !(Z.land_comm (Z.ones 8)), !Z.land_ones by lia.
  change 256 with (2 ^ 8). rewrite !Z.mod_mod by lia.
  apply Z.bits_inj'. intros n Hn. rewrite Z.lor_spec.
  destruct (Z.lt_ge_cases n 8); [| destruct (Z.lt_ge_cases n 16)].
  - rewrite Z.shiftl_spec_low by lia. rewrite Z.mod_pow2_bits_low by lia. reflexivity.
  - rewrite Z.shiftl_spec by lia. rewrite Z.mod_pow2_bits_low by lia.
    rewrite Z.shiftr_spec by lia. rewrite (Z.mod_pow2_bits_high a) by lia.
    replace (n - 8 + 8) with n by lia. apply orb_false_r.
  - rewrite Z.shiftl_spec by lia. rewrite !Z.mod_pow2_bits_high by lia.
    symmetry. apply (bits_above a 16); lia.
Qed.

(** The third byte of a syntax header, read back. *)
Lemma version_byte (version : Z) (current : bool) :
  0 <= version < 32 ->
  let b := mk8 (Z.lor (Z.lor (wrap8 (Z.shiftl (Z.land 0x1f version) 1))
                             (Btou8 current))
                      (Z.shiftl 3 6)) in
  bitSet b 0x1 = current /\ Z.shiftr (Z.land (u8 b) 0x3f) 1 = version.
Proof.
  intros Hv.
  pose proof (checked_below
                (fun version =>
                   forallb (fun current =>
                     let b := mk8 (Z.lor (Z.lor (wrap8 (Z.shiftl (Z.land 0x1f version) 1))
                                                (Btou8 current))
                                         (Z.shiftl 3 6)) in
                     Bool.eqb (bitSet b 0x1) current
                     && (Z.shiftr (Z.land (u8 b) 0x3f) 1 =? version))
                     [true; false])
                32 ltac:(vm_compute; reflexivity) version Hv) as H.
  cbv beta in H. cbn [forallb] in H.
  apply andb_prop in H as [Ht H]. apply andb_prop in H as [Hf _].
  destruct current; cbv zeta;
    [apply andb_prop in Ht as [H1 H2] | apply andb_prop in Hf as [H1 H2]];
    (split; [apply Bool.eqb_prop, H1 | apply Z.eqb_eq, H2]).
Qed.

Section SyntaxHeaderRoundTrip.
Context {codec : TableCodec}.

(** X7.  A syntax header that [PSISectionSyntaxHeader.Serialise] has
    written is read back by [parsePSISectionSyntaxHeader] as it was, when
    its version number is below 32, the five bits it is written on, and its
    other fields are within their types. *)
Theorem PSISectionSyntaxHeader_roundtrip (sh : PSISectionSyntaxHeader)
    (b : list byte) (n : Z) (b' : list byte) :
  0 <= TableIDExtension sh < 65536 ->
  0 <= VersionNumber sh < 32 ->
  0 <= SectionNumber sh < 256 ->
  0 <= LastSectionNumber sh < 256 ->
  PSISectionSyntaxHeader_Serialise sh b = (Ok n, b') ->
  n = 5 /\ parsePSISectionSyntaxHeader b' 0 = Ok (sh, 5).
Proof.
  intros Hext Hversion Hnumber Hlast H.
  apply PSISectionSyntaxHeader_Serialise_bytes in H as (-> & Hroom & ->).
  split; [reflexivity |].
  pose proof (version_byte (VersionNumber sh) (CurrentNextIndicator sh) Hversion)
    as [Hcurrent Hv].
  cbv zeta in Hcurrent, Hv.
  unfold syntaxHeaderBytes. set (flags := mk8 (Z.lor _ _)) in *.
  unfold parsePSISectionSyntaxHeader, bind at 1.
  rewrite (header_bytes _ 0 (fst (U16toU8s (TableIDExtension sh)))
             (snd (U16toU8s (TableIDExtension sh)))) by (reflexivity || lia).
  unfold bind at 1. rewrite (nextByte_at _ (0 + 2) flags) by (reflexivity || lia).
  unfold bind at 1.
  rewrite (nextByte_at _ (0 + 2 + 1) (mk8 (SectionNumber sh))) by (reflexivity || lia).
  unfold bind at 1.
  rewrite (nextByte_at _ (0 + 2 + 1 + 1) (mk8 (LastSectionNumber sh)))
    by (reflexivity || lia).
  unfold ret. rewrite Hcurrent, Hv.
  change (at8 [?x; _] 0) with x. change (at8 [_; ?x] 1) with x.
  rewrite be16_U16toU8s by lia. rewrite !u8_mk8, !Z.mod_small by lia.
  destruct sh. reflexivity.
Qed.

End SyntaxHeaderRoundTrip.

(* ----------------------------------------------------------------- *)
(** ** What the section engine returns *)

Section SectionParseProperties.
Context {codec : TableCodec}.

(** X3.  The body of a section whose table type is one of BAT, DIT,
    RST, SIT, ST, TDT is not read at all: once the three bytes of its
    header are in the buffer, [parsePSISection] returns it with empty
    syntax data, a CRC32 of zero, and the cursor at the end the header declares,
    whether or not the buffer reaches that far. *)
Theorem parsePSISection_skips_unparsed buf o h os oss ose oe o1 :
  parsePSISectionHeader buf o = Ok ((h, os, oss, ose, oe), o1) ->
  In (TableType h) unparsedTableTypes ->
  parsePSISection buf o
  = Ok (({| CRC32 := 0; Header := Some h;
            Syntax := if 0 <? SectionLength h
                      then Some {| SyntaxData := Some noSyntaxData;
                                   SyntaxHeader := None |}
                      else None |}, false),
        o + 3 + SectionLength h).
Proof.
  intros Hh Htype.
  assert (Hstop : shouldStopPSIParsing (TableType h) = false).
  { unfold unparsedTableTypes in Htype. cbn [In] in Htype.
    destruct Htype as [<- | [<- | [<- | [<- | [<- | [<- | []]]]]]]; reflexivity. }
  assert (Hcrc : hasCRC32 (TableType h) = false).
  { unfold unparsedTableTypes in Htype. cbn [In] in Htype.
    destruct Htype as [<- | [<- | [<- | [<- | [<- | [<- | []]]]]]]; reflexivity. }
  assert (Hsyntax : forall e buf1 o2,
             parsePSISectionSyntax h e buf1 o2
             = Ok ({| SyntaxData := Some noSyntaxData; SyntaxHeader := None |}, o2)).
  { intros e buf1 o2. unfold parsePSISectionSyntax, parsePSISectionSyntaxData.
    unfold unparsedTableTypes in Htype. cbn [In] in Htype.
    destruct Htype as [<- | [<- | [<- | [<- | [<- | [<- | []]]]]]]; reflexivity. }
  pose proof (parsePSISectionHeader_Ok _ _ _ _ _ _ _ _ Hh) as (-> & Ho & _ & _ & Hn).
  specialize (Hn Hstop) as (-> & -> & -> & _ & _ & ->).
  unfold parsePSISection, bind at 1, wrapping at 1. rewrite Hh. cbn [wrapErr].
  rewrite Hstop, Hcrc.
  destruct (0 <? SectionLength h).
  - unfold bind, wrapping. rewrite Hsyntax. reflexivity.
  - reflexivity.
Qed.

Lemma checkCRC32_Ok (offsetStart offsetSectionsEnd : Z) buf o stored o' :
  checkCRC32 offsetStart offsetSectionsEnd buf o = Ok (stored, o') ->
  0 <= offsetStart <= offsetSectionsEnd /\ offsetSectionsEnd + 4 <= len buf /\
  stored = storedCRC32 buf (offsetSectionsEnd + 4) /\
  computeCRC32 (coveredBytes buf offsetStart (offsetSectionsEnd + 4)) = Ok stored.
Proof.
  unfold checkCRC32, bind at 1, Seek. unfold bind at 1. intros H.
  destruct (wrapping _ parseCRC32 buf offsetSectionsEnd) as [[c o1] | |] eqn:Hc;
    try discriminate.
  apply wrapping_Ok in Hc. unfold parseCRC32 in Hc.
  apply bind_Ok in Hc as (bs & o2 & Hbs & Hret). injection Hret as <- <-.
  apply nextBytes_Ok in Hbs as (_ & Hend & Hroom & -> & ->).
  unfold bind at 1 in H. unfold bind at 1 in H.
  destruct (nextBytes (offsetSectionsEnd - offsetStart) buf offsetStart)
    as [[data o3] | |] eqn:Hdata; try discriminate.
  apply nextBytes_Ok in Hdata as (Hn & Hstart & _ & -> & ->).
  unfold bind, wrapping, lift in H. rewrite computeCRC32_eq in H. cbn [wrapErr] in H.
  destruct (Z.eqb_spec (crc32_mpeg2 (take (Z.to_nat (offsetSectionsEnd - offsetStart))
                                       (drop (Z.to_nat offsetStart) buf)))
                       (be32 (at8 (take (Z.to_nat 4) (drop (Z.to_nat offsetSectionsEnd) buf)) 0)
                             (at8 (take (Z.to_nat 4) (drop (Z.to_nat offsetSectionsEnd) buf)) 1)
                             (at8 (take (Z.to_nat 4) (drop (Z.to_nat offsetSectionsEnd) buf)) 2)
                             (at8 (take (Z.to_nat 4) (drop (Z.to_nat offsetSectionsEnd) buf)) 3)))
    as [Heq |]; cbn [negb] in H; [| discriminate].
  injection H as <- <-.
  unfold storedCRC32, coveredBytes.
  replace (offsetSectionsEnd + 4 - 4) with offsetSectionsEnd by lia.
  repeat split; try lia.
  rewrite computeCRC32_eq. f_equal. exact Heq.
Qed.

(** X2.  A section that [parsePSISection] returns without stopping
    leaves the cursor at its start plus three plus its declared length,
    whatever the parser of its table has read; it has a syntax exactly
    when that length is not zero.  When its table type has a CRC32 and its
    length is not zero, the section lies within the buffer, and the CRC32
    it is returned with is both the value stored in its last four bytes
    and the value computed over the bytes before them: no section with a
    wrong CRC32 is ever returned. *)
Theorem parsePSISection_returned buf o s o' :
  parsePSISection buf o = Ok ((s, false), o') ->
  exists h,
    Header s = Some h /\
    shouldStopPSIParsing (TableType h) = false /\
    o' = o + 3 + SectionLength h /\
    (Syntax s = None <-> SectionLength h = 0) /\
    (hasCRC32 (TableType h) = true -> 0 < SectionLength h ->
     o' <= len buf /\
     CRC32 s = storedCRC32 buf o' /\
     computeCRC32 (coveredBytes buf o o') = Ok (CRC32 s)).
Proof.
  intros H. unfold parsePSISection in H.
  apply bind_Ok in H as ([[[[h os] oss] ose] oe] & o1 & Hh & H).
  apply wrapping_Ok in Hh.
  pose proof (parsePSISectionHeader_Ok _ _ _ _ _ _ _ _ Hh) as (-> & Ho & _ & _ & Hn).
  destruct (shouldStopPSIParsing (TableType h)) eqn:Hstop; [discriminate |].
  specialize (Hn eq_refl) as (-> & -> & -> & Hlen & _ & ->).
  apply bind_Ok in H as ([syntax crc] & o2 & Hbody & H).
  apply bind_Ok in H as ([] & o3 & Hseek & H). injection Hseek as <-.
  injection H as <- <-. exists h. cbn [Header Syntax CRC32].
  split; [reflexivity |]. split; [exact Hstop |]. split; [reflexivity |].
  destruct (Z.ltb_spec 0 (SectionLength h)) as [Hpos | Hzero].
  - apply bind_Ok in Hbody as (syn & o4 & _ & Hbody).
    destruct (hasCRC32 (TableType h)) eqn:Hcrc.
    + apply bind_Ok in Hbody as (stored & o5 & Hcheck & Hret).
      injection Hret as <- <- <-.
      apply checkCRC32_Ok in Hcheck as (_ & Hroom & -> & Hcomputed).
      replace (o + 3 + SectionLength h - 4 + 4) with (o + 3 + SectionLength h)
        in * by lia.
      split; [split; [discriminate | lia] |].
      intros _ _. repeat split; [exact Hroom | exact Hcomputed].
    + injection Hbody as <- <- <-.
      split; [split; [discriminate | lia] | discriminate].
  - injection Hbody as <- <- <-.
    split; [split; [lia | reflexivity] | lia].
Qed.

Lemma parsePSISection_stopped buf o s o' :
  parsePSISection buf o = Ok ((s, true), o') ->
  exists b,
    0 <= o /\ buf !! Z.to_nat o = Some b /\
    shouldStopPSIParsing (psiTableType (u8 b)) = true /\
    s = stopSection b /\ o' = o + 1.
Proof.
  intros H. unfold parsePSISection in H.
  apply bind_Ok in H as ([[[[h os] oss] ose] oe] & o1 & Hh & H).
  apply wrapping_Ok in Hh.
  pose proof (parsePSISectionHeader_Ok _ _ _ _ _ _ _ _ Hh)
    as (_ & Ho & (b & Hb & _ & Htype) & _ & _).
  destruct (shouldStopPSIParsing (TableType h)) eqn:Hstop.
  - rewrite Htype in Hstop.
    rewrite (parsePSISectionHeader_stop _ _ _ Ho Hb Hstop) in Hh.
    injection Hh as <- <- <- <- <- <-. injection H as <- <-.
    exists b. repeat split; assumption.
  - apply bind_Ok in H as ([syntax crc] & o2 & _ & H).
    apply bind_Ok in H as ([] & o3 & _ & H). discriminate.
Qed.

Lemma parsePSISections_Ok buf (o0 : Z) (fuel : nat) :
  forall acc o ss o',
    parsePSISections fuel acc buf o = Ok (ss, o') ->
    parsedUpTo buf o0 acc o ->
    (parsedUpTo buf o0 ss o' /\ len buf <= o') \/
    (exists body b,
        ss = body ++ [stopSection b] /\
        parsedUpTo buf o0 body (o' - 1) /\
        o' - 1 < len buf /\
        buf !! Z.to_nat (o' - 1) = Some b /\
        shouldStopPSIParsing (psiTableType (u8 b)) = true).
Proof.
  induction fuel as [| fuel IH]; intros acc o ss o' H Hacc; cbn [parsePSISections] in H;
    destruct (Z.ltb_spec o (len buf)) as [Hin | Hout]; try discriminate.
  1, 3: injection H as <- <-; left; split; [exact Hacc | lia].
  destruct (wrapping _ parsePSISection buf o) as [[[s stop] o1] | |] eqn:Hs;
    try discriminate.
  apply wrapping_Ok in Hs. destruct stop.
  - injection H as <- <-.
    apply parsePSISection_stopped in Hs as (b & _ & Hb & Hstop & -> & ->).
    right. exists acc, b. replace (o + 1 - 1) with o by lia.
    repeat split; assumption.
  - apply IH in H; [exact H |]. econstructor; eassumption.
Qed.

(** X4.  What [parsePSIData] returns when it returns without error:
    the pointer field is the first byte of the payload, and the sections
    are the ones [parsePSISection] returns one after the other from behind
    the pointer filler, each starting where the one before it ended; the
    parsing has ended at or behind the end of the payload, or on a table
    identifier that stops it, whose header-only entry is the last of the
    sections. *)
Theorem parsePSIData_returned buf d o' :
  parsePSIData buf 0 = Ok (d, o') ->
  exists ptr,
    buf !! 0%nat = Some ptr /\
    PointerField d = u8 ptr /\
    ((parsedUpTo buf (1 + u8 ptr) (Sections d) o' /\ len buf <= o') \/
     (exists body b,
         Sections d = body ++ [stopSection b] /\
         parsedUpTo buf (1 + u8 ptr) body (o' - 1) /\
         o' - 1 < len buf /\
         buf !! Z.to_nat (o' - 1) = Some b /\
         shouldStopPSIParsing (psiTableType (u8 b)) = true)).
Proof.
  intros H. unfold parsePSIData in H.
  apply bind_Ok in H as (ptr & o1 & Hptr & H).
  apply nextByte_Ok in Hptr as (_ & _ & -> & Hptr).
  apply bind_Ok in H as ([] & o2 & Hskip & H). injection Hskip as <-.
  apply bind_Ok in H as (ss & o3 & Hloop & H). injection H as <- <-.
  exists ptr. cbn [PointerField Sections].
  split; [exact Hptr |]. split; [reflexivity |].
  replace (0 + 1 + u8 ptr) with (1 + u8 ptr) in Hloop by lia.
  apply (parsePSISections_Ok buf (1 + u8 ptr)) in Hloop; [exact Hloop | constructor].
Qed.

End SectionParseProperties.

(* ----------------------------------------------------------------- *)
(** ** The section engine returns *)

Lemma returns_behaves {A : Type} (m : Parser A) :
  behaves (fun _ => False) m -> returns m.
Proof.
  intros H buf o Ho. specialize (H buf o Ho).
  destruct (m buf o) as [[a o'] | |]; [exact I | exact I | exact H].
Qed.

Section SectionEngineReturns.
Context {codec : TableCodec}.

Hypothesis parseEITSection_returns : forall e ext, returns (parseEITSection e ext).
Hypothesis parseNITSection_returns : forall ext, returns (parseNITSection ext).
Hypothesis parsePATSection_returns : forall e ext, returns (parsePATSection e ext).
Hypothesis parsePMTSection_returns : forall e ext, returns (parsePMTSection e ext).
Hypothesis parseSDTSection_returns : forall e ext, returns (parseSDTSection e ext).
Hypothesis parseTOTSection_returns : returns parseTOTSection.

Lemma parsePSISectionHeader_behaves ok : behaves ok parsePSISectionHeader.
Proof. unfold parsePSISectionHeader. outcome. Qed.

Lemma parsePSISectionSyntaxHeader_behaves ok : behaves ok parsePSISectionSyntaxHeader.
Proof. unfold parsePSISectionSyntaxHeader. outcome. Qed.

Ltac table H :=
  unfold bind, wrapping, tableIDExtensionOf, ret;
  lazymatch goal with
  | |- context [wrapErr _ (?m ?buf ?o)] =>
      let R := fresh in
      pose proof (H buf o ltac:(assumption)) as R;
      destruct (m buf o) as [[? ?] | |]; [exact I | exact I | exact R]
  end.

Lemma parsePSISectionSyntax_returns (h : PSISectionHeader) (e : Z) :
  returns (parsePSISectionSyntax h e).
Proof.
  intros buf o Ho. unfold parsePSISectionSyntax, bind at 1.
  destruct (hasPSISyntaxHeader (TableType h)) eqn:Hsh.
  - unfold bind at 1, wrapping at 1.
    pose proof (parsePSISectionSyntaxHeader_behaves (fun _ => False) buf o Ho) as Hhead.
    destruct (parsePSISectionSyntaxHeader buf o) as [[sh o1] | |];
      cbn [wrapErr]; [| exact I | exact Hhead].
    assert (Ho1 : 0 <= o1) by lia. unfold ret at 1.
    unfold bind at 1, wrapping at 1, parsePSISectionSyntaxData.
    repeat match goal with
           | |- context [String.eqb ?a ?b] => destruct (String.eqb a b)
           end.
    + table (parseEITSection_returns e (TableIDExtension sh)).
    + table (parseNITSection_returns (TableIDExtension sh)).
    + table (parsePATSection_returns e (TableIDExtension sh)).
    + table (parsePMTSection_returns e (TableIDExtension sh)).
    + table (parseSDTSection_returns e (TableIDExtension sh)).
    + table parseTOTSection_returns.
    + exact I.
  - unfold ret at 1. unfold bind at 1, wrapping at 1, parsePSISectionSyntaxData.
    unfold hasPSISyntaxHeader in Hsh.
    repeat (apply orb_false_elim in Hsh as [Hsh ?]).
    repeat match goal with
           | E : String.eqb _ _ = false |- _ => rewrite E; clear E
           end.
    destruct (String.eqb (TableType h) PSITableTypeTOT).
    + table parseTOTSection_returns.
    + exact I.
Qed.

Lemma checkCRC32_returns (offsetStart offsetSectionsEnd : Z) buf o :
  0 <= offsetStart <= offsetSectionsEnd ->
  match checkCRC32 offsetStart offsetSectionsEnd buf o with
  | Abn _ => False
  | _ => True
  end.
Proof.
  intros H.
  assert (H1 : (offsetSectionsEnd <? 0) = false) by (apply Z.ltb_ge; lia).
  assert (H2 : (offsetStart <? 0) = false) by (apply Z.ltb_ge; lia).
  assert (H3 : (offsetSectionsEnd - offsetStart <? 0) = false) by (apply Z.ltb_ge; lia).
  unfold checkCRC32, Seek, parseCRC32, nextBytes, wrapping, NextBytes, bind, ret, lift,
    failWith.
  rewrite H1, H2, H3. cbn [orb Z.ltb Z.compare].
  destruct (len buf <? offsetSectionsEnd + 4); cbn [wrapErr]; [exact I |].
  destruct (len buf <? offsetStart + (offsetSectionsEnd - offsetStart));
    cbn [wrapErr]; [exact I |].
  rewrite computeCRC32_eq. cbn [wrapErr].
  destruct (negb _); exact I.
Qed.

Lemma parsePSISection_returns : returns parsePSISection.
Proof.
  intros buf o Ho. unfold parsePSISection, bind at 1, wrapping at 1.
  pose proof (parsePSISectionHeader_behaves (fun _ => False) buf o Ho) as Hhead.
  destruct (parsePSISectionHeader buf o) as [[[[[[h os] oss] ose] oe] o1] | |] eqn:Hh;
    cbn [wrapErr]; [| exact I | exact Hhead].
  pose proof (parsePSISectionHeader_Ok _ _ _ _ _ _ _ _ Hh) as (-> & _ & _ & _ & Hn).
  destruct (shouldStopPSIParsing (TableType h)); [exact I |].
  specialize (Hn eq_refl) as (-> & -> & -> & Hlen & _ & ->).
  unfold bind at 1.
  destruct (Z.ltb_spec 0 (SectionLength h)) as [Hpos | _]; [| exact I].
  unfold bind at 1, wrapping at 1.
  pose proof (parsePSISectionSyntax_returns h
                (if hasCRC32 (TableType h) then o + 3 + SectionLength h - 4
                 else o + 3 + SectionLength h) buf (o + 3) ltac:(lia)) as Hsyntax.
  destruct (parsePSISectionSyntax h _ buf (o + 3)) as [[syntax o2] | |];
    cbn [wrapErr]; [| exact I | exact Hsyntax].
  destruct (hasCRC32 (TableType h)); [| exact I].
  unfold bind at 1.
  pose proof (checkCRC32_returns o (o + 3 + SectionLength h - 4) buf o2 ltac:(lia))
    as Hcheck.
  destruct (checkCRC32 o (o + 3 + SectionLength h - 4) buf o2) as [[stored o3] | |];
    [exact I | exact I | exact Hcheck].
Qed.

Lemma parsePSISections_returns buf (fuel : nat) :
  forall sections o,
    0 <= o -> (Z.to_nat (len buf - o) <= fuel)%nat ->
    match parsePSISections fuel sections buf o with
    | Abn _ => False
    | _ => True
    end.
Proof.
  induction fuel as [| fuel IH]; intros sections o Ho Hfuel; cbn [parsePSISections];
    destruct (Z.ltb_spec o (len buf)); try exact I; [lia |].
  unfold wrapping. pose proof (parsePSISection_returns buf o Ho) as Hs.
  destruct (parsePSISection buf o) as [[[s stop] o'] | |] eqn:E; cbn [wrapErr];
    [| exact I | exact Hs].
  destruct stop; [exact I |].
  apply parsePSISection_advances in E. apply IH; lia.
Qed.


End SectionEngineReturns.

(* ----------------------------------------------------------------- *)
(** ** From the sections to the data units *)

Section ToDataProperties.
Context {codec : TableCodec}.
Variable PESData : Type.

Lemma dataTableTypes_dec (t : string) :
  {In t dataTableTypes} + {~ In t dataTableTypes}.
Proof. apply (In_dec String.string_dec). Qed.

Lemma sectionToData_data (fp : option Packet) (pid : Z) s h :
  Header s = Some h -> In (TableType h) dataTableTypes ->
  match syntaxDataOf s with
  | Ok _ => exists u, @sectionToData codec PESData fp pid s = Ok [u]
                      /\ FirstPacket u = fp /\ Data_PID u = pid
  | Err e => @sectionToData codec PESData fp pid s = Err e
  | Abn x => @sectionToData codec PESData fp pid s = Abn x
  end.
Proof.
  intros Hh Hin. unfold sectionToData. rewrite Hh. cbv zeta.
  unfold dataTableTypes in Hin. cbn [In] in Hin.
  destruct Hin as [<- | [<- | [<- | [<- | [<- | [<- | []]]]]]]; cbn;
    destruct (syntaxDataOf s); eauto.
Qed.

Lemma sectionToData_other (fp : option Packet) (pid : Z) s h :
  Header s = Some h -> ~ In (TableType h) dataTableTypes ->
  @sectionToData codec PESData fp pid s = Ok [].
Proof.
  intros Hh Hout. unfold sectionToData. rewrite Hh. cbv zeta.
  unfold dataTableTypes in Hout. cbn [In] in Hout.
  repeat match goal with
         | |- context [String.eqb ?a ?b] =>
             destruct (String.eqb_spec a b) as [E | _];
             [exfalso; apply Hout; rewrite E; cbv; auto 10 |]
         end.
  reflexivity.
Qed.

Lemma parsePSISection_asParsed buf o s stop o' :
  parsePSISection buf o = Ok ((s, stop), o') -> asParsed s.
Proof.
  intros H. unfold parsePSISection in H.
  apply bind_Ok in H as ([[[[h os] oss] ose] oe] & o1 & Hh & H).
  apply wrapping_Ok in Hh.
  pose proof (parsePSISectionHeader_Ok _ _ _ _ _ _ _ _ Hh) as (_ & _ & _ & _ & Hn).
  destruct (shouldStopPSIParsing (TableType h)) eqn:Hstop.
  - injection H as <- <- <-. exists h. split; [reflexivity |].
    intros Hin. exfalso. unfold dataTableTypes in Hin. cbn [In] in Hin.
    destruct Hin as [E | [E | [E | [E | [E | [E | []]]]]]];
      rewrite <- E in Hstop; discriminate.
  - specialize (Hn eq_refl) as (_ & _ & _ & Hlen & _ & _).
    apply bind_Ok in H as ([syntax crc] & o2 & Hbody & H).
    apply bind_Ok in H as ([] & o3 & _ & H). injection H as <- <- <-.
    exists h. split; [reflexivity |]. intros _.
    unfold syntaxDataOf. cbn [Syntax].
    destruct (Z.ltb_spec 0 (SectionLength h)) as [Hpos | Hzero].
    + right. split; [lia |].
      apply bind_Ok in Hbody as (syn & o4 & Hsyn & Hbody).
      apply wrapping_Ok in Hsyn. unfold parsePSISectionSyntax in Hsyn.
      apply bind_Ok in Hsyn as (sh & o5 & _ & Hsyn).
      apply bind_Ok in Hsyn as (d & o6 & _ & Hsyn). injection Hsyn as <- <-.
      assert (syntax = Some {| SyntaxData := Some d; SyntaxHeader := sh |}) as ->.
      { destruct (hasCRC32 (TableType h)).
        - apply bind_Ok in Hbody as (stored & o7 & _ & Hbody).
          injection Hbody as E _ _. symmetry. exact E.
        - injection Hbody as E _ _. symmetry. exact E. }
      exists d. reflexivity.
    + left. split; [lia |]. injection Hbody as <- <- <-. reflexivity.
Qed.

Lemma parsePSISections_asParsed buf (fuel : nat) :
  forall acc o ss o',
    parsePSISections fuel acc buf o = Ok (ss, o') ->
    Forall asParsed acc -> Forall asParsed ss.
Proof.
  induction fuel as [| fuel IH]; intros acc o ss o' H Hacc; cbn [parsePSISections] in H;
    destruct (o <? len buf); try discriminate.
  1, 3: injection H as <- <-; exact Hacc.
  destruct (wrapping _ parsePSISection buf o) as [[[s stop] o1] | |] eqn:Hs;
    try discriminate.
  apply wrapping_Ok in Hs. apply parsePSISection_asParsed in Hs.
  assert (Forall asParsed (acc ++ [s])) as Hmore.
  { apply Forall_app. split; [exact Hacc | constructor; [exact Hs | constructor]]. }
  destruct stop.
  - injection H as <- <-. exact Hmore.
  - eapply IH; eassumption.
Qed.

Lemma toDataFrom_asParsed (fp : option Packet) (pid : Z) (sections : list PSISection) :
  Forall asParsed sections ->
  forall ds,
    (Exists emptyDataSection sections ->
     @toDataFrom codec PESData fp pid sections ds = Abn Panics) /\
    (~ Exists emptyDataSection sections ->
     exists new, @toDataFrom codec PESData fp pid sections ds = Ok (ds ++ new) /\
                 Forall (fun u => FirstPacket u = fp /\ Data_PID u = pid) new).
Proof.
  induction 1 as [| s rest (h & Hh & Hs) _ IH]; intros ds.
  - split.
    + intros Hex. inversion Hex.
    + intros _. exists []. cbn. rewrite app_nil_r. split; [reflexivity | constructor].
  - cbn [toDataFrom].
    destruct (dataTableTypes_dec (TableType h)) as [Hin | Hout].
    + pose proof (sectionToData_data fp pid s h Hh Hin) as Hrun.
      destruct (Hs Hin) as [[Hzero Hnil] | [Hpos [d Hd]]].
      * rewrite Hnil in Hrun. rewrite Hrun. split; [reflexivity |].
        intros Hno. exfalso. apply Hno. left. exists h. auto.
      * rewrite Hd in Hrun. destruct Hrun as (u & -> & Hfp & Hpid).
        destruct (IH (ds ++ [u])) as [Hpanic Hdone]. split.
        -- intros Hex. apply Hpanic.
           inversion Hex as [? ? (h' & Hh' & _ & Hz) | ? ? Hrest]; subst.
           ++ congruence.
           ++ exact Hrest.
        -- intros Hno. destruct Hdone as (new & -> & Hnew).
           { intros Hex. apply Hno. right. exact Hex. }
           exists (u :: new). rewrite <- app_assoc. split; [reflexivity |].
           constructor; [split; assumption | exact Hnew].
    + rewrite (sectionToData_other fp pid s h Hh Hout). rewrite app_nil_r.
      destruct (IH ds) as [Hpanic Hdone]. split.
      * intros Hex. apply Hpanic.
        inversion Hex as [? ? (h' & Hh' & Hin' & _) | ? ? Hrest]; subst.
        -- exfalso. apply Hout. congruence.
        -- exact Hrest.
      * intros Hno. apply Hdone. intros Hex. apply Hno. right. exact Hex.
Qed.

(** X5.  [toData] on what [parsePSIData] has returned.  When one of the
    sections has a table type [toData] makes a data unit of (EIT, NIT, PAT,
    PMT, SDT, TOT) and a declared length of zero, [toData] does not return:
    the section has no syntax, and [s.Syntax.Data] is read through a nil
    pointer.  Otherwise it returns data units, each with the first packet
    and the PID it was given. *)
Theorem parsePSIData_toData buf d o' (fp : option Packet) (pid : Z) :
  parsePSIData buf 0 = Ok (d, o') ->
  ((exists s h, In s (Sections d) /\ Header s = Some h /\
                In (TableType h) dataTableTypes /\ SectionLength h = 0) ->
   @toData codec PESData d fp pid = Abn Panics) /\
  ((forall s h, In s (Sections d) -> Header s = Some h ->
                In (TableType h) dataTableTypes -> SectionLength h <> 0) ->
   exists ds, @toData codec PESData d fp pid = Ok ds /\
              Forall (fun u => FirstPacket u = fp /\ Data_PID u = pid) ds).
Proof.
  intros H. unfold parsePSIData in H.
  apply bind_Ok in H as (ptr & o1 & _ & H).
  apply bind_Ok in H as ([] & o2 & _ & H).
  apply bind_Ok in H as (ss & o3 & Hloop & H). injection H as <- <-.
  cbn [Sections]. unfold toData. cbn [Sections].
  apply parsePSISections_asParsed in Hloop; [| constructor].
  destruct (toDataFrom_asParsed fp pid ss Hloop []) as [Hpanic Hdone]. split.
  - intros (s & h & Hin & Hh & Htype & Hzero). apply Hpanic.
    apply Stdlib.Lists.List.Exists_exists. exists s. split; [exact Hin |]. exists h. auto.
  - intros Hall. destruct Hdone as (new & Hrun & Hnew).
    + intros Hex. apply Stdlib.Lists.List.Exists_exists in Hex as (s & Hin & h & Hh & Htype & Hzero).
      exact (Hall s h Hin Hh Htype Hzero).
    + exists new. split; [exact Hrun | exact Hnew].
Qed.

End ToDataProperties.

(* ----------------------------------------------------------------- *)
(** ** The end of the stream *)

Section EndOfStream.
Context {codec : TableCodec} {env : DemuxerEnv}.

Lemma last_cons {A : Type} (x : A) (l : list A) (d : A) :
  List.last (x :: l) d = List.last l x.
Proof.
  revert x d. induction l as [| y l IH]; intros x d; [reflexivity |].
  change (List.last (x :: y :: l) d) with (List.last (y :: l) d).
  rewrite IH. symmetry. apply IH.
Qed.

Lemma dumpLoop_dumps (dmx dmx' : Demuxer) (outcomes : list (option error)) :
  dumps dmx outcomes dmx' ->
  forall fuel err,
    dumpLoop (S (length outcomes) + fuel) dmx err
    = Returns None (List.last outcomes err) dmx'.
Proof.
  induction 1 as [dmx pool Hdump
                 | dmx dmx' ps pool e outcomes Hdump Hne Hparse Hrest IH
                 | dmx dmx' ps pool outcomes Hdump Hne Hparse Hrest IH];
    intros fuel err.
  - cbn [length Nat.add dumpLoop]. rewrite Hdump. reflexivity.
  - rewrite last_cons. cbn [length Nat.add dumpLoop]. rewrite Hdump.
    destruct ps as [| p0 ps]; [contradiction |].
    cbn [optPacketsParser programMap setPacketPool]. rewrite Hparse.
    apply (IH fuel (Some e)).
  - rewrite last_cons. cbn [length Nat.add dumpLoop]. rewrite Hdump.
    destruct ps as [| p0 ps]; [contradiction |].
    cbn [optPacketsParser programMap setPacketPool]. rewrite Hparse.
    cbn [updateData]. apply (IH fuel None).
Qed.

(** X16.  [NextData] at the end of the stream, when no group the packet
    pool still holds yields a data unit: it returns no data, and as error
    what the last group left in [err].  That is [ErrNoMorePackets] when
    the pool held no group at all; otherwise it is the error of
    [ParseData] on the last group, not wrapped, or no error at all when the
    last group was parsed and held no data. *)
Theorem NextData_end_of_stream
    (dmx dmx0 dmx1 dmx2 : Demuxer) (k : nat) (outcomes : list (option error))
    (fuel : nat) :
  dataBuffer dmx = [] ->
  reads dmx k dmx0 ->
  NextPacket dmx0 = (Err ErrNoMorePackets, dmx1) ->
  dumps dmx1 outcomes dmx2 ->
  NextData (k + (S (S (length outcomes)) + fuel)) dmx
  = Returns None (List.last outcomes (Some ErrNoMorePackets)) dmx2.
Proof.
  intros Hbuf Hreads Hnext Hdumps.
  unfold NextData. rewrite Hbuf.
  rewrite (packetLoop_reads _ _ _ Hreads).
  cbn [Nat.add packetLoop]. rewrite Hnext. cbn [isErrNoMorePackets].
  apply (dumpLoop_dumps _ _ _ Hdumps).
Qed.

End EndOfStream.

(* ================================================================= *)
(** ** Concrete runs on the reference instance *)

#[local] Existing Instance refCodec.
#[local] Existing Instance refEnv.

(** The serialisers of the reference instance keep to the slice they are
    given. *)
Lemma refCodec_writes : @CodecWrites refCodec.
Proof.
  split.
  - intros d b n b'. cbn [PATData_Serialise refCodec]. unfold ref_PATData_Serialise.
    cbv zeta.
    destruct (Z.ltb_spec (len b) (len (concat (map ref_PATProgramBytes (Programs d)))));
      [discriminate |].
    intros [= <- <-]. unfold len in *. rewrite length_app, length_drop. lia.
  - intros [].
Qed.

(** C2, on the PAT section of [TestSerialisePATData]: its header and its
    syntax parse, the CRC32 computed over its first 20 bytes is the one
    stored in its last four, 0xa66d35da, and the section is returned with
    that value. *)
Lemma parsePSISection_crc32_witness :
  parsePSISectionHeader patSection 0 = Ok ((patHeader, 0, 3, 20, 24), 3) /\
  parsePSISectionSyntax patHeader 20 patSection 3 = Ok (patSyntax, 20) /\
  computeCRC32 (coveredBytes patSection 0 24) = Ok 0xa66d35da /\
  storedCRC32 patSection 24 = 0xa66d35da /\
  parsePSISection patSection 0 = Ok ((patParsed, false), 24).
Proof.
  assert (Hh : parsePSISectionHeader patSection 0 = Ok ((patHeader, 0, 3, 20, 24), 3))
    by evaluated.
  assert (Hs : parsePSISectionSyntax patHeader 20 patSection 3 = Ok (patSyntax, 20))
    by evaluated.
  pose proof (@parsePSISection_crc32 refCodec patSection 0 patHeader 0 3 20 24 3
                patSyntax 20 Hh eq_refl eq_refl Hs) as [Hcrc _].
  specialize (Hcrc ltac:(cbn; tauto) ltac:(vm_compute; discriminate)).
  destruct Hcrc as (Hc & _ & _ & Hok).
  split; [exact Hh | split; [exact Hs | split; [| split; [evaluated |]]]].
  - rewrite Hc. evaluated.
  - rewrite Hok by evaluated. reflexivity.
Defined.

(** C2 as it was stated fails on a PAT section that declares a length of
    four bytes: the three header bytes and the four that follow them.  The
    CRC32 of the three header bytes is 0x161e7e71, which is what the last
    four bytes hold, so the stored and the computed value agree; yet
    [parsePSISection] returns an error, the syntax header it reads first
    being cut short by the end of the buffer. *)
Lemma parsePSISection_error_without_mismatch :
  let buf := bytes [0x00; 0xb0; 0x04; 0x16; 0x1e; 0x7e; 0x71] in
  parsePSISectionHeader buf 0
  = Ok (({| PrivateBit := false; SectionLength := 4; SectionSyntaxIndicator := true;
            TableID := 0; TableType := "PAT" |}, 0, 3, 3, 7), 3) /\
  computeCRC32 (coveredBytes buf 0 7) = Ok 0x161e7e71 /\
  storedCRC32 buf 7 = 0x161e7e71 /\
  parsePSISection buf 0
  = Err (ErrWrap "astits: parsing PSI section syntax failed"
           (ErrWrap "astits: parsing PSI section syntax header failed"
              (ErrWrap "astits: fetching next byte failed" (ErrSlice 7 7)))).
Proof. cbv zeta. repeat split; evaluated. Qed.

(** C9, on a payload that holds the test section, then 0xFF and two more
    bytes: the section parser stops at the byte 0xFF, and [parsePSIData]
    returns the test section and the header-only entry of table identifier
    255, its cursor behind that byte and before the two that follow. *)
Lemma parsePSIData_stops_at_null_or_unknown_witness :
  parsePSISection payloadOneSection 25 = Ok ((stopSection xff, true), 26) /\
  parsePSIData payloadOneSection 0 = Ok (psiTest, 26).
Proof.
  assert (Hsec : parsePSISection payloadOneSection 1 = Ok ((patParsed, false), 25))
    by evaluated.
  pose proof (@parsePSIData_stops_at_null_or_unknown refCodec payloadOneSection x00 xff
                [patParsed] 25 eq_refl
                (parsed_more payloadOneSection 1 [] 1 patParsed 25 (parsed_none _ _)
                   eq_refl Hsec)
                eq_refl (or_introl eq_refl)) as (Hstop & _ & Hdata).
  split; [exact Hstop | exact Hdata].
Defined.

(** C3, on a stream of two packets of PID 0, the first with the payload
    whose first section has a wrong CRC32: [parsePSIData] returns the error
    for the payload, and the call of [NextData] that the second packet
    completes the first group in returns that error, wrapped, with nothing
    buffered and nothing learnt. *)
Lemma crc32_mismatch_fails_the_payload_witness :
  let e := ErrCRC32 0xa66d35db 0xa66d35da in
  parsePSIData payloadBadCRC 0 = Err (ErrWrap "astits: parsing PSI table failed" e) /\
  exists dmx1,
    NextData 2 (refDemuxer [packetBadCRC; packetOneSection])
    = Returns None
        (Some (ErrWrap "astits: building new data failed"
                 (ErrWrap "astits: parsing PSI data failed"
                    (ErrWrap "astits: parsing PSI table failed" e)))) dmx1 /\
    dataBuffer dmx1 = [] /\ programMap dmx1 = ∅.
Proof.
  cbv zeta.
  pose proof (@crc32_mismatch_fails_the_payload refCodec refEnv) as [Hpsi Hdmx].
  split.
  - apply (Hpsi payloadBadCRC x00 [] 1); [reflexivity | constructor | reflexivity |].
    evaluated.
  - eexists.
    change (∅ : gmap Z Z) with (programMap (refDemuxer [packetBadCRC; packetOneSection])).
    eapply (Hdmx _ _ _ 1%nat _ _ 0%nat).
    + reflexivity.
    + eapply reads_kept; [reflexivity | reflexivity | apply reads_none].
    + do 3 eexists. split; [reflexivity |]. split; [reflexivity |].
      split; [discriminate | reflexivity].
    + evaluated.
Defined.

(** C3 as it was stated fails on that stream.  In the payload of the first
    packet the section at offset 1 fails its check and the section at
    offset 25 is a valid one; [parsePSIData] returns the error and no
    section.  Of three calls of [NextData], the first returns the error,
    the second the PAT of the second packet, the third the end of the
    stream: the valid section of the first payload is never returned. *)
Lemma parsePSIData_loses_the_sections_around_a_mismatch :
  let e := ErrCRC32 0xa66d35db 0xa66d35da in
  parsePSISection payloadBadCRC 1 = Err e /\
  parsePSISection payloadBadCRC 25 = Ok ((patParsed, false), 49) /\
  parsePSIData payloadBadCRC 0 = Err (ErrWrap "astits: parsing PSI table failed" e) /\
  option_map fst (NextDataTimes 4 3 (refDemuxer [packetBadCRC; packetOneSection]))
  = Some [ (None, Some (ErrWrap "astits: building new data failed"
                          (ErrWrap "astits: parsing PSI data failed"
                             (ErrWrap "astits: parsing PSI table failed" e))));
           (Some (patUnit patTest packetOneSection), None);
           (None, Some ErrNoMorePackets) ].
Proof. cbv zeta. repeat split; evaluated. Qed.

(** C7, on the PAT of the test section: the programs 59520 and 59544 are
    learnt under their PIDs, and the entry of program number 0 is not. *)
Lemma updateData_program_map_witness :
  let dmx' := snd (updateData (refDemuxer []) [patUnit patTest packetOneSection]) in
  programMap dmx' !! 257 = Some 59520 /\
  programMap dmx' !! 8136 = Some 59544 /\
  programMap dmx' !! 16 = None.
Proof.
  pose proof (@updateData_program_map refCodec refEnv (refDemuxer [])
                [patUnit patTest packetOneSection]) as (_ & Hlast & Hfrom).
  cbv zeta in *.
  split; [| split].
  - apply (Hlast [ {| ProgramMapID := 16; ProgramNumber := 0 |} ]
                 {| ProgramMapID := 257; ProgramNumber := 59520 |}
                 [ {| ProgramMapID := 8136; ProgramNumber := 59544 |} ]);
      [reflexivity | reflexivity |].
    intros q [<- | []] _. discriminate.
  - apply (Hlast [ {| ProgramMapID := 16; ProgramNumber := 0 |};
                   {| ProgramMapID := 257; ProgramNumber := 59520 |} ]
                 {| ProgramMapID := 8136; ProgramNumber := 59544 |} []);
      [reflexivity | reflexivity |].
    intros q [].
  - destruct (programMap _ !! 16) as [n |] eqn:Hn; [| reflexivity].
    apply Hfrom in Hn as [Hn | (v & pat & pgm & Hv & Hpat & Hpgm & Hpos & Hpid & _)].
    + change (programMap (refDemuxer [])) with (∅ : gmap Z Z) in Hn.
      rewrite lookup_empty in Hn. discriminate.
    + destruct Hv as [<- | []]. injection Hpat as <-.
      destruct Hpgm as [<- | [<- | [<- | []]]]; cbn in Hpos, Hpid; lia || discriminate.
Defined.

(** C8, on a packet of PID 0 whose payload holds two PAT sections, once
    followed by another packet of PID 0 and once at the end of the stream:
    the call of [NextData] that obtains the group returns the unit of the
    first section and leaves that of the second in the data buffer, from
    where the next call returns it. *)
Lemma NextData_returns_first_and_buffers_rest_witness :
  let first := patUnit patTest packetTwoSections in
  let second := patUnit patSmall packetTwoSections in
  (exists dmx2,
      NextData 3 (refDemuxer [packetTwoSections; packetOneSection])
      = Returns (Some first) None dmx2 /\
      dataBuffer dmx2 = [second] /\
      NextDataTimes 0 1 dmx2 = Some ([(Some second, None)], setDataBuffer dmx2 [])) /\
  (exists dmx2,
      NextData 3 (refDemuxer [packetTwoSections])
      = Returns (Some first) None dmx2 /\
      dataBuffer dmx2 = [second] /\
      NextDataTimes 0 1 dmx2 = Some ([(Some second, None)], setDataBuffer dmx2 [])).
Proof.
  cbv zeta. split.
  - edestruct (@NextData_returns_first_and_buffers_rest refCodec refEnv
                 (refDemuxer [packetTwoSections; packetOneSection]))
      with (k := 1%nat) (fuel := 0%nat) (ps := [packetTwoSections])
           (d := patUnit patTest packetTwoSections)
           (rest := [patUnit patSmall packetTwoSections])
      as (Hret & Hbuf & Hnext).
    + reflexivity.
    + eapply reads_kept; [reflexivity | reflexivity | apply reads_none].
    + left. do 3 eexists. split; [reflexivity |]. split; [reflexivity |].
      split; [discriminate | reflexivity].
    + evaluated.
    + eexists. split; [exact Hret |]. split; [exact Hbuf | exact (Hnext 0%nat)].
  - edestruct (@NextData_returns_first_and_buffers_rest refCodec refEnv
                 (refDemuxer [packetTwoSections]))
      with (k := 1%nat) (fuel := 0%nat) (ps := [packetTwoSections])
           (d := patUnit patTest packetTwoSections)
           (rest := [patUnit patSmall packetTwoSections])
      as (Hret & Hbuf & Hnext).
    + reflexivity.
    + eapply reads_kept; [reflexivity | reflexivity | apply reads_none].
    + right. do 2 eexists. split; [reflexivity |]. split; [reflexivity |].
      split; [discriminate | reflexivity].
    + evaluated.
    + eexists. split; [exact Hret |]. split; [exact Hbuf | exact (Hnext 0%nat)].
Defined.

(** C10, on the PSI data parsed from the payload of the test section,
    serialised into 32 zero bytes: the zero byte, the 24 bytes of the
    section as they were parsed, nothing for the entry of table identifier
    255, and 0xFF in the seven bytes left; 32 is returned. *)
Lemma PSIData_Serialise_layout_witness :
  parsePSIData payloadOneSection 0 = Ok (psiTest, 26) /\
  PSIData_Serialise psiTest (replicate 32 x00)
  = (Ok 32, x00 :: patSection ++ replicate 7 xff).
Proof.
  split; [evaluated |].
  pose proof (@PSIData_Serialise_layout refCodec refCodec_writes psiTest
                (replicate 32 x00)) as (_ & Hlayout & _).
  edestruct Hlayout as (Hret & _); [reflexivity | reflexivity | |].
  - eapply serialised_cons; [written |].
    eapply serialised_cons; [written |].
    apply serialised_nil.
  - rewrite Hret. evaluated.
Defined.

(** C10 as it was stated fails on a buffer of one byte: with a zero
    pointer field and no section at all, [PSIData.Serialise] returns
    [ErrNoRoomInBuffer] and writes nothing, where it was to write the zero
    byte and return 1. *)
Lemma PSIData_Serialise_no_room :
  PSIData_Serialise {| PointerField := 0; Sections := [] |} (bytes [0xaa])
  = (Err ErrNoRoomInBuffer, bytes [0xaa]).
Proof. reflexivity. Qed.

(** On a stream identifier descriptor, 52 01 10. *)
Lemma parseDescriptor_outcome_witness :
  match parseDescriptor (bytes [0x52; 0x01; 0x10]) 0 with
  | Ok (d, o') => Tag d = x52 /\ o' = 0 + 2 + u8 (Length d) /\ o' <= 3
  | Err _ => True
  | Abn x => x = Diverges /\ u8 x52 = DescriptorTagVBIData
  end.
Proof.
  apply (parseDescriptor_outcome (bytes [0x52; 0x01; 0x10]) 0 x52);
    [lia | reflexivity | discriminate].
Defined.

(** On the VBI data descriptor 45 02 03 01, service 3 with one byte of
    descriptors, alone and in a descriptor loop of four bytes. *)
Lemma parseDescriptor_VBIData_hangs_witness :
  parseDescriptor (bytes [0x45; 0x02; 0x03; 0x01]) 0 = Abn Diverges /\
  parseDescriptors (bytes [0xf0; 0x04; 0x45; 0x02; 0x03; 0x01]) 0 = Abn Diverges.
Proof.
  split; [| vm_compute; reflexivity].
  apply (parseDescriptor_VBIData_hangs (bytes [0x45; 0x02; 0x03; 0x01]) 0 x02 x03 x01);
    first [reflexivity | vm_compute; discriminate | lia].
Defined.

(** On an empty descriptor of tag 0x05, on a user defined descriptor of
    tag 0x80 and on a descriptor of tag 0x7c, which has no decoder. *)
Lemma parseDescriptor_verbatim_witness :
  parseDescriptor (bytes [0x05; 0x00; 0xff]) 0
  = Ok ({| Decoded := None; Length := x00; Tag := x05; originalBytes := [] |}, 2) /\
  parseDescriptor (bytes [0x80; 0x02; 0xaa; 0xbb]) 0
  = Ok ({| Decoded := Some (UserDefined (bytes [0xaa; 0xbb])); Length := x02;
           Tag := x80; originalBytes := bytes [0xaa; 0xbb] |}, 4) /\
  parseDescriptor (bytes [0x7c; 0x02; 0x2e; 0x00]) 0
  = Ok ({| Decoded := Some (Unknown {| Unknown_Content := bytes [0x2e; 0x00];
                                       Unknown_Tag := x7c |});
           Length := x02; Tag := x7c; originalBytes := bytes [0x2e; 0x00] |}, 4).
Proof.
  split; [| split].
  - apply (parseDescriptor_verbatim (bytes [0x05; 0x00; 0xff]) 0 x05 x00);
      first [reflexivity | vm_compute; discriminate | lia].
  - apply (parseDescriptor_verbatim (bytes [0x80; 0x02; 0xaa; 0xbb]) 0 x80 x02);
      first [reflexivity | vm_compute; discriminate | vm_compute; split; discriminate | lia].
  - apply (parseDescriptor_verbatim (bytes [0x7c; 0x02; 0x2e; 0x00]) 0 x7c x02);
      first [reflexivity | vm_compute; discriminate | lia
            | vm_compute; intros [H _]; apply H; reflexivity
            | vm_compute; intuition discriminate ].
Defined.

(** On a loop of seven bytes that holds a descriptor of tag 0x7c and a
    stream identifier descriptor, followed by a byte that is not part of
    it. *)
Lemma parseDescriptors_bytes_witness :
  let buf := bytes [0xf0; 0x07; 0x7c; 0x02; 0x2e; 0x00; 0x52; 0x01; 0x10; 0xff] in
  exists ds,
    parseDescriptors buf 0 = Ok (ds, 9) /\
    flat_map descriptorBytes ds = bytes [0x7c; 0x02; 0x2e; 0x00; 0x52; 0x01; 0x10].
Proof.
  intros buf.
  destruct (parseDescriptors buf 0) as [[ds o'] | |] eqn:E;
    try (exfalso; vm_compute in E; discriminate).
  assert (Ho : o' = 9) by (vm_compute in E; congruence). subst o'.
  exists ds. split; [reflexivity |].
  pose proof (parseDescriptors_bytes buf 0 ds 9 E) as (_ & _ & _ & Hbytes).
  rewrite Hbytes. reflexivity.
Defined.

(** On the stream identifier descriptor 52 01 10, written into five zero
    bytes. *)
Lemma parseDescriptor_roundtrip_witness :
  let buf := bytes [0x52; 0x01; 0x10; 0xff] in
  let d := {| Decoded := Some (StreamIdentifier {| StreamIdentifier_ComponentTag := 16 |});
              Length := x01; Tag := x52; originalBytes := bytes [0x10] |} in
  parseDescriptor buf 0 = Ok (d, 3) /\
  Descriptor_Serialise d (replicate 5 x00)
  = (Ok 3, bytes [0x52; 0x01; 0x10; 0x00; 0x00]).
Proof.
  intros buf d.
  assert (E : parseDescriptor buf 0 = Ok (d, 3)) by (vm_compute; reflexivity).
  split; [exact E |].
  rewrite (parseDescriptor_roundtrip buf 0 d 3 (replicate 5 x00) E);
    [reflexivity | vm_compute; discriminate ..].
Defined.

(** On the test section and a buffer of 22 bytes: the header and the
    syntax take 20 of them, two are left for the CRC32, and
    [PSISection.Serialise] panics. *)
Lemma PSISection_Serialise_panics_witness :
  serialiseSyntaxOf patParsed (replicate 22 x00)
  = (Ok 20, replicate 3 x00 ++ drop 3 (take 20 patSection) ++ replicate 2 x00) /\
  fst (PSISection_Serialise patParsed (replicate 22 x00)) = Abn Panics.
Proof.
  assert (Hsyntax : serialiseSyntaxOf patParsed (replicate 22 x00)
                    = (Ok 20, replicate 3 x00 ++ drop 3 (take 20 patSection)
                                ++ replicate 2 x00)) by evaluated.
  split; [exact Hsyntax |].
  eapply (@PSISection_Serialise_panics refCodec refCodec_writes patParsed patHeader
            (replicate 22 x00) 20);
    [reflexivity | discriminate | reflexivity | reflexivity | exact Hsyntax | reflexivity].
Defined.

(** On the test section and 32 zero bytes: the 24 bytes of the section as
    it was parsed, and 24 returned. *)
Lemma PSISection_Serialise_layout_witness :
  PSISection_Serialise patParsed (replicate 32 x00)
  = (Ok 24, patSection ++ replicate 8 x00) /\
  sectionBytes patParsed patHeader (replicate 32 x00)
    (take (Z.to_nat 24) (patSection ++ replicate 8 x00)) /\
  take (Z.to_nat 24) (patSection ++ replicate 8 x00) = patSection.
Proof.
  assert (H : PSISection_Serialise patParsed (replicate 32 x00)
              = (Ok 24, patSection ++ replicate 8 x00)) by evaluated.
  split; [exact H |]. split; [| reflexivity].
  eapply (@PSISection_Serialise_layout refCodec refCodec_writes patParsed patHeader
            (replicate 32 x00) 24); [reflexivity | discriminate | exact H].
Defined.

(** On the same run: the last four of the 24 bytes are the CRC32 of the
    20 before them, 0xa66d35da, and the check of [parsePSISection] on the
    buffer returns it. *)
Lemma PSISection_Serialise_checks_witness :
  let b' := patSection ++ replicate 8 x00 in
  PSISection_Serialise patParsed (replicate 32 x00) = (Ok 24, b') /\
  storedCRC32 b' 24 = 0xa66d35da /\
  computeCRC32 (coveredBytes b' 0 24) = Ok (storedCRC32 b' 24) /\
  checkCRC32 0 (24 - 4) b' 0 = Ok (storedCRC32 b' 24, 24 - 4).
Proof.
  intros b'.
  assert (H : PSISection_Serialise patParsed (replicate 32 x00) = (Ok 24, b'))
    by evaluated.
  split; [exact H |]. split; [reflexivity |].
  destruct (@PSISection_Serialise_checks refCodec refCodec_writes patParsed patHeader
              (replicate 32 x00) 24 b' eq_refl) as [Hcomputed Hcheck];
    [discriminate | reflexivity | exact H |].
  split; [exact Hcomputed | exact (Hcheck 0)].
Defined.

(** On the header of the test section: the bytes 00 b0 15, read back as
    the header of a section of 21 bytes whose CRC32 starts at offset 20. *)
Lemma PSISectionHeader_roundtrip_witness :
  PSISectionHeader_Serialise patHeader (replicate 3 x00)
  = (Ok 3, bytes [0x00; 0xb0; 0x15]) /\
  parsePSISectionHeader (bytes [0x00; 0xb0; 0x15]) 0
  = Ok ((patHeader, 0, 3, 20, 24), 3).
Proof.
  assert (H : PSISectionHeader_Serialise patHeader (replicate 3 x00)
              = (Ok 3, bytes [0x00; 0xb0; 0x15])) by reflexivity.
  split; [exact H |].
  eapply (@PSISectionHeader_roundtrip patHeader (replicate 3 x00) 3);
    [cbn; lia | reflexivity | reflexivity | cbn; lia | exact H].
Defined.

(** On the syntax header of the test section: the bytes 07 44 ef 00 00. *)
Lemma PSISectionSyntaxHeader_roundtrip_witness :
  let sh := {| CurrentNextIndicator := true; LastSectionNumber := 0; SectionNumber := 0;
               TableIDExtension := 1860; VersionNumber := 23 |} in
  PSISectionSyntaxHeader_Serialise sh (replicate 5 x00)
  = (Ok 5, bytes [0x07; 0x44; 0xef; 0x00; 0x00]) /\
  parsePSISectionSyntaxHeader (bytes [0x07; 0x44; 0xef; 0x00; 0x00]) 0 = Ok (sh, 5).
Proof.
  intros sh.
  assert (H : PSISectionSyntaxHeader_Serialise sh (replicate 5 x00)
              = (Ok 5, bytes [0x07; 0x44; 0xef; 0x00; 0x00])) by reflexivity.
  split; [exact H |].
  eapply (@PSISectionSyntaxHeader_roundtrip sh (replicate 5 x00) 5);
    [cbn; lia | cbn; lia | cbn; lia | cbn; lia | exact H].
Defined.

(** On a DIT section that declares 4095 bytes in a buffer of three: it is
    returned, and the cursor is at 4098. *)
Lemma parsePSISection_skips_unparsed_witness :
  let h := {| PrivateBit := false; SectionLength := 4095; SectionSyntaxIndicator := false;
              TableID := 0x7e; TableType := "DIT" |} in
  @parsePSISection refCodec (bytes [0x7e; 0x0f; 0xff]) 0
  = Ok (({| CRC32 := 0; Header := Some h;
            Syntax := Some {| SyntaxData := Some noSyntaxData; SyntaxHeader := None |} |},
         false), 4098).
Proof.
  intros h.
  apply (@parsePSISection_skips_unparsed refCodec (bytes [0x7e; 0x0f; 0xff]) 0 h 0 3 4098
           4098 3); [reflexivity | cbn; tauto].
Defined.

(** On the test section behind a zero pointer field: the cursor is at
    1 + 3 + 21, and the CRC32 returned is the one stored and computed. *)
Lemma parsePSISection_returned_witness :
  parsePSISection payloadOneSection 1 = Ok ((patParsed, false), 25) /\
  storedCRC32 payloadOneSection 25 = 0xa66d35da /\
  computeCRC32 (coveredBytes payloadOneSection 1 25) = Ok 0xa66d35da.
Proof.
  assert (H : parsePSISection payloadOneSection 1 = Ok ((patParsed, false), 25))
    by evaluated.
  split; [exact H |].
  destruct (@parsePSISection_returned refCodec payloadOneSection 1 patParsed 25 H)
    as (h & Hh & _ & _ & _ & Hcrc).
  injection Hh as <-.
  destruct (Hcrc eq_refl eq_refl) as (_ & Hstored & Hcomputed).
  split; [symmetry; exact Hstored | exact Hcomputed].
Defined.

(** On the payload of the test section: the parsing has stopped on the
    stuffing byte at offset 25, whose entry follows the section. *)
Lemma parsePSIData_returned_witness :
  parsePSIData payloadOneSection 0 = Ok (psiTest, 26) /\
  exists ptr,
    payloadOneSection !! 0%nat = Some ptr /\
    PointerField psiTest = u8 ptr /\
    ((parsedUpTo payloadOneSection (1 + u8 ptr) (Sections psiTest) 26 /\
      len payloadOneSection <= 26) \/
     (exists body b,
         Sections psiTest = body ++ [stopSection b] /\
         parsedUpTo payloadOneSection (1 + u8 ptr) body (26 - 1) /\
         26 - 1 < len payloadOneSection /\
         payloadOneSection !! Z.to_nat (26 - 1) = Some b /\
         shouldStopPSIParsing (psiTableType (u8 b)) = true)).
Proof.
  assert (H : parsePSIData payloadOneSection 0 = Ok (psiTest, 26)) by evaluated.
  split; [exact H |].
  exact (@parsePSIData_returned refCodec payloadOneSection psiTest 26 H).
Defined.

(** On a payload that holds a PAT section of length zero: [parsePSIData]
    returns it, and [toData] panics on what was returned.  On the payload
    of the test section, [toData] returns the unit of its PAT. *)
Lemma parsePSIData_toData_witness :
  let empty := {| PrivateBit := false; SectionLength := 0; SectionSyntaxIndicator := true;
                  TableID := 0; TableType := "PAT" |} in
  let d := {| PointerField := 0;
              Sections := [ {| CRC32 := 0; Header := Some empty; Syntax := None |} ] |} in
  (parsePSIData (bytes [0x00; 0x00; 0xb0; 0x00]) 0 = Ok (d, 4) /\
   @toData refCodec (list byte) d None 0 = Abn Panics) /\
  (parsePSIData payloadOneSection 0 = Ok (psiTest, 26) /\
   exists ds, @toData refCodec (list byte) psiTest (Some packetOneSection) 0 = Ok ds /\
              Forall (fun u => FirstPacket u = Some packetOneSection /\ Data_PID u = 0) ds).
Proof.
  intros empty d. split.
  - assert (H : parsePSIData (bytes [0x00; 0x00; 0xb0; 0x00]) 0 = Ok (d, 4))
      by evaluated.
    split; [exact H |].
    apply (proj1 (@parsePSIData_toData refCodec (list byte) _ d 4 None 0 H)).
    exists {| CRC32 := 0; Header := Some empty; Syntax := None |}, empty.
    split; [left; reflexivity |]. split; [reflexivity |].
    split; [cbn; tauto | reflexivity].
  - assert (H : parsePSIData payloadOneSection 0 = Ok (psiTest, 26)) by evaluated.
    split; [exact H |].
    apply (proj2 (@parsePSIData_toData refCodec (list byte) _ psiTest 26
                    (Some packetOneSection) 0 H)).
    intros s h [<- | [<- | []]] [= <-]; cbn; [lia | ].
    intros Hin. exfalso. cbn in Hin.
    destruct Hin as [E | [E | [E | [E | [E | [E | []]]]]]]; discriminate.
Defined.

(** On a stream of one packet of PID 0 whose first section fails its
    CRC32, and on one whose payload is a CAT: at the end of the stream the
    first gives the parse error and not [ErrNoMorePackets], the second
    neither data nor error. *)
Lemma NextData_end_of_stream_witness :
  (exists e dmx2,
      NextData 4 (refDemuxer [packetBadCRC]) = Returns None (Some e) dmx2 /\
      isErrNoMorePackets e = false) /\
  (exists dmx2,
      NextData 4 (refDemuxer [payloadPacket 1 true payloadOneSection])
      = Returns None None dmx2).
Proof.
  split.
  - assert (exists e, ref_ParseData [packetBadCRC] None NewProgramMap = Err e
                      /\ isErrNoMorePackets e = false) as (e & He & Hnot).
    { eexists. split; [written | reflexivity]. }
    eexists e, _. split; [| exact Hnot].
    eapply (@NextData_end_of_stream refCodec refEnv (refDemuxer [packetBadCRC]))
      with (k := 1%nat) (outcomes := [Some e]) (fuel := 0%nat).
    + reflexivity.
    + eapply reads_kept; [reflexivity | reflexivity | apply reads_none].
    + reflexivity.
    + eapply dumps_failed; [reflexivity | discriminate | exact He |].
      apply dumps_end. reflexivity.
  - eexists.
    eapply (@NextData_end_of_stream refCodec refEnv
              (refDemuxer [payloadPacket 1 true payloadOneSection]))
      with (k := 1%nat) (outcomes := [None]) (fuel := 0%nat).
    + reflexivity.
    + eapply reads_kept; [reflexivity | reflexivity | apply reads_none].
    + reflexivity.
    + eapply dumps_empty; [reflexivity | discriminate | reflexivity |].
      apply dumps_end. reflexivity.
Defined.

Lemma outside_returns {A : Type} : returns (@outside A).
Proof. intros buf o _. exact I. Qed.

Lemma ref_parsePATSection_returns (offsetSectionsEnd tableIDExtension : Z) :
  returns (ref_parsePATSection offsetSectionsEnd tableIDExtension).
Proof.
  apply returns_behaves. unfold ref_parsePATSection, ref_parsePATProgram. outcome.
Qed.

